(** * AgeGate: policy helpers, token codec and popup handshake

    A shallow embedding of the browser-side AgeGate integration
    ([src/internal/policy.js], [src/internal/token.js], [src/agegate.js],
    and the helpers of the wrapper [src/easy-agegate.js]) together with the
    properties its specification states about it and further properties of
    the code.

    Conventions of the embedding:
    - a JavaScript string is a [string]; its characters are the code units
      below 256, and [String.length] is the [.length] of the source;
    - a [Uint8Array] is a [list byte];
    - a value of unknown type ([unknown], message data) is a [jsval];
    - a function that may [throw] returns an [exc];
    - the built-ins of the browser and the bundled [pako] (base64, gzip,
      UTF-8, URL parsing) are a [Platform] the definitions are parameterised
      by; what the page answers during one launch (the referrer policy, the
      popup, a fresh UUID) is a [host];
    - an asynchronous function is cut at its [await]: what runs up to the
      suspension, and what runs when the awaited promise settles. *)

From Stdlib Require Import String Ascii List ZArith Bool Lia.
From Stdlib Require Import Strings.Byte.
From Stdlib Require Import QArith.
Import ListNotations.
Local Open Scope string_scope.
Local Open Scope Z_scope.
Local Open Scope list_scope.

Set Warnings "-register-all".

(* ================================================================= *)
(** ** JavaScript values *)

Inductive jsval : Type :=
| JUndefined
| JNull
| JBool (b : bool)
| JNum (n : Z)
| JStr (s : string)
| JArr (items : list jsval)
| JObj (fields : list (string * jsval)).

(** [typeof v]. *)
Definition typeof (v : jsval) : string :=
  match v with
  | JUndefined => "undefined"
  | JNull => "object"
  | JBool _ => "boolean"
  | JNum _ => "number"
  | JStr _ => "string"
  | JArr _ => "object"
  | JObj _ => "object"
  end.

(** Truthiness: what [!v] negates. *)
Definition truthy (v : jsval) : bool :=
  match v with
  | JUndefined | JNull => false
  | JBool b => b
  | JNum n => negb (n =? 0)
  | JStr s => negb (s =? "")%string
  | JArr _ | JObj _ => true
  end.

(** [Array.isArray(v)]. *)
Definition isArray (v : jsval) : bool :=
  match v with JArr _ => true | _ => false end.

(** Own-property lookup in an object literal, first binding wins. *)
Fixpoint lookup (k : string) (fields : list (string * jsval)) : option jsval :=
  match fields with
  | [] => None
  | (k', v) :: rest => if (k' =? k)%string then Some v else lookup k rest
  end.

(** [v.k] for a [v] that is neither [null] nor [undefined]: a missing
    property reads as [undefined]. *)
Definition prop (v : jsval) (k : string) : jsval :=
  match v with
  | JObj fields => match lookup k fields with Some x => x | None => JUndefined end
  | _ => JUndefined
  end.

(** The guard [!v || typeof v !== 'object'] negated: a non-null object. *)
Definition is_object (v : jsval) : bool :=
  truthy v && (typeof v =? "object")%string.

(** [.length] of a string, as an integer. *)
Definition strlen (s : string) : Z := Z.of_nat (String.length s).

(* ================================================================= *)
(** ** Numbers a length is compared with *)

(** What a ceiling can be configured to: a number, or [undefined] where the
    key is there without a value. A finite double is the rational it
    denotes; the sources only compare a length with it, and a value of
    another type compares as the number it converts to. *)
Inductive ceiling : Type :=
| Num (q : Q)
| Infinity
| MinusInfinity
| NaN
| Undefined.

(** [n > c], for a length [n]: [undefined] is read as [NaN], and nothing
    compares with [NaN]. *)
Definition js_gt (n : Z) (c : ceiling) : bool :=
  match c with
  | Num q => negb (Qle_bool (inject_Z n) q)
  | MinusInfinity => true
  | Infinity | NaN | Undefined => false
  end.

(** [n >= c] *)
Definition js_ge (n : Z) (c : ceiling) : bool :=
  match c with
  | Num q => Qle_bool q (inject_Z n)
  | MinusInfinity => true
  | Infinity | NaN | Undefined => false
  end.

(* ================================================================= *)
(** ** Exceptions *)

(** A thrown value: an [Error] with its message, or some other value, kept
    by what [String(v)] makes of it. *)
Inductive thrown : Type :=
| ErrorObj (message : string)
| Raw (description : string).

Inductive exc (A : Type) : Type :=
| Ok (a : A)
| Throw (e : thrown).
Arguments Ok {A} a.
Arguments Throw {A} e.

Definition bind {A B} (m : exc A) (k : A -> exc B) : exc B :=
  match m with
  | Ok a => k a
  | Throw e => Throw e
  end.

Notation "'let*' x ':=' m 'in' k" := (bind m (fun x => k))
  (at level 10, x name, m at level 100, k at level 200).

Definition throws {A} (m : exc A) : Prop := exists e, m = Throw e.

Definition throw_msg {A} (msg : string) : exc A := Throw (ErrorObj msg).

(* ================================================================= *)
(** ** String helpers of the language *)

(** White space and line terminators that [String.prototype.trim] strips,
    among the code units below 256: TAB, LF, VT, FF, CR, SP, NBSP. *)
Definition is_js_space (c : ascii) : bool :=
  let n := Z.of_N (N_of_ascii c) in
  ((9 <=? n) && (n <=? 13)) || (n =? 32) || (n =? 160).

Fixpoint trimStart (s : string) : string :=
  match s with
  | EmptyString => EmptyString
  | String c r => if is_js_space c then trimStart r else s
  end.

(** Remove the longest suffix whose characters all satisfy [p]. *)
Fixpoint dropWhileEnd (p : ascii -> bool) (s : string) : string :=
  match s with
  | EmptyString => EmptyString
  | String c r =>
      match dropWhileEnd p r with
      | EmptyString => if p c then EmptyString else String c EmptyString
      | r' => String c r'
      end
  end.

Definition trimEnd (s : string) : string := dropWhileEnd is_js_space s.

Definition trim (s : string) : string := trimEnd (trimStart s).

(** [out.includes(s)] on an array of strings. *)
Fixpoint includes (out : list string) (s : string) : bool :=
  match out with
  | [] => false
  | x :: r => (x =? s)%string || includes r s
  end.

Fixpoint string_forallb (p : ascii -> bool) (s : string) : bool :=
  match s with
  | EmptyString => true
  | String c r => p c && string_forallb p r
  end.

Fixpoint string_map (f : ascii -> ascii) (s : string) : string :=
  match s with
  | EmptyString => EmptyString
  | String c r => String (f c) (string_map f r)
  end.

(** [s.includes(sub)] on strings. *)
Fixpoint contains (sub s : string) : bool :=
  String.prefix sub s ||
  match s with
  | EmptyString => false
  | String _ r => contains sub r
  end.

(** [items.join(sep)]. *)
Definition join (sep : string) (items : list string) : string :=
  String.concat sep items.

(** An object literal: its own properties in insertion order. *)
Definition object : Type := list (string * jsval).

(** [o[k] = v]: overwrite in place, or add at the end. *)
Fixpoint assign (o : object) (k : string) (v : jsval) : object :=
  match o with
  | [] => [(k, v)]
  | (k', v') :: rest =>
      if (k' =? k)%string then (k, v) :: rest else (k', v') :: assign rest k v
  end.

(** [{ ...base, ...extra }] *)
Definition spread (base extra : object) : object :=
  fold_left (fun o kv => assign o (fst kv) (snd kv)) extra base.

(** [JSON.parse(JSON.stringify(v))], what a reader of the JSON text of [v]
    gets: a member whose value is [undefined] is not written, an
    [undefined] element of an array is written [null]. *)
Fixpoint to_json (v : jsval) : jsval :=
  match v with
  | JArr items =>
      JArr (map (fun x => match x with
                          | JUndefined => JNull
                          | _ => to_json x
                          end) items)
  | JObj fields =>
      JObj ((fix members (fs : list (string * jsval)) : list (string * jsval) :=
               match fs with
               | [] => []
               | (k, x) :: rest =>
                   match x with
                   | JUndefined => members rest
                   | _ => (k, to_json x) :: members rest
                   end
               end) fields)
  | _ => v
  end.

(* ================================================================= *)
(** ** The host platform *)

(** What the source reads of a [URL] object. *)
Record URL : Type := {
  href : string;       (* [u.toString()] *)
  origin : string;     (* [u.origin] *)
  protocol : string;   (* [u.protocol], with its colon *)
}.

(** The functions the sources call but do not define: browser and Node
    built-ins and the bundled [pako]. *)
Class Platform : Type := {
  (** [globalThis.atob(b64)]: the binary string, or the exception. *)
  atob : string -> exc string;
  (** [pako.ungzip(data, { to: 'string' })]. *)
  ungzip : list byte -> exc jsval;
  (** [pako.gzip(str)]. *)
  gzip : string -> list byte;
  (** [new TextDecoder().decode(bytes)], [buf.toString('utf8')]. *)
  utf8_decode : list byte -> string;
  (** [Buffer.from(str, 'utf8')]. *)
  utf8_encode : string -> list byte;
  (** [new URL(raw, base)] and [new URL(raw)]; [None] when it throws. *)
  URL_new : string -> option string -> option URL;
}.

(* ================================================================= *)
(** ** src/internal/policy.js *)

Module Policy.

(** Character classes of [UUID_RE]; the [i] flag makes the letters match
    in either case. *)
Definition is_digit (c : ascii) : bool :=
  let n := Z.of_N (N_of_ascii c) in (48 <=? n) && (n <=? 57).

Definition is_hex (c : ascii) : bool :=
  let n := Z.of_N (N_of_ascii c) in
  is_digit c || ((97 <=? n) && (n <=? 102)) || ((65 <=? n) && (n <=? 70)).

Definition is_dash (c : ascii) : bool := (c =? "-")%char.

Definition is_1_5 (c : ascii) : bool :=
  let n := Z.of_N (N_of_ascii c) in (49 <=? n) && (n <=? 53).

Definition is_89ab (c : ascii) : bool :=
  (c =? "8")%char || (c =? "9")%char || (c =? "a")%char || (c =? "b")%char
  || (c =? "A")%char || (c =? "B")%char.

(** [eat p n s] consumes exactly [n] characters of class [p]: the regular
    expression [p{n}] anchored at the start of [s]. *)
Fixpoint eat (p : ascii -> bool) (n : nat) (s : string) : option string :=
  match n with
  | O => Some s
  | S n' =>
      match s with
      | String c r => if p c then eat p n' r else None
      | EmptyString => None
      end
  end.

Definition andThen (m : option string) (k : string -> option string) : option string :=
  match m with Some s => k s | None => None end.

Notation "m >>> k" := (andThen m k) (at level 50, left associativity).

(** [/^[0-9a-f]{8}-[0-9a-f]{4}-[1-5][0-9a-f]{3}-[89ab][0-9a-f]{3}-[0-9a-f]{12}$/i] *)
Definition UUID_RE_test (v : string) : bool :=
  match
    Some v >>> eat is_hex 8 >>> eat is_dash 1
           >>> eat is_hex 4 >>> eat is_dash 1
           >>> eat is_1_5 1 >>> eat is_hex 3 >>> eat is_dash 1
           >>> eat is_89ab 1 >>> eat is_hex 3 >>> eat is_dash 1
           >>> eat is_hex 12
  with
  | Some EmptyString => true
  | _ => false
  end.

Definition isUuid (v : string) : bool := UUID_RE_test v.

Record limits : Type := {
  maxSessionLen : ceiling;
  maxIncludeItems : ceiling;
  maxIncludeItemLen : ceiling;
}.

Definition DEFAULT_LIMITS : limits :=
  {| maxSessionLen := Num 64; maxIncludeItems := Num 8;
     maxIncludeItemLen := Num 32 |}.

(** A [Partial<typeof DEFAULT_LIMITS>]: the keys a caller's object has,
    each with a number or with [undefined]; [None] is a key that is not
    there. *)
Record partial_limits : Type := {
  set_maxSessionLen : option ceiling;
  set_maxIncludeItems : option ceiling;
  set_maxIncludeItemLen : option ceiling;
}.

Definition override (d : ceiling) (o : option ceiling) : ceiling :=
  match o with Some x => x | None => d end.

(** [{ ...DEFAULT_LIMITS, ...(limits ?? {}) }] *)
Definition merge (l : option partial_limits) : limits :=
  match l with
  | None => DEFAULT_LIMITS
  | Some p =>
      {| maxSessionLen := override (maxSessionLen DEFAULT_LIMITS) (set_maxSessionLen p);
         maxIncludeItems := override (maxIncludeItems DEFAULT_LIMITS) (set_maxIncludeItems p);
         maxIncludeItemLen := override (maxIncludeItemLen DEFAULT_LIMITS) (set_maxIncludeItemLen p) |}
  end.

(** [normalizeSession(v, limits)]; [randomUuid] is the outcome of the
    call [randomUuid()] the source makes on each fallback path. *)
Definition normalizeSession (randomUuid : exc string) (v : jsval)
    (l : option partial_limits) : exc string :=
  let lim := merge l in
  match v with
  | JStr str =>
      let s := trim str in
      if (strlen s =? 0) || js_gt (strlen s) (maxSessionLen lim) then randomUuid
      else if negb (isUuid s) then randomUuid
      else Ok s
  | _ => randomUuid
  end.

(** The [for (const item of v)] loop of [sanitizeInclude], [out] being the
    array built so far. *)
Fixpoint sanitize_loop (lim : limits) (items : list jsval) (out : list string)
    : list string :=
  match items with
  | [] => out
  | item :: rest =>
      if js_ge (Z.of_nat (length out)) (maxIncludeItems lim) then out
      else
        match item with
        | JStr str =>
            let s := trim str in
            if (strlen s =? 0) || js_gt (strlen s) (maxIncludeItemLen lim)
            then sanitize_loop lim rest out
            else if negb (includes out s)
                 then sanitize_loop lim rest (out ++ [s])
                 else sanitize_loop lim rest out
        | _ => sanitize_loop lim rest out
        end
  end.

(** [sanitizeInclude(v, limits)]; [None] is [undefined]. *)
Definition sanitizeInclude (v : jsval) (l : option partial_limits)
    : option (list string) :=
  let lim := merge l in
  match v with
  | JArr items =>
      let out := sanitize_loop lim items [] in
      if 0 <? Z.of_nat (length out) then Some out else None
  | _ => None
  end.

(** The options of [resolveBackendVerifyUrl]. [allowedOrigins] is kept as
    a value since the source tests it with [Array.isArray] and its entries
    with [typeof]. *)
Record url_policy : Type := {
  pageHref : string;
  pageOrigin : string;
  allowCrossOrigin : bool;
  allowedOrigins : jsval;
}.

Section ResolveBackendVerifyUrl.
Context {P : Platform}.

(** The callback of [allowedOrigins.some(...)]. *)
Definition origin_allowed (u : URL) (o : jsval) : bool :=
  match o with
  | JStr str =>
      match URL_new str None with
      | Some a => (origin a =? origin u)%string
      | None => false
      end
  | _ => false
  end.

(** [resolveBackendVerifyUrl(raw, opts)]; [opts = None] stands for an
    argument that is missing or not an object. *)
Definition resolveBackendVerifyUrl (raw : string) (opts : option url_policy)
    : exc string :=
  match opts with
  | None => throw_msg "missing url policy options"
  | Some o =>
      if strlen (pageHref o) =? 0 then throw_msg "pageHref required"
      else if strlen (pageOrigin o) =? 0 then throw_msg "pageOrigin required"
      else
        match URL_new raw (Some (pageHref o)) with
        | None => throw_msg "backendVerifyUrl must be a valid URL or relative path"
        | Some u =>
            let sameOrigin := (origin u =? pageOrigin o)%string in
            let* _ :=
              (if negb sameOrigin then
                 if negb (allowCrossOrigin o) then
                   throw_msg "backendVerifyUrl must be same-origin by default; set backendVerifyAllowCrossOrigin=true and backendVerifyAllowedOrigins=[...] to enable cross-origin"
                 else
                   let allow :=
                     match allowedOrigins o with
                     | JArr entries => existsb (origin_allowed u) entries
                     | _ => false
                     end in
                   if negb allow
                   then throw_msg "backendVerifyUrl origin not in backendVerifyAllowedOrigins"
                   else Ok tt
               else Ok tt) in
            if negb sameOrigin && negb (protocol u =? "https:")%string
            then throw_msg "backendVerifyUrl must be https"
            else if sameOrigin && negb (protocol u =? "https:")%string then
              (* only now is [new URL(pageHref)] evaluated *)
              match URL_new (pageHref o) None with
              | None => Throw (ErrorObj "Invalid URL")
              | Some page =>
                  if negb (protocol u =? protocol page)%string
                  then throw_msg "backendVerifyUrl protocol mismatch"
                  else Ok (href u)
              end
            else Ok (href u)
        end
  end.

End ResolveBackendVerifyUrl.

End Policy.

(* ================================================================= *)
(** ** src/internal/token.js *)

Module Token.

Record limits : Type := {
  maxTokenB64urlChars : ceiling;
  maxGzipBytes : ceiling;
  maxInflatedChars : ceiling;
}.

Definition DEFAULT_LIMITS : limits :=
  {| maxTokenB64urlChars := Num 64000;
     maxGzipBytes := Num 64000;
     maxInflatedChars := Num 512000 |}.

Record partial_limits : Type := {
  set_maxTokenB64urlChars : option ceiling;
  set_maxGzipBytes : option ceiling;
  set_maxInflatedChars : option ceiling;
}.

(** [{ ...DEFAULT_LIMITS, ...(limits ?? {}) }] *)
Definition merge (l : option partial_limits) : limits :=
  match l with
  | None => DEFAULT_LIMITS
  | Some p =>
      {| maxTokenB64urlChars :=
           Policy.override (maxTokenB64urlChars DEFAULT_LIMITS) (set_maxTokenB64urlChars p);
         maxGzipBytes :=
           Policy.override (maxGzipBytes DEFAULT_LIMITS) (set_maxGzipBytes p);
         maxInflatedChars :=
           Policy.override (maxInflatedChars DEFAULT_LIMITS) (set_maxInflatedChars p) |}
  end.

Definition toErrorMessage (err : thrown) : string :=
  match err with
  | ErrorObj message => message
  | Raw description => description
  end.

(** [s.replace(/-/g, '+').replace(/_/g, '/')] *)
Definition replace_char (from to : ascii) (s : string) : string :=
  string_map (fun c => if (c =? from)%char then to else c) s.

Definition to_base64_alphabet (s : string) : string :=
  replace_char "_" "/" (replace_char "-" "+" s).

(** The value of one hexadecimal digit, as [parseInt(_, 16)] reads it. *)
Definition hex_value (c : ascii) : Z :=
  let n := Z.of_N (N_of_ascii c) in
  if (48 <=? n) && (n <=? 57) then n - 48
  else if (97 <=? n) && (n <=? 102) then n - 87
  else if (65 <=? n) && (n <=? 70) then n - 55
  else 0.

(** Storing a number into a [Uint8Array] keeps its low eight bits. *)
Definition byte_of_Z (z : Z) : byte :=
  byte_of_ascii (ascii_of_N (Z.to_N (z mod 256))).

Definition Z_of_byte (b : byte) : Z := Z.of_N (Byte.to_N b).

(** The loop [bytes[i / 2] = Number.parseInt(hex.slice(i, i + 2), 16)]. *)
Fixpoint hex_pairs (hex : string) : list byte :=
  match hex with
  | String a (String b rest) =>
      byte_of_Z (16 * hex_value a + hex_value b) :: hex_pairs rest
  | _ => []
  end.

Section Codec.
Context {P : Platform}.

(** [base64ToBytes(b64)], on the [atob] path. *)
Definition base64ToBytes (b64 : string) : exc (list byte) :=
  let* bin := atob b64 in
  Ok (list_byte_of_string bin).

(** [b64urlToBytes(b64url, limits)] *)
Definition b64urlToBytes (b64url : jsval) (l : option partial_limits)
    : exc (list byte) :=
  let lim := merge l in
  match b64url with
  | JStr s =>
      if strlen s =? 0 then throw_msg "token must be non-empty"
      else if js_gt (strlen s) (maxTokenB64urlChars lim) then throw_msg "token too large"
      else
        let b64 := to_base64_alphabet s in
        let pad := strlen b64 mod 4 in
        let* b64 :=
          (if pad =? 2 then Ok (b64 ++ "==")%string
           else if pad =? 3 then Ok (b64 ++ "=")%string
           else if negb (pad =? 0) then throw_msg "invalid base64url length"
           else Ok b64) in
        let* out :=
          match base64ToBytes b64 with
          | Ok out => Ok out
          | Throw err => throw_msg ("invalid base64url: " ++ toErrorMessage err)%string
          end in
        if js_gt (Z.of_nat (length out)) (maxGzipBytes lim)
        then throw_msg "compressed token too large"
        else Ok out
  | _ => throw_msg "token must be a string"
  end.

(** [hexToUtf8String(hex, limits)] *)
Definition hexToUtf8String (hex : jsval) (l : option partial_limits)
    : exc string :=
  let lim := merge l in
  match hex with
  | JStr h =>
      if strlen h =? 0 then throw_msg "hex must be non-empty"
      else if negb (strlen h mod 2 =? 0) then throw_msg "invalid hex length"
      else if negb (string_forallb Policy.is_hex h) then throw_msg "invalid hex characters"
      else if js_gt (strlen h) (maxInflatedChars lim) then throw_msg "inflated token too large"
      else Ok (utf8_decode (hex_pairs h))
  | _ => throw_msg "hex must be a string"
  end.

End Codec.

End Token.

(* ================================================================= *)
(** ** src/agegate.js *)

Module AgeGate.

Definition CHILD_ORIGIN : string := "https://agecheck.me".
Definition VERIFY_PAGE : string := "verify.html".

(** A browsing context, as far as [e.source !== popup] can tell. *)
Definition window : Type := nat.

(** [AgeGateConfig] after the destructuring of [launchAgeGate], defaults
    applied. A callback is kept as whether one was supplied and, in
    [onSuccess_throws] and [onFailure_throws], as what it throws when it is
    called, if it throws: that is all [safeCallback] sees of it; a
    callback supplied is a function, as the type of the configuration has
    it. Numbers are integers: [NaN] and the infinities, which the timeout test rejects,
    are not represented. *)
Record config : Type := {
  onSuccess : bool;
  onFailure : bool;
  onSuccess_throws : option thrown;
  onFailure_throws : option thrown;
  includeRaw : jsval;
  session : jsval;
  backendVerifyUrl : jsval;
  backendVerifyAllowCrossOrigin : bool;
  backendVerifyAllowedOrigins : jsval;
  backendExtraHeaders : object;
  timeoutMs : jsval;
  requireNoReferrer : bool;
  allowFullPageFallback : bool;
}.

(** [launchAgeGate()] with no argument. *)
Definition default_config : config :=
  {| onSuccess := false; onFailure := false;
     onSuccess_throws := None; onFailure_throws := None;
     includeRaw := JUndefined; session := JUndefined;
     backendVerifyUrl := JUndefined;
     backendVerifyAllowCrossOrigin := false;
     backendVerifyAllowedOrigins := JArr [];
     backendExtraHeaders := [];
     timeoutMs := JNull;
     requireNoReferrer := false;
     allowFullPageFallback := true |}.

(** What the page and the browser answer during one [launchAgeGate] call. *)
Record host : Type := {
  noReferrerMeta : bool;          (* [isNoReferrerMetaPresent()] *)
  randomUuid : exc string;        (* [randomUuid()] *)
  window_open : option window;    (* [window.open(...)]; [None] for [null] or a throw *)
  location_href : string;         (* [window.location.href] *)
  location_origin : string;       (* [window.location.origin] *)
}.

(** The response of [fetch], as far as [verifyWithBackend] reads it. *)
Record response : Type := {
  ok : bool;                       (* [res.ok] *)
  status : string;                 (* [res.status], in decimal *)
  text : exc string;               (* [await res.text()] *)
  content_type : option string;    (* [res.headers.get('content-type')] *)
  json : exc jsval;                (* [await res.json()] *)
}.

Inductive fetch_outcome : Type :=
| Rejected (err : thrown)
| Responded (res : response).

(** The query of the child-context URL
    [CHILD_ORIGIN/VERIFY_PAGE?...], before [qs.toString()]. *)
Definition verify_url : Type := list (string * string).

(** Everything the controller does to the outside world. The [body] of a
    [Fetch] holds the members of the JSON text that is sent. *)
Inductive effect : Type :=
| ConsoleWarn (msg : string)
| ConsoleError (msg : string) (err : thrown)
| OnFailure (err : thrown)
| OnSuccess (jwt : string) (payload : object) (backendResult : jsval)
| WindowOpen (url : verify_url)
| LocationAssign (url : verify_url)
| AddListener
| RemoveListener
| SetInterval (ms : Z)
| ClearInterval
| SetTimeout (ms : Z)
| ClearTimeout
| Abort
| PopupClose
| Fetch (url : string) (headers : object) (body : object).

Definition is_callback (x : effect) : bool :=
  match x with
  | OnFailure _ | OnSuccess _ _ _ => true
  | _ => false
  end.

(** How many callback invocations a trace holds. *)
Definition n_callbacks (t : list effect) : nat := length (filter is_callback t).

(** [asError(err, context)] *)
Definition asError (err : thrown) (context : string) : thrown :=
  match err with
  | ErrorObj _ => err
  | Raw msg =>
      ErrorObj (if negb (context =? "")%string
                then (context ++ ": " ++ msg)%string else msg)
  end.

(** [safeCallback(onFailure, [err])] and [safeCallback(onSuccess, [...])]:
    [cb?.(...args)] calls nothing when no callback was supplied, and what
    the callback throws is caught and logged. *)
Definition safeCallback (supplied : bool) (raised : option thrown)
    (call : effect) : list effect :=
  if supplied then
    call :: match raised with
            | Some err => [ConsoleError "[agegate] callback error" err]
            | None => []
            end
  else [].

Definition include_value (include : option (list string)) : jsval :=
  match include with
  | Some l => JArr (map JStr l)
  | None => JUndefined
  end.

(** [makeVerifyUrl(session, include)] *)
Definition makeVerifyUrl (session : string) (include : option (list string))
    : verify_url :=
  let qs := [("session", session); ("autostart", "1")] in
  match Policy.sanitizeInclude (include_value include) None with
  | Some inc =>
      if 0 <? Z.of_nat (length inc)
      then qs ++ [("include", join "," inc)]
      else qs
  | None => qs
  end.

(** The payload object literal of the handler,
    [{ include, agegateway_session, authenticationResponse }]. *)
Definition make_payload (include : option (list string))
    (agegateway_session : string) (authenticationResponse : jsval) : object :=
  [("include", include_value include);
   ("agegateway_session", JStr agegateway_session);
   ("authenticationResponse", authenticationResponse)].

(** The members of the JSON text [JSON.stringify(o)] of an object: those
    whose value is not [undefined], each value as JSON writes it. *)
Definition json_fields (o : object) : object :=
  match to_json (JObj o) with
  | JObj members => members
  | _ => []
  end.

(** The constants a running handshake closes over. *)
Record closure : Type := {
  cfg : config;
  env : host;
  agegateway_session : string;
  include : option (list string);
  popup : window;
  timeoutId : bool;     (* whether [setTimeout] gave a handle *)
}.

(** The variables of a running handshake, and what the browser holds for
    it: the registered listener, the two timers, the abort signal, the
    popup, and the handler suspended at [await verifyWithBackend(...)]. *)
Record state : Type := {
  done : bool;
  processing : bool;
  listening : bool;
  poll_armed : bool;
  timeout_armed : bool;
  aborted : bool;
  popup_closed : bool;
  pending : option (string * object);
}.

Definition set_done (st : state) : state :=
  {| done := true; processing := processing st; listening := listening st;
     poll_armed := poll_armed st; timeout_armed := timeout_armed st;
     aborted := aborted st; popup_closed := popup_closed st;
     pending := pending st |}.

Definition set_processing (b : bool) (st : state) : state :=
  {| done := done st; processing := b; listening := listening st;
     poll_armed := poll_armed st; timeout_armed := timeout_armed st;
     aborted := aborted st; popup_closed := popup_closed st;
     pending := pending st |}.

Definition set_pending (p : option (string * object)) (st : state) : state :=
  {| done := done st; processing := processing st; listening := listening st;
     poll_armed := poll_armed st; timeout_armed := timeout_armed st;
     aborted := aborted st; popup_closed := popup_closed st;
     pending := p |}.

Definition set_popup_closed (st : state) : state :=
  {| done := done st; processing := processing st; listening := listening st;
     poll_armed := poll_armed st; timeout_armed := timeout_armed st;
     aborted := aborted st; popup_closed := true;
     pending := pending st |}.

Definition timer_fired (st : state) : state :=
  {| done := done st; processing := processing st; listening := listening st;
     poll_armed := poll_armed st; timeout_armed := false;
     aborted := aborted st; popup_closed := popup_closed st;
     pending := pending st |}.

(** [ac.abort()] *)
Definition abort (st : state) : state * list effect :=
  ({| done := done st; processing := processing st; listening := listening st;
      poll_armed := poll_armed st; timeout_armed := timeout_armed st;
      aborted := true; popup_closed := popup_closed st;
      pending := pending st |}, [Abort]).

(** [cleanup()]. [pollId] is set by the time anything can call it. *)
Definition cleanup (cl : closure) (st : state) : state * list effect :=
  ({| done := done st; processing := processing st; listening := false;
      poll_armed := false; timeout_armed := false;
      aborted := aborted st; popup_closed := popup_closed st;
      pending := pending st |},
   [RemoveListener; ClearInterval] ++ (if timeoutId cl then [ClearTimeout] else [])).

(** [popup?.close()] *)
Definition close_popup (st : state) : state * list effect :=
  (set_popup_closed st, [PopupClose]).

(** Run [g] after [f], appending what they did. *)
Definition andthen (r : state * list effect)
    (g : state -> state * list effect) : state * list effect :=
  let (st1, e1) := r in
  let (st2, e2) := g st1 in
  (st2, e1 ++ e2).

(** The common body of [finishFailure] and [finishSuccess]. *)
Definition finish (cl : closure) (st : state) (callback : list effect)
    : state * list effect :=
  if done st then (st, [])
  else
    andthen (andthen (andthen (abort (set_done st)) (cleanup cl)) close_popup)
      (fun st' => (st', callback)).

Definition finishFailure (cl : closure) (st : state) (err : thrown)
    : state * list effect :=
  finish cl st
    (safeCallback (onFailure (cfg cl)) (onFailure_throws (cfg cl))
       (OnFailure (asError err "agegate failure"))).

Definition finishSuccess (cl : closure) (st : state) (jwt : string)
    (payload : object) (backendResult : jsval) : state * list effect :=
  finish cl st
    (safeCallback (onSuccess (cfg cl)) (onSuccess_throws (cfg cl))
       (OnSuccess jwt payload backendResult)).

(** A [message] event. *)
Record message_event : Type := {
  ev_origin : string;
  ev_source : option window;
  ev_data : jsval;
}.

(** [a !== b] negated, for [b] a string. *)
Definition strict_eq_string (a : jsval) (b : string) : bool :=
  match a with
  | JStr s => (s =? b)%string
  | _ => false
  end.

Definition source_is (src : option window) (w : window) : bool :=
  match src with
  | Some x => Nat.eqb x w
  | None => false
  end.

Definition length_of (v : jsval) : Z :=
  match v with
  | JStr s => strlen s
  | _ => 0
  end.

Section Controller.
Context {P : Platform}.

(** The part of [verifyWithBackend] before [await fetch(...)]: the
    resolved URL and the request, its body
    [JSON.stringify({ jwt, ...payload })], or the policy error. *)
Definition verify_request (cl : closure) (jwt : string) (payload : object)
    (url : string) : exc effect :=
  let allowedOrigins :=
    if isArray (backendVerifyAllowedOrigins (cfg cl))
    then backendVerifyAllowedOrigins (cfg cl)
    else JArr [] in
  let* resolved :=
    Policy.resolveBackendVerifyUrl url
      (Some {| Policy.pageHref := location_href (env cl);
               Policy.pageOrigin := location_origin (env cl);
               Policy.allowCrossOrigin := backendVerifyAllowCrossOrigin (cfg cl);
               Policy.allowedOrigins := allowedOrigins |}) in
  Ok (Fetch resolved
        (spread [("content-type", JStr "application/json")]
                (backendExtraHeaders (cfg cl)))
        (json_fields (spread [("jwt", JStr jwt)] payload))).

(** The part of [verifyWithBackend] after [await fetch(...)]; the answers
    to [await res.text()] and [await res.json()] come with the response. *)
Definition verify_response (o : fetch_outcome) : exc jsval :=
  match o with
  | Rejected err => Throw err
  | Responded res =>
      if negb (ok res) then
        let text := match text res with Ok t => t | Throw _ => "" end in
        throw_msg ("backend verification failed: " ++ status res
                   ++ (if negb (text =? "")%string then " " ++ text else ""))%string
      else
        let ct := match content_type res with Some c => c | None => "" end in
        if negb (contains "application/json" ct) then Ok JNull
        else match json res with
             | Ok v => Ok v
             | Throw _ => Ok JNull
             end
  end.

(** The decoding steps at the head of the handler's [try] block. *)
Definition decode_token (token : jsval) : exc string :=
  let* gz := Token.b64urlToBytes token None in
  let* hex := ungzip gz in
  if negb (typeof hex =? "string")%string then throw_msg "invalid token payload"
  else
    let* jwt := Token.hexToUtf8String hex None in
    if strlen jwt =? 0 then throw_msg "invalid jwt" else Ok jwt.

(** What a call of the handler comes to: one of the early [return]s, or
    the [try] block, run up to its end or to the [await] of the request. *)
Inductive handled : Type :=
| Ignored
| Processed (st : state) (effs : list effect).

(** The [finally] clause. *)
Definition finally (r : state * list effect) : state * list effect :=
  (set_processing false (fst r), snd r).

(** [handler(e)], up to its end or to its suspension. *)
Definition handler (cl : closure) (st : state) (e : message_event) : handled :=
  if done st || processing st then Ignored
  else if negb (ev_origin e =? CHILD_ORIGIN)%string then Ignored
  else if negb (source_is (ev_source e) (popup cl)) then Ignored
  else if negb (truthy (ev_data e)) || negb (typeof (ev_data e) =? "object")%string
  then Ignored
  else
    let token := prop (ev_data e) "token" in
    let msgSession := prop (ev_data e) "session" in
    let authenticationResponse := prop (ev_data e) "authenticationResponse" in
    if negb (strict_eq_string msgSession (agegateway_session cl)) then Ignored
    else if negb (typeof token =? "string")%string || (length_of token =? 0)
    then Ignored
    else if negb (truthy authenticationResponse)
            || negb (typeof authenticationResponse =? "object")%string
    then Ignored
    else
      let st1 := set_processing true st in
      match decode_token token with
      | Throw err =>
          let (st2, effs) := finally (finishFailure cl st1 err) in
          Processed st2 effs
      | Ok jwt =>
          let payload :=
            make_payload (include cl) (agegateway_session cl)
              authenticationResponse in
          match backendVerifyUrl (cfg cl) with
          | JStr url =>
              if 0 <? strlen url then
                match verify_request cl jwt payload url with
                | Throw err =>
                    let (st2, effs) := finally (finishFailure cl st1 err) in
                    Processed st2 effs
                | Ok request =>
                    Processed (set_pending (Some (jwt, payload)) st1) [request]
                end
              else
                let (st2, effs) := finally (finishSuccess cl st1 jwt payload JNull) in
                Processed st2 effs
          | _ =>
              let (st2, effs) := finally (finishSuccess cl st1 jwt payload JNull) in
              Processed st2 effs
          end
      end.

(** The handler resumed when the request settles. *)
Definition resume (cl : closure) (st : state) (o : fetch_outcome)
    : state * list effect :=
  match pending st with
  | None => (st, [])
  | Some (jwt, payload) =>
      let st1 := set_pending None st in
      match verify_response o with
      | Ok backendResult => finally (finishSuccess cl st1 jwt payload backendResult)
      | Throw err => finally (finishFailure cl st1 err)
      end
  end.

(** The callback of [setInterval]. *)
Definition poll (cl : closure) (st : state) : state * list effect :=
  if popup_closed st then andthen (abort st) (cleanup cl) else (st, []).

(** The callback of [setTimeout]. *)
Definition timed_out (cl : closure) (st : state) : state * list effect :=
  finishFailure cl (timer_fired st)
    (ErrorObj "Timed out waiting for age verification").

(** What can happen to a running handshake. *)
Inductive event : Type :=
| Message (e : message_event)
| PollTick
| TimeoutFire
| BackendSettled (o : fetch_outcome)
| PopupClosedByUser.

(** The code an event runs, whether or not the browser would still
    deliver it. *)
Definition fire (cl : closure) (st : state) (ev : event) : state * list effect :=
  match ev with
  | Message e =>
      match handler cl st e with
      | Ignored => (st, [])
      | Processed st' effs => (st', effs)
      end
  | PollTick => poll cl st
  | TimeoutFire => timed_out cl st
  | BackendSettled o => resume cl st o
  | PopupClosedByUser => (set_popup_closed st, [])
  end.

(** Whether the browser delivers the event: a message needs the listener,
    a tick or a time-out its timer, a settlement a request in flight. *)
Definition enabled (st : state) (ev : event) : bool :=
  match ev with
  | Message _ => listening st
  | PollTick => poll_armed st
  | TimeoutFire => timeout_armed st
  | BackendSettled _ => match pending st with Some _ => true | None => false end
  | PopupClosedByUser => negb (popup_closed st)
  end.

Definition step (cl : closure) (st : state) (ev : event) : state * list effect :=
  if enabled st ev then fire cl st ev else (st, []).

Fixpoint run (f : closure -> state -> event -> state * list effect)
    (cl : closure) (st : state) (evs : list event) : state * list effect :=
  match evs with
  | [] => (st, [])
  | ev :: rest => andthen (f cl st ev) (fun st' => run f cl st' rest)
  end.

(** How a call of [launchAgeGate] ends. *)
Inductive launched : Type :=
| Stopped (effs : list effect)
| Crashed (effs : list effect) (err : thrown)
| Running (cl : closure) (st : state) (effs : list effect).

Definition timeout_valid (t : jsval) : bool :=
  match t with
  | JNum n => 0 <? n
  | _ => false
  end.

(** [launchAgeGate(config)]. The size and place of the popup, computed
    from the screen, are left out of [WindowOpen]; the warning is kept
    without the quotation marks of the source. *)
Definition launchAgeGate (h : host) (c : config) : launched :=
  if negb (noReferrerMeta h) && requireNoReferrer c then
    Stopped (safeCallback (onFailure c) (onFailure_throws c)
               (OnFailure (ErrorObj "Missing required meta referrer=no-referrer")))
  else
    let warned :=
      if negb (noReferrerMeta h)
      then [ConsoleWarn "[agegate] Missing or incorrect: <meta name=referrer content=no-referrer>"]
      else [] in
    match Policy.normalizeSession (randomUuid h) (session c) None with
    | Throw err => Crashed warned err
    | Ok agegateway_session =>
        let include := Policy.sanitizeInclude (includeRaw c) None in
        let url := makeVerifyUrl agegateway_session include in
        match window_open h with
        | None =>
            if allowFullPageFallback c
            then Stopped (warned ++ [WindowOpen url; LocationAssign url])
            else Stopped (warned ++ [WindowOpen url]
                          ++ safeCallback (onFailure c) (onFailure_throws c)
                               (OnFailure (ErrorObj "Popup blocked and fallback disabled")))
        | Some popup =>
            let timed := timeout_valid (timeoutMs c) in
            Running
              {| cfg := c; env := h; agegateway_session := agegateway_session;
                 include := include; popup := popup; timeoutId := timed |}
              {| done := false; processing := false; listening := true;
                 poll_armed := true; timeout_armed := timed;
                 aborted := false; popup_closed := false; pending := None |}
              (warned ++ [WindowOpen url; AddListener; SetInterval 1000]
               ++ match timeoutMs c with
                  | JNum ms => if timed then [SetTimeout ms] else []
                  | _ => []
                  end)
        end
    end.

(** One whole execution: the launch, then the events the browser delivers.
    The final state is there when the handshake got running. *)
Definition execute (h : host) (c : config) (evs : list event)
    : option state * list effect :=
  match launchAgeGate h c with
  | Stopped effs => (None, effs)
  | Crashed effs _ => (None, effs)
  | Running cl st effs =>
      let (st', t) := run step cl st evs in
      (Some st', effs ++ t)
  end.

End Controller.

End AgeGate.

(* ================================================================= *)
(** ** Base64 (RFC 4648), as [Buffer] writes it and [atob] reads it *)

Module Base64.

Import Token.

(** The character of a six-bit value. *)
Definition char_of_sextet (n : Z) : ascii :=
  ascii_of_N (Z.to_N
    (if n <? 26 then 65 + n
     else if n <? 52 then 71 + n
     else if n <? 62 then n - 4
     else if n =? 62 then 43
     else 47)).

(** The six-bit value of a character of the alphabet. *)
Definition sextet_of_char (c : ascii) : option Z :=
  let n := Z.of_N (N_of_ascii c) in
  if (65 <=? n) && (n <=? 90) then Some (n - 65)
  else if (97 <=? n) && (n <=? 122) then Some (n - 71)
  else if (48 <=? n) && (n <=? 57) then Some (n + 4)
  else if n =? 43 then Some 62
  else if n =? 47 then Some 63
  else None.

Definition in_alphabet (c : ascii) : bool :=
  match sextet_of_char c with Some _ => true | None => false end.

(** The characters of the encoding, without the padding. *)
Fixpoint encode_body (bs : list byte) : string :=
  match bs with
  | [] => ""
  | [a] =>
      let x := Z_of_byte a in
      String (char_of_sextet (x / 4))
        (String (char_of_sextet ((x mod 4) * 16)) "")
  | [a; b] =>
      let x := Z_of_byte a in
      let y := Z_of_byte b in
      String (char_of_sextet (x / 4))
        (String (char_of_sextet ((x mod 4) * 16 + y / 16))
           (String (char_of_sextet ((y mod 16) * 4)) ""))
  | a :: b :: c :: rest =>
      let x := Z_of_byte a in
      let y := Z_of_byte b in
      let z := Z_of_byte c in
      String (char_of_sextet (x / 4))
        (String (char_of_sextet ((x mod 4) * 16 + y / 16))
           (String (char_of_sextet ((y mod 16) * 4 + z / 64))
              (String (char_of_sextet (z mod 64)) (encode_body rest))))
  end.

Definition padding (bs : list byte) : string :=
  match (length bs mod 3)%nat with
  | 1%nat => "=="
  | 2%nat => "="
  | _ => ""
  end.

(** [Buffer.from(bytes).toString('base64')] *)
Definition encode (bs : list byte) : string :=
  (encode_body bs ++ padding bs)%string.

(** The bytes of a run of six-bit values; the bits left over at the end
    are dropped. *)
Fixpoint decode_sextets (l : list Z) : list byte :=
  match l with
  | a :: b :: c :: d :: rest =>
      byte_of_Z (a * 4 + b / 16)
      :: byte_of_Z ((b mod 16) * 16 + c / 4)
      :: byte_of_Z ((c mod 4) * 64 + d)
      :: decode_sextets rest
  | [a; b; c] =>
      [byte_of_Z (a * 4 + b / 16); byte_of_Z ((b mod 16) * 16 + c / 4)]
  | [a; b] => [byte_of_Z (a * 4 + b / 16)]
  | _ => []
  end.

Definition is_ascii_whitespace (c : ascii) : bool :=
  let n := Z.of_N (N_of_ascii c) in
  (n =? 9) || (n =? 10) || (n =? 12) || (n =? 13) || (n =? 32).

Fixpoint sextets (l : list ascii) : option (list Z) :=
  match l with
  | [] => Some []
  | c :: r =>
      match sextet_of_char c, sextets r with
      | Some n, Some ns => Some (n :: ns)
      | _, _ => None
      end
  end.

(** With a length divisible by four, one or two [=] at the end go. *)
Definition remove_padding (l : list ascii) : list ascii :=
  if (Nat.eqb (length l mod 4) 0)%nat then
    match rev l with
    | c1 :: c2 :: r =>
        if (c1 =? "=")%char
        then if (c2 =? "=")%char then rev r else rev (c2 :: r)
        else l
    | _ => l
    end
  else l.

(** The forgiving-base64 decode of the HTML standard, which [atob] is. *)
Definition decode (data : string) : exc string :=
  let l := filter (fun c => negb (is_ascii_whitespace c)) (list_ascii_of_string data) in
  let l := remove_padding l in
  if (Nat.eqb (length l mod 4) 1)%nat
  then Throw (ErrorObj "The string to be decoded is not correctly encoded.")
  else
    match sextets l with
    | None => Throw (ErrorObj "The string to be decoded is not correctly encoded.")
    | Some ns => Ok (string_of_list_byte (decode_sextets ns))
    end.

End Base64.

(* ================================================================= *)
(** ** tests/token.test.js: the encoding side of the token format *)

Module TokenTest.

Definition hex_digit (n : Z) : ascii :=
  ascii_of_N (Z.to_N (if n <? 10 then 48 + n else 87 + n)).

(** [buf.toString('hex')] *)
Fixpoint hex_of_bytes (bs : list byte) : string :=
  match bs with
  | [] => ""
  | b :: rest =>
      let x := Token.Z_of_byte b in
      String (hex_digit (x / 16)) (String (hex_digit (x mod 16)) (hex_of_bytes rest))
  end.

Section Helpers.
Context {P : Platform}.

(** [bytesToB64url(bytes)] *)
Definition bytesToB64url (bytes : list byte) : string :=
  let b64 := Base64.encode bytes in
  dropWhileEnd (fun c => (c =? "=")%char)
    (Token.replace_char "/" "_" (Token.replace_char "+" "-" b64)).

(** [utf8ToHex(str)] *)
Definition utf8ToHex (str : string) : string :=
  hex_of_bytes (utf8_encode str).

(** The token of a credential: base64url(gzip(hex(jwt))). *)
Definition encode_token (jwt : string) : string :=
  bytesToB64url (gzip (utf8ToHex jwt)).

End Helpers.

End TokenTest.

(* ================================================================= *)
(** ** A platform to run the examples on *)

Module Example.

(** A framing that stands in for gzip: a two-byte magic number, then the
    characters as they are. *)
Definition stored_gzip (s : string) : list byte :=
  x1f :: x8b :: list_byte_of_string s.

Definition stored_ungzip (data : list byte) : exc jsval :=
  match data with
  | x1f :: x8b :: rest => Ok (JStr (string_of_list_byte rest))
  | _ => Throw (Raw "incorrect header check")
  end.

(** Absolute URLs of the shape [scheme://host/path], and paths relative to
    one. *)
Definition parse_absolute (s : string) : option URL :=
  match String.index 0 "://" s with
  | Some i =>
      let scheme := substring 0 i s in
      let rest := substring (i + 3) (String.length s - (i + 3)) s in
      let host :=
        match String.index 0 "/" rest with
        | Some j => substring 0 j rest
        | None => rest
        end in
      let path :=
        match String.index 0 "/" rest with
        | Some j => substring j (String.length rest - j) rest
        | None => "/"
        end in
      if (Nat.eqb (String.length scheme) 0 || Nat.eqb (String.length host) 0)%nat
      then None
      else
        Some {| href := (scheme ++ "://" ++ host ++ path)%string;
                origin := (scheme ++ "://" ++ host)%string;
                protocol := (scheme ++ ":")%string |}
  | None => None
  end.

Definition parse_URL (raw : string) (base : option string) : option URL :=
  match base with
  | None => parse_absolute raw
  | Some b =>
      match parse_absolute b with
      | None => None
      | Some bu =>
          match parse_absolute raw with
          | Some u => Some u
          | None =>
              if String.prefix "/" raw
              then Some {| href := (origin bu ++ raw)%string;
                           origin := origin bu;
                           protocol := protocol bu |}
              else None
          end
      end
  end.

(** Base64 as the standard has it; the stand-in for gzip; UTF-8 on 7-bit
    text, where a character is its own encoding. *)
Definition platform : Platform :=
  {| atob := Base64.decode;
     ungzip := stored_ungzip;
     gzip := stored_gzip;
     utf8_decode := string_of_list_byte;
     utf8_encode := list_byte_of_string;
     URL_new := parse_URL |}.

(** A page with the referrer policy in place, on which the popup opens. *)
Definition page : AgeGate.host :=
  {| AgeGate.noReferrerMeta := true;
     AgeGate.randomUuid := Ok "00000000-0000-4000-8000-000000000000";
     AgeGate.window_open := Some 1%nat;
     AgeGate.location_href := "https://rp.example/path";
     AgeGate.location_origin := "https://rp.example" |}.

(** The same page, with popups blocked. *)
Definition page_blocking : AgeGate.host :=
  {| AgeGate.noReferrerMeta := true;
     AgeGate.randomUuid := Ok "00000000-0000-4000-8000-000000000000";
     AgeGate.window_open := None;
     AgeGate.location_href := "https://rp.example/path";
     AgeGate.location_origin := "https://rp.example" |}.

Definition session_id : string := "550e8400-e29b-41d4-a716-446655440000".

(** Both callbacks and a session, everything else by default. *)
Definition callbacks : AgeGate.config :=
  {| AgeGate.onSuccess := true; AgeGate.onFailure := true;
     AgeGate.onSuccess_throws := None; AgeGate.onFailure_throws := None;
     AgeGate.includeRaw := JUndefined; AgeGate.session := JStr session_id;
     AgeGate.backendVerifyUrl := JUndefined;
     AgeGate.backendVerifyAllowCrossOrigin := false;
     AgeGate.backendVerifyAllowedOrigins := JArr [];
     AgeGate.backendExtraHeaders := [];
     AgeGate.timeoutMs := JNull;
     AgeGate.requireNoReferrer := false;
     AgeGate.allowFullPageFallback := true |}.

(** The same, with a backend to verify with. *)
Definition callbacks_backend : AgeGate.config :=
  {| AgeGate.onSuccess := true; AgeGate.onFailure := true;
     AgeGate.onSuccess_throws := None; AgeGate.onFailure_throws := None;
     AgeGate.includeRaw := JArr [JStr "session"; JStr "loa"];
     AgeGate.session := JStr session_id;
     AgeGate.backendVerifyUrl := JStr "/api/verify";
     AgeGate.backendVerifyAllowCrossOrigin := false;
     AgeGate.backendVerifyAllowedOrigins := JArr [];
     AgeGate.backendExtraHeaders := [];
     AgeGate.timeoutMs := JNum 120000;
     AgeGate.requireNoReferrer := false;
     AgeGate.allowFullPageFallback := true |}.

(** The handshake [launchAgeGate] sets up on [page] with [callbacks]. *)
Definition running : AgeGate.closure :=
  {| AgeGate.cfg := callbacks; AgeGate.env := page;
     AgeGate.agegateway_session := session_id;
     AgeGate.include := None;
     AgeGate.popup := 1%nat;
     AgeGate.timeoutId := false |}.

Definition listening : AgeGate.state :=
  {| AgeGate.done := false; AgeGate.processing := false;
     AgeGate.listening := true; AgeGate.poll_armed := true;
     AgeGate.timeout_armed := false; AgeGate.aborted := false;
     AgeGate.popup_closed := false; AgeGate.pending := None |}.

(** That handshake once it has failed. *)
Definition terminated : AgeGate.state :=
  {| AgeGate.done := true; AgeGate.processing := false;
     AgeGate.listening := false; AgeGate.poll_armed := false;
     AgeGate.timeout_armed := false; AgeGate.aborted := true;
     AgeGate.popup_closed := true; AgeGate.pending := None |}.

(** A message of the popup, for the session of [callbacks]. *)
Definition message (token : string) : AgeGate.message_event :=
  {| AgeGate.ev_origin := AgeGate.CHILD_ORIGIN;
     AgeGate.ev_source := Some 1%nat;
     AgeGate.ev_data :=
       JObj [("token", JStr token); ("session", JStr session_id);
             ("authenticationResponse", JObj [])] |}.

(** A response of the backend: 200, JSON. *)
Definition backend_ok : AgeGate.fetch_outcome :=
  AgeGate.Responded
    {| AgeGate.ok := true; AgeGate.status := "200";
       AgeGate.text := Ok "{}";
       AgeGate.content_type := Some "application/json; charset=utf-8";
       AgeGate.json := Ok (JObj [("valid", JBool true)]) |}.

(** A response of the backend: 403, with a text. *)
Definition backend_denied : AgeGate.fetch_outcome :=
  AgeGate.Responded
    {| AgeGate.ok := false; AgeGate.status := "403";
       AgeGate.text := Ok "denied";
       AgeGate.content_type := Some "text/plain";
       AgeGate.json := Throw (ErrorObj "Unexpected token") |}.

(** An include list as a caller may give it, and limits as a caller may
    configure them: two entries of three characters; one entry and a
    half. *)
Definition include_input : jsval :=
  JArr [JStr "  loa  "; JStr "loa"; JStr ""; JStr "session"; JStr "a";
        JStr "b"; JNum 123].

Definition two_of_three : option Policy.partial_limits :=
  Some {| Policy.set_maxSessionLen := None;
          Policy.set_maxIncludeItems := Some (Num 2);
          Policy.set_maxIncludeItemLen := Some (Num 3) |}.

Definition one_and_a_half : option Policy.partial_limits :=
  Some {| Policy.set_maxSessionLen := None;
          Policy.set_maxIncludeItems := Some (Num (3 # 2));
          Policy.set_maxIncludeItemLen := None |}.

(** A session ceiling of [c]. *)
Definition session_ceiling_at (c : ceiling) : option Policy.partial_limits :=
  Some {| Policy.set_maxSessionLen := Some c;
          Policy.set_maxIncludeItems := None;
          Policy.set_maxIncludeItemLen := None |}.

(** Ceilings for a token: [chars] characters, [bytes] bytes, [inflated]
    characters of hexadecimal text. *)
Definition token_limits (chars bytes inflated : option ceiling)
    : option Token.partial_limits :=
  Some {| Token.set_maxTokenB64urlChars := chars;
          Token.set_maxGzipBytes := bytes;
          Token.set_maxInflatedChars := inflated |}.

(** With a backend to verify with, and no include list. *)
Definition callbacks_backend_plain : AgeGate.config :=
  {| AgeGate.onSuccess := true; AgeGate.onFailure := true;
     AgeGate.onSuccess_throws := None; AgeGate.onFailure_throws := None;
     AgeGate.includeRaw := JUndefined;
     AgeGate.session := JStr session_id;
     AgeGate.backendVerifyUrl := JStr "/api/verify";
     AgeGate.backendVerifyAllowCrossOrigin := false;
     AgeGate.backendVerifyAllowedOrigins := JArr [];
     AgeGate.backendExtraHeaders := [];
     AgeGate.timeoutMs := JNull;
     AgeGate.requireNoReferrer := false;
     AgeGate.allowFullPageFallback := true |}.

(** Both callbacks, each throwing when it is called, a time-out of a
    second and a half. *)
Definition callbacks_throwing : AgeGate.config :=
  {| AgeGate.onSuccess := true; AgeGate.onFailure := true;
     AgeGate.onSuccess_throws := Some (Raw "success handler broke");
     AgeGate.onFailure_throws := Some (ErrorObj "failure handler broke");
     AgeGate.includeRaw := JUndefined;
     AgeGate.session := JStr session_id;
     AgeGate.backendVerifyUrl := JUndefined;
     AgeGate.backendVerifyAllowCrossOrigin := false;
     AgeGate.backendVerifyAllowedOrigins := JArr [];
     AgeGate.backendExtraHeaders := [];
     AgeGate.timeoutMs := JNum 1500;
     AgeGate.requireNoReferrer := false;
     AgeGate.allowFullPageFallback := true |}.

(** The handshake [launchAgeGate] sets up on [page] with
    [callbacks_backend], and its state while the request for the
    credential [a.b.c] is in flight. *)
Definition running_backend : AgeGate.closure :=
  {| AgeGate.cfg := callbacks_backend; AgeGate.env := page;
     AgeGate.agegateway_session := session_id;
     AgeGate.include := Some ["session"; "loa"];
     AgeGate.popup := 1%nat;
     AgeGate.timeoutId := true |}.

Definition in_flight : AgeGate.state :=
  {| AgeGate.done := false; AgeGate.processing := true;
     AgeGate.listening := true; AgeGate.poll_armed := true;
     AgeGate.timeout_armed := true; AgeGate.aborted := false;
     AgeGate.popup_closed := false;
     AgeGate.pending :=
       Some ("a.b.c",
             AgeGate.make_payload (Some ["session"; "loa"]) session_id (JObj [])) |}.

End Example.

(* ================================================================= *)
(** ** The ceilings in force, as the specification words them *)

Module LimitsSpec.

(** The ceiling in force: what the caller's object gives for the key, when
    it has the key, and the default otherwise. *)
Definition in_force (given : option ceiling) (default : Z) : ceiling :=
  match given with
  | Some c => c
  | None => Num (inject_Z default)
  end.

Definition ceiling_of {A : Type} (key : A -> option ceiling) (default : Z)
    (l : option A) : ceiling :=
  match l with
  | Some given => in_force (key given) default
  | None => in_force None default
  end.

(** [n] is more than the ceiling; no length is more than [NaN],
    [undefined] or [Infinity]. *)
Definition above (n : Z) (c : ceiling) : Prop :=
  match c with
  | Num q => (q < inject_Z n)%Q
  | MinusInfinity => True
  | Infinity | NaN | Undefined => False
  end.

(** [n] is the ceiling or more. *)
Definition reached (n : Z) (c : ceiling) : Prop :=
  match c with
  | Num q => (q <= inject_Z n)%Q
  | MinusInfinity => True
  | Infinity | NaN | Undefined => False
  end.

Definition session_ceiling : option Policy.partial_limits -> ceiling :=
  ceiling_of Policy.set_maxSessionLen 64.
Definition items_ceiling : option Policy.partial_limits -> ceiling :=
  ceiling_of Policy.set_maxIncludeItems 8.
Definition item_ceiling : option Policy.partial_limits -> ceiling :=
  ceiling_of Policy.set_maxIncludeItemLen 32.
Definition char_ceiling : option Token.partial_limits -> ceiling :=
  ceiling_of Token.set_maxTokenB64urlChars 64000.
Definition byte_ceiling : option Token.partial_limits -> ceiling :=
  ceiling_of Token.set_maxGzipBytes 64000.
Definition inflated_ceiling : option Token.partial_limits -> ceiling :=
  ceiling_of Token.set_maxInflatedChars 512000.

End LimitsSpec.

(* ================================================================= *)
(** ** The include list, as the specification words it *)

Module IncludeSpec.

(** The entries that are text. *)
Definition strings_of (items : list jsval) : list string :=
  flat_map (fun v => match v with JStr s => [s] | _ => [] end) items.

(** Neither empty nor longer than 32 characters. *)
Definition acceptable (s : string) : bool :=
  negb (strlen s =? 0) && (strlen s <=? 32).

(** Keep the first occurrence of every entry. *)
Fixpoint dedup (l : list string) : list string :=
  match l with
  | [] => []
  | x :: r => x :: filter (fun y => negb (y =? x)%string) (dedup r)
  end.

(** The trimmed text entries that are acceptable, in their order. *)
Definition candidates (items : list jsval) : list string :=
  filter acceptable (map trim (strings_of items)).

(** Trim, drop the empty and the over-long, drop duplicates, stop after
    eight. *)
Definition sanitized (items : list jsval) : list string :=
  firstn 8 (dedup (candidates items)).

(** [r] keeps some entries of [l], in the order of [l]. *)
Inductive subseq : list string -> list string -> Prop :=
| subseq_nil : subseq [] []
| subseq_keep x r l : subseq r l -> subseq (x :: r) (x :: l)
| subseq_skip x r l : subseq r l -> subseq r (x :: l).

End IncludeSpec.

(* ================================================================= *)
(** ** The acceptance of a message, as conditions on the message *)

Module WireSpec.

Import AgeGate.


(** The same, the [token] being moreover not empty. *)
Definition conditions_nonempty (cl : closure) (st : state) (e : message_event)
    : Prop :=
  done st = false /\ processing st = false
  /\ ev_origin e = CHILD_ORIGIN
  /\ ev_source e = Some (popup cl)
  /\ is_object (ev_data e) = true
  /\ (exists t, prop (ev_data e) "token" = JStr t /\ t <> "")
  /\ prop (ev_data e) "session" = JStr (agegateway_session cl)
  /\ is_object (prop (ev_data e) "authenticationResponse") = true.

(** The guards of the handler, one after the other. *)
Definition guards (cl : closure) (st : state) (e : message_event) : bool :=
  negb (done st || processing st)
  && (ev_origin e =? CHILD_ORIGIN)%string
  && source_is (ev_source e) (popup cl)
  && is_object (ev_data e)
  && strict_eq_string (prop (ev_data e) "session") (agegateway_session cl)
  && ((typeof (prop (ev_data e) "token") =? "string")%string
      && negb (length_of (prop (ev_data e) "token") =? 0))
  && is_object (prop (ev_data e) "authenticationResponse").

(** A payload with its three fields, and the body of the request made of
    it. *)
Definition payload_shape (cl : closure) (payload : object) : Prop :=
  exists authenticationResponse,
    payload = [("include", include_value (include cl));
               ("agegateway_session", JStr (agegateway_session cl));
               ("authenticationResponse", authenticationResponse)]
    /\ is_object authenticationResponse = true.

Definition effect_shape (cl : closure) (x : effect) : Prop :=
  match x with
  | OnSuccess _ payload _ => payload_shape cl payload
  | Fetch _ _ body =>
      exists jwt payload,
        body = json_fields (("jwt", JStr jwt) :: payload)
        /\ payload_shape cl payload
  | _ => True
  end.

(** What a terminal transition does before it calls back. *)
Definition teardown (cl : closure) : list effect :=
  [Abort; RemoveListener; ClearInterval]
  ++ (if timeoutId cl then [ClearTimeout] else [])
  ++ [PopupClose].

(** The state a terminal transition makes of [st]. *)
Definition finished (st : state) : state :=
  {| done := true; processing := processing st; listening := false;
     poll_armed := false; timeout_armed := false; aborted := true;
     popup_closed := true; pending := pending st |}.

(** The payload of a suspended handler is well formed. *)
Definition pending_shape (cl : closure) (st : state) : Prop :=
  forall jwt payload, pending st = Some (jwt, payload) -> payload_shape cl payload.

(** What is logged of a callback that throws. *)
Definition logged (raised : option thrown) : list effect :=
  match raised with
  | Some err => [ConsoleError "[agegate] callback error" err]
  | None => []
  end.

(** What follows the call [x] of a callback: nothing, or the log of what
    the callback threw. *)
Definition after_callback (c : config) (x : effect) : list effect :=
  match x with
  | OnSuccess _ _ _ => logged (onSuccess_throws c)
  | OnFailure _ => logged (onFailure_throws c)
  | _ => []
  end.

(** A trace without a callback, or with one callback, followed by nothing
    but the log of what it threw. *)
Definition callback_last (c : config) (t : list effect) : Prop :=
  n_callbacks t = 0%nat
  \/ exists pre x,
       t = pre ++ x :: after_callback c x
       /\ n_callbacks pre = 0%nat /\ is_callback x = true.

(** The trace of a terminal transition: the callback last, and, both
    callbacks being supplied, one callback indeed. *)
Definition ending (cl : closure) (t : list effect) : Prop :=
  callback_last (cfg cl) t
  /\ (onSuccess (cfg cl) = true -> onFailure (cfg cl) = true ->
      n_callbacks t = 1%nat).

(** What a terminal transition leaves behind: the listener detached, both
    timers cleared, the request aborted, the popup closed. *)
Definition torn_down (st : state) : Prop :=
  listening st = false /\ poll_armed st = false /\ timeout_armed st = false
  /\ aborted st = true /\ popup_closed st = true.

End WireSpec.

(* ================================================================= *)
(** ** The policy of the backend URL and the failures of the token codec,
       as conditions *)

Module PolicySpec.

Section Allowlist.
Context {P : Platform}.

(** Some entry of [allowedOrigins] is a URL with the origin of [u]. *)
Definition allowlisted (u : URL) (o : Policy.url_policy) : Prop :=
  exists entries str a,
    Policy.allowedOrigins o = JArr entries
    /\ In (JStr str) entries
    /\ URL_new str None = Some a
    /\ origin a = origin u.

End Allowlist.

End PolicySpec.

Module TokenSpec.

(** A character of the url-safe alphabet as the standard alphabet has it:
    [+] for [-], [/] for [_]. *)
Definition standard_char (c : ascii) : ascii :=
  if (c =? "-")%char then "+"%char
  else if (c =? "_")%char then "/"%char
  else c.

Definition standard (s : string) : string := string_map standard_char s.

(** The base64 text the decoder is to be given for the token [s]: in the
    standard alphabet, padded to a multiple of four characters. *)
Definition normalized (s : string) : string :=
  if strlen s mod 4 =? 2 then (standard s ++ "==")%string
  else if strlen s mod 4 =? 3 then (standard s ++ "=")%string
  else standard s.

(** What an error says: its message, or the text of a thrown value that is
    no error. *)
Definition text_of (err : thrown) : string :=
  match err with
  | ErrorObj message => message
  | Raw description => description
  end.

(** The ways [b64urlToBytes] fails. *)
Inductive failure : Type :=
| NotAString
| Empty
| TooManyChars
| BadLength
| Undecodable (why : string)
| TooManyBytes.

(** The message of the error thrown for each. *)
Definition message_of (f : failure) : string :=
  match f with
  | NotAString => "token must be a string"
  | Empty => "token must be non-empty"
  | TooManyChars => "token too large"
  | BadLength => "invalid base64url length"
  | Undecodable why => ("invalid base64url: " ++ why)%string
  | TooManyBytes => "compressed token too large"
  end.

(** Two failures of the same kind. *)
Definition same_kind (f g : failure) : Prop :=
  match f, g with
  | NotAString, NotAString | Empty, Empty | TooManyChars, TooManyChars
  | BadLength, BadLength | Undecodable _, Undecodable _
  | TooManyBytes, TooManyBytes => True
  | _, _ => False
  end.

Section Failures.
Context {P : Platform}.

(** When each failure applies, under the limits [l] a caller gives. *)
Definition applies (l : option Token.partial_limits) (v : jsval) (f : failure)
    : Prop :=
  match f with
  | NotAString => forall s, v <> JStr s
  | Empty => v = JStr ""
  | TooManyChars =>
      exists s, v = JStr s
                /\ LimitsSpec.above (strlen s) (LimitsSpec.char_ceiling l)
  | BadLength => exists s, v = JStr s /\ strlen s mod 4 = 1
  | Undecodable why =>
      exists s err, v = JStr s /\ atob (normalized s) = Throw err
                    /\ why = text_of err
  | TooManyBytes =>
      exists s bin, v = JStr s /\ atob (normalized s) = Ok bin
                    /\ LimitsSpec.above (strlen bin) (LimitsSpec.byte_ceiling l)
  end.

End Failures.

End TokenSpec.

(* ================================================================= *)
(** ** src/internal/policy.js: [randomUuid] *)

Module Uuid.

(** [globalThis.crypto], as far as [randomUuid] looks at it: what
    [crypto.randomUUID()] returns, when it is a function; the byte
    [crypto.getRandomValues] writes at each index, when it is one. *)
Record crypto : Type := {
  randomUUID : option string;
  getRandomValues : option (nat -> byte);
}.

(** [b[i] = v] on a typed array: nothing out of range. *)
Fixpoint store (i : nat) (v : byte) (b : list byte) : list byte :=
  match b, i with
  | [], _ => []
  | _ :: rest, O => v :: rest
  | x :: rest, S i' => x :: store i' v rest
  end.

(** [b[i] ?? 0] *)
Definition load (i : nat) (b : list byte) : Z := Token.Z_of_byte (nth i b x00).

(** The RFC 4122 version and variant bits, as the source sets them. *)
Definition set_version_bits (b : list byte) : list byte :=
  let b := store 6 (Token.byte_of_Z (Z.lor (Z.land (load 6 b) 15) 64)) b in
  store 8 (Token.byte_of_Z (Z.lor (Z.land (load 8 b) 63) 128)) b.

(** [hex.slice(from, to)] for [from <= to]. *)
Definition slice (from to : nat) (s : string) : string :=
  substring from (to - from) s.

(** The template string of the source, over
    [Array.from(b, x => x.toString(16).padStart(2, '0')).join('')]. *)
Definition format (b : list byte) : string :=
  let hex := TokenTest.hex_of_bytes b in
  (slice 0 8 hex ++ "-" ++ slice 8 12 hex ++ "-" ++ slice 12 16 hex ++ "-"
   ++ slice 16 20 hex ++ "-" ++ slice 20 (String.length hex) hex)%string.

(** [randomUuid()]; [None] stands for a [globalThis.crypto] that is
    missing. *)
Definition randomUuid (c : option crypto) : exc string :=
  match c with
  | None => throw_msg "crypto.getRandomValues is required for UUID generation"
  | Some c =>
      match randomUUID c with
      | Some u => Ok u
      | None =>
          match getRandomValues c with
          | None => throw_msg "crypto.getRandomValues is required for UUID generation"
          | Some random =>
              let b := map random (seq 0 16) in
              Ok (format (set_version_bits b))
          end
      end
  end.

End Uuid.

(* ================================================================= *)
(** ** src/easy-agegate.js: the helpers of the UI wrapper *)

Module EasyAgeGate.

(** A finite number, or anything [Number.isFinite] rejects: [NaN], an
    infinity, a value that is no number. A finite double is the rational it
    denotes, and the source only compares. *)
Inductive number : Type :=
| Finite (q : Q)
| NotFinite.

(** [asPositiveNumber(value, fallback)] *)
Definition asPositiveNumber (value : number) (fallback : Q) : Q :=
  match value with
  | Finite q => if Qle_bool q 0 then fallback else q
  | NotFinite => fallback
  end.

(** [clampNumber(value, min, max, fallback)] *)
Definition clampNumber (value : number) (min max fallback : Q) : Q :=
  match value with
  | NotFinite => fallback
  | Finite q =>
      if negb (Qle_bool min q) then min
      else if negb (Qle_bool q max) then max
      else q
  end.

(** The loop of [ensureSessionInclude], [out] being the array built so
    far. *)
Fixpoint ensure_loop (base : list jsval) (out : list string) : list string :=
  match base with
  | [] => out
  | v :: rest =>
      match v with
      | JStr str =>
          let t := trim str in
          if negb (truthy (JStr t)) then ensure_loop rest out
          else if negb (includes out t) then ensure_loop rest (out ++ [t])
          else ensure_loop rest out
      | _ => ensure_loop rest out
      end
  end.

(** [ensureSessionInclude(input)] *)
Definition ensureSessionInclude (input : jsval) : list string :=
  let base := match input with JArr items => items | _ => [] end in
  let out := ensure_loop base [] in
  if negb (includes out "session") then "session" :: out else out.

(** [s.replace(/c/g, by)] for a single character [c]. *)
Fixpoint replace_all (c : ascii) (by_ : string) (s : string) : string :=
  match s with
  | EmptyString => EmptyString
  | String x r =>
      if (x =? c)%char then (by_ ++ replace_all c by_ r)%string
      else String x (replace_all c by_ r)
  end.

(** The double quote, character 34. *)
Definition dquote : ascii := "034"%char.

(** [htmlEscape(value)], for a [value] that is a string. *)
Definition htmlEscape (value : string) : string :=
  replace_all "'" "&#39;"
    (replace_all dquote "&quot;"
       (replace_all ">" "&gt;"
          (replace_all "<" "&lt;"
             (replace_all "&" "&amp;" value)))).

(** [safeText(value, fallback)] *)
Definition safeText (value : jsval) (fallback : string) : string :=
  match value with
  | JStr str =>
      let trimmed := trim str in
      if 0 <? strlen trimmed then trimmed else fallback
  | _ => fallback
  end.

(** The [include] the wrapper hands to [launchAgeGate], sanitized as
    [launchAgeGate] does. *)
Definition launched_include (include : jsval) : option (list string) :=
  Policy.sanitizeInclude (JArr (map JStr (ensureSessionInclude include))) None.

End EasyAgeGate.

(* ================================================================= *)
(** ** [htmlEscape], as one pass over the characters *)

Module EscapeSpec.

(** The entity that stands for a character of markup; any other character
    stands for itself. *)
Definition entity (c : ascii) : string :=
  if (c =? "&")%char then "&amp;"
  else if (c =? "<")%char then "&lt;"
  else if (c =? ">")%char then "&gt;"
  else if (c =? EasyAgeGate.dquote)%char then "&quot;"
  else if (c =? "'")%char then "&#39;"
  else String c EmptyString.

Fixpoint escaped (s : string) : string :=
  match s with
  | EmptyString => EmptyString
  | String c r => (entity c ++ escaped r)%string
  end.

(** The characters that open or close a tag or an attribute value. *)
Definition markup (c : ascii) : bool :=
  (c =? "<")%char || (c =? ">")%char || (c =? EasyAgeGate.dquote)%char
  || (c =? "'")%char.

End EscapeSpec.

(* ================================================================= *)
(** ** The failures of [hexToUtf8String] and the traces of a handshake,
       as conditions *)

Module HexSpec.

(** The ways [hexToUtf8String] fails. *)
Inductive failure : Type :=
| NotAString
| Empty
| OddLength
| NotHex
| TooLong.

Definition message_of (f : failure) : string :=
  match f with
  | NotAString => "hex must be a string"
  | Empty => "hex must be non-empty"
  | OddLength => "invalid hex length"
  | NotHex => "invalid hex characters"
  | TooLong => "inflated token too large"
  end.

(** When each applies, under the limits [l] a caller gives. *)
Definition applies (l : option Token.partial_limits) (v : jsval) (f : failure)
    : Prop :=
  match f with
  | NotAString => forall s, v <> JStr s
  | Empty => v = JStr ""
  | OddLength => exists s, v = JStr s /\ strlen s mod 2 = 1
  | NotHex => exists s, v = JStr s /\ string_forallb Policy.is_hex s = false
  | TooLong =>
      exists s, v = JStr s
                /\ LimitsSpec.above (strlen s) (LimitsSpec.inflated_ceiling l)
  end.

(** A hexadecimal digit in lower case. *)
Definition lower_hex (c : ascii) : ascii :=
  let n := Z.of_N (N_of_ascii c) in
  if (65 <=? n) && (n <=? 70) then ascii_of_N (Z.to_N (n + 32)) else c.

End HexSpec.

Module TraceSpec.

Import AgeGate.

Definition is_fetch (x : effect) : bool :=
  match x with Fetch _ _ _ => true | _ => false end.

(** How many requests a trace holds. *)
Definition n_fetches (t : list effect) : nat := length (filter is_fetch t).

(** The flags of a handshake agree with what is in flight: the handler is
    busy exactly while its request is pending. *)
Definition consistent (st : state) : Prop :=
  processing st = true <-> pending st <> None.

(** A message the handler takes up and decodes to [jwt]. *)
Definition decodes_to `{P : Platform} (cl : closure) (e : message_event)
    (jwt : string) : Prop :=
  ev_origin e = CHILD_ORIGIN
  /\ ev_source e = Some (popup cl)
  /\ prop (ev_data e) "session" = JStr (agegateway_session cl)
  /\ decode_token (prop (ev_data e) "token") = Ok jwt.

(** A handshake nothing can reach any more: no listener, no timer, no
    request in flight. *)
Definition unreachable (st : state) : Prop :=
  listening st = false /\ poll_armed st = false /\ timeout_armed st = false
  /\ pending st = None /\ popup_closed st = true.

(** Every event but the firing of the time-out. *)
Definition not_timeout (ev : event) : bool :=
  match ev with TimeoutFire => false | _ => true end.

(** What a call of [launchAgeGate] did before it returned or threw. *)
Definition launch_trace (l : launched) : list effect :=
  match l with
  | Stopped effs => effs
  | Crashed effs _ => effs
  | Running _ _ effs => effs
  end.

End TraceSpec.

(* ================================================================= *)
(** * Properties *)

Example sanitize_test :
  Policy.sanitizeInclude
    (JArr [JStr "  loa  "; JStr "loa"; JStr "";
           JStr "xxxxxxxxxxxxxxxxxxxxxxxxxxxxxxxxxxxxxxxxxxxxxxxxxxxxxxxxxxxxxxxxxxxxxxxxxxxxxxxxxxxxxxxxxxxxxxxxxxxx";
           JStr "session"; JNum 123]) None
  = Some ["loa"; "session"].
Proof. reflexivity. Qed.

Example isUuid_test :
  Policy.isUuid "550e8400-e29b-41d4-a716-446655440000" = true
  /\ Policy.isUuid "not-a-uuid" = false.
Proof. split; reflexivity. Qed.

(** [launchAgeGate()] on a page where the popup opens: a fresh session in
    the URL, the listener and the poll set up, no time-out. *)
Example launch_default :
  AgeGate.execute (P := Example.platform) Example.page AgeGate.default_config []
  = (Some Example.listening,
     [AgeGate.WindowOpen
        [("session", "00000000-0000-4000-8000-000000000000"); ("autostart", "1")];
      AgeGate.AddListener; AgeGate.SetInterval 1000]).
Proof. reflexivity. Qed.

(** A handshake with a backend: the message is taken up, the request goes
    out, and when it settles the success callback gets the credential, the
    payload and the answer of the backend. *)
Example launch_with_backend :
  snd (AgeGate.execute (P := Example.platform)
         Example.page Example.callbacks_backend
         [AgeGate.Message (Example.message "H4s2MTJlNjIyZTYz");
          AgeGate.BackendSettled Example.backend_ok;
          AgeGate.TimeoutFire])
  = [AgeGate.WindowOpen
       [("session", Example.session_id); ("autostart", "1");
        ("include", "session,loa")];
     AgeGate.AddListener; AgeGate.SetInterval 1000; AgeGate.SetTimeout 120000;
     AgeGate.Fetch "https://rp.example/api/verify"
       [("content-type", JStr "application/json")]
       [("jwt", JStr "a.b.c");
        ("include", JArr [JStr "session"; JStr "loa"]);
        ("agegateway_session", JStr Example.session_id);
        ("authenticationResponse", JObj [])];
     AgeGate.Abort; AgeGate.RemoveListener; AgeGate.ClearInterval;
     AgeGate.ClearTimeout; AgeGate.PopupClose;
     AgeGate.OnSuccess "a.b.c"
       [("include", JArr [JStr "session"; JStr "loa"]);
        ("agegateway_session", JStr Example.session_id);
        ("authenticationResponse", JObj [])]
       (JObj [("valid", JBool true)])].
Proof. reflexivity. Qed.

(** Without an include filter the [include] of the payload is [undefined],
    and the body as [JSON.stringify] writes it has no [include]. *)
Example body_without_include :
  AgeGate.json_fields
    (spread [("jwt", JStr "a.b.c")]
       (AgeGate.make_payload None Example.session_id (JObj [])))
  = [("jwt", JStr "a.b.c");
     ("agegateway_session", JStr Example.session_id);
     ("authenticationResponse", JObj [])].
Proof. reflexivity. Qed.


(* ----------------------------------------------------------------- *)
(** *** Lengths and ceilings *)

Section Ceilings.
Import LimitsSpec.

Lemma Qle_bool_inject_Z (n m : Z) : Qle_bool (inject_Z n) (inject_Z m) = (n <=? m).
Proof. unfold Qle_bool, inject_Z. cbn [Qnum Qden]. now rewrite !Z.mul_1_r. Qed.

(** Against a whole number the comparisons are those of the integers. *)
Lemma js_gt_Z (n m : Z) : js_gt n (Num (inject_Z m)) = (m <? n).
Proof. cbn [js_gt]. now rewrite Qle_bool_inject_Z, Z.ltb_antisym. Qed.

Lemma js_ge_Z (n m : Z) : js_ge n (Num (inject_Z m)) = (m <=? n).
Proof. cbn [js_ge]. apply Qle_bool_inject_Z. Qed.

Lemma js_gt_above (n : Z) (c : ceiling) : js_gt n c = true <-> above n c.
Proof.
  destruct c as [q| | | |]; cbn [js_gt above];
    try (split; [discriminate | contradiction]); try tauto.
  rewrite negb_true_iff. split.
  - intros H. apply Qnot_le_lt. intros Hle.
    apply Qle_bool_iff in Hle. congruence.
  - intros H. destruct (Qle_bool (inject_Z n) q) eqn:E; [|reflexivity].
    apply Qle_bool_iff in E. exfalso. eapply Qlt_not_le; eauto.
Qed.

Lemma js_ge_reached (n : Z) (c : ceiling) : js_ge n c = true <-> reached n c.
Proof.
  destruct c as [q| | | |]; cbn [js_ge reached];
    try (split; [discriminate | contradiction]); try tauto.
  apply Qle_bool_iff.
Qed.

Lemma js_gt_not_above (n : Z) (c : ceiling) : js_gt n c = false <-> ~ above n c.
Proof.
  rewrite <- js_gt_above. destruct (js_gt n c); split; congruence.
Qed.

(** What is above a whole number, or has reached it. *)
Lemma above_Z (n m : Z) : above n (Num (inject_Z m)) <-> m < n.
Proof. rewrite <- js_gt_above, js_gt_Z. apply Z.ltb_lt. Qed.

Lemma reached_Z (n m : Z) : reached n (Num (inject_Z m)) <-> m <= n.
Proof. rewrite <- js_ge_reached, js_ge_Z. apply Z.leb_le. Qed.

(** A longer list has reached what a shorter one has. *)
Lemma js_ge_mono (n m : Z) (c : ceiling) :
  n <= m -> js_ge n c = true -> js_ge m c = true.
Proof.
  intros Hle. rewrite !js_ge_reached.
  destruct c as [q| | | |]; cbn [reached]; auto.
  intros H. eapply Qle_trans; [exact H|]. now rewrite <- Zle_Qle.
Qed.

(** The limits in force are those of the caller, key by key, over the
    defaults. *)
Lemma policy_merge (l : option Policy.partial_limits) :
  Policy.maxSessionLen (Policy.merge l) = session_ceiling l
  /\ Policy.maxIncludeItems (Policy.merge l) = items_ceiling l
  /\ Policy.maxIncludeItemLen (Policy.merge l) = item_ceiling l.
Proof.
  destruct l as [[a b c]|]; [|repeat split].
  destruct a, b, c; repeat split.
Qed.

Lemma token_merge (l : option Token.partial_limits) :
  Token.maxTokenB64urlChars (Token.merge l) = char_ceiling l
  /\ Token.maxGzipBytes (Token.merge l) = byte_ceiling l
  /\ Token.maxInflatedChars (Token.merge l) = inflated_ceiling l.
Proof.
  destruct l as [[a b c]|]; [|repeat split].
  destruct a, b, c; repeat split.
Qed.

End Ceilings.

(* ----------------------------------------------------------------- *)
(** *** Session normalisation *)

Lemma strlen_zero (s : string) : strlen s = 0 -> s = "".
Proof.
  unfold strlen. destruct s as [|c r]; [reflexivity|].
  simpl String.length. lia.
Qed.

(** C9: [normalizeSession] validates the trimmed input and returns it: a
    string whose trimmed form is a UUID of at most 64 characters comes back
    trimmed, whatever a fresh UUID would have been. *)
Theorem normalizeSession_returns_trimmed (fresh : exc string) (str : string) :
  Policy.isUuid (trim str) = true ->
  strlen (trim str) <= 64 ->
  Policy.normalizeSession fresh (JStr str) None = Ok (trim str).
Proof.
  intros Huuid Hlen. unfold Policy.normalizeSession. cbn [Policy.merge].
  destruct (strlen (trim str) =? 0) eqn:Hz.
  - apply Z.eqb_eq, strlen_zero in Hz. rewrite Hz in Huuid. discriminate Huuid.
  - cbn [orb].
    change (Policy.maxSessionLen Policy.DEFAULT_LIMITS) with (Num (inject_Z 64)).
    rewrite js_gt_Z.
    destruct (64 <? strlen (trim str)) eqn:Hgt.
    + apply Z.ltb_lt in Hgt. lia.
    + rewrite Huuid. reflexivity.
Qed.

(** A UUID between blanks comes back without them: neither the input as it
    was, nor the fresh identifier. *)
Lemma normalizeSession_returns_trimmed_witness :
  let padded := "  550e8400-e29b-41d4-a716-446655440000  " in
  let fresh := Ok "00000000-0000-4000-8000-000000000000" in
  Policy.normalizeSession fresh (JStr padded) None
    = Ok "550e8400-e29b-41d4-a716-446655440000"
  /\ Policy.normalizeSession fresh (JStr padded) None <> Ok padded
  /\ Policy.normalizeSession fresh (JStr padded) None <> fresh.
Proof.
  cbv zeta.
  rewrite (@normalizeSession_returns_trimmed
             (Ok "00000000-0000-4000-8000-000000000000")
             "  550e8400-e29b-41d4-a716-446655440000  ");
    [ | reflexivity | vm_compute; discriminate ].
  repeat split; vm_compute; discriminate.
Defined.

(* ----------------------------------------------------------------- *)
(** *** The include list *)

Section IncludeList.
Import IncludeSpec.

Lemma includes_app (out : list string) (s y : string) :
  includes (out ++ [s]) y = includes out y || (s =? y)%string.
Proof.
  induction out as [|x r IH]; simpl.
  - now rewrite orb_false_r.
  - now rewrite IH, orb_assoc.
Qed.

Lemma filter_filter (p q : string -> bool) (l : list string) :
  filter p (filter q l) = filter (fun y => q y && p y) l.
Proof.
  induction l as [|x r IH]; simpl; [reflexivity|].
  destruct (q x); simpl; [destruct (p x)|]; now rewrite IH.
Qed.

Lemma filter_true (l : list string) : filter (fun _ => true) l = l.
Proof. induction l as [|x r IH]; simpl; now rewrite ?IH. Qed.

(** The loop, from any array built so far that is within the bound: what
    it has, then the first occurrences of the acceptable entries it does not
    have yet, cut at the bound. *)
Lemma sanitize_loop_spec (n : nat) (items : list jsval) :
  Z.of_nat n = 8 ->
  forall out : list string,
    (length out <= n)%nat ->
    Policy.sanitize_loop Policy.DEFAULT_LIMITS items out
    = firstn n (out ++ filter (fun y => negb (includes out y))
                               (dedup (candidates items))).
Proof.
  intros Hn.
  induction items as [|item rest IH]; intros out Hlen.
  - simpl. rewrite app_nil_r. symmetry. now apply firstn_all2.
  - cbn [Policy.sanitize_loop].
    change (Policy.maxIncludeItems Policy.DEFAULT_LIMITS) with (Num (inject_Z 8)).
    change (Policy.maxIncludeItemLen Policy.DEFAULT_LIMITS) with (Num (inject_Z 32)).
    rewrite js_ge_Z.
    destruct (8 <=? Z.of_nat (length out)) eqn:Hfull.
    + apply Z.leb_le in Hfull.
      assert (Hout : n = (length out + 0)%nat) by lia.
      rewrite Hout at 1. rewrite firstn_app_2. simpl. now rewrite app_nil_r.
    + apply Z.leb_gt in Hfull.
      assert (Hskip : forall v, (forall s, v <> JStr s) ->
                candidates (v :: rest) = candidates rest).
      { intros v Hv. unfold candidates, strings_of. simpl.
        destruct v; try reflexivity. now elim (Hv s). }
      destruct item as [| |b|m|str|l|o];
        try (rewrite Hskip by discriminate; now apply IH).
      assert (Hc : candidates (JStr str :: rest)
                   = if acceptable (trim str)
                     then trim str :: candidates rest else candidates rest).
      { unfold candidates, strings_of. simpl. reflexivity. }
      rewrite Hc. unfold acceptable.
      destruct (strlen (trim str) =? 0) eqn:Hz; cbn [orb negb andb].
      { now apply IH. }
      rewrite js_gt_Z, (Z.leb_antisym 32 (strlen (trim str))).
      destruct (32 <? strlen (trim str)) eqn:Hbig; cbn [negb].
      { now apply IH. }
      simpl dedup. cbn [filter].
      destruct (includes out (trim str)) eqn:Hin; cbn [negb].
      * rewrite IH by assumption. f_equal. f_equal.
        rewrite filter_filter. apply filter_ext. intros y.
        destruct (y =? trim str)%string eqn:Hy; cbn [negb andb]; [|reflexivity].
        apply String.eqb_eq in Hy. subst y. now rewrite Hin.
      * rewrite IH by (rewrite length_app; simpl; lia).
        rewrite <- app_assoc. simpl. f_equal. f_equal. f_equal.
        rewrite filter_filter. apply filter_ext. intros y.
        rewrite includes_app, negb_orb, (String.eqb_sym (trim str) y).
        apply andb_comm.
Qed.

Lemma dedup_In (l : list string) (s : string) : In s (dedup l) <-> In s l.
Proof.
  induction l as [|x r IH]; simpl; [tauto|].
  rewrite filter_In, IH, negb_true_iff, String.eqb_neq.
  destruct (String.eqb_spec s x); subst; intuition.
Qed.

Lemma NoDup_filter (p : string -> bool) (l : list string) :
  NoDup l -> NoDup (filter p l).
Proof.
  induction 1 as [|x r Hx Hr IH]; simpl; [constructor|].
  destruct (p x); [constructor|]; auto.
  rewrite filter_In. tauto.
Qed.

Lemma dedup_NoDup (l : list string) : NoDup (dedup l).
Proof.
  induction l as [|x r IH]; simpl; constructor.
  - rewrite filter_In, String.eqb_refl. simpl. intros [_ H]. discriminate H.
  - now apply NoDup_filter.
Qed.

Lemma NoDup_firstn (n : nat) (l : list string) : NoDup l -> NoDup (firstn n l).
Proof.
  revert l. induction n as [|n IH]; intros l H; simpl; [constructor|].
  destruct H as [|x r Hx Hr]; constructor; auto.
  intros Hin. apply Hx. rewrite <- (firstn_skipn n r). apply in_or_app. now left.
Qed.

Lemma subseq_trans (a b c : list string) : subseq a b -> subseq b c -> subseq a c.
Proof.
  intros Hab Hbc. revert a Hab.
  induction Hbc as [|x r l Hrl IH|x r l Hrl IH]; intros a Hab.
  - assumption.
  - inversion Hab; subst; constructor; auto.
  - constructor. auto.
Qed.

Lemma subseq_filter (p : string -> bool) (l : list string) : subseq (filter p l) l.
Proof.
  induction l as [|x r IH]; simpl; [constructor|].
  destruct (p x); constructor; assumption.
Qed.

Lemma subseq_dedup (l : list string) : subseq (dedup l) l.
Proof.
  induction l as [|x r IH]; simpl; constructor.
  eapply subseq_trans; [apply subseq_filter | exact IH].
Qed.

Lemma subseq_firstn (n : nat) (l : list string) : subseq (firstn n l) l.
Proof.
  revert l. induction n as [|n IH]; intros [|x r]; simpl; try constructor; auto.
  clear. induction r; constructor; auto.
Qed.

Lemma candidates_In (items : list jsval) (s : string) :
  In s (candidates items) <->
  exists str, In (JStr str) items /\ s = trim str
              /\ s <> "" /\ (String.length s <= 32)%nat.
Proof.
  unfold candidates. rewrite filter_In, in_map_iff. unfold strings_of.
  assert (Hacc : acceptable s = true <-> s <> "" /\ (String.length s <= 32)%nat).
  { unfold acceptable, strlen.
    rewrite andb_true_iff, negb_true_iff, Z.eqb_neq, Z.leb_le.
    destruct s; simpl String.length; split; intros [H1 H2]; split;
      try lia; try discriminate; congruence. }
  rewrite Hacc. split.
  - intros [[str [Htrim Hin]] Hok]. exists str.
    apply in_flat_map in Hin. destruct Hin as [v [Hv Hs]].
    destruct v; simpl in Hs; try tauto. destruct Hs as [->|[]]. auto.
  - intros [str [Hin [Htrim Hok]]]. split; [|exact Hok].
    exists str. split; [now symmetry|].
    apply in_flat_map. exists (JStr str). simpl. auto.
Qed.

End IncludeList.

(** C8: on an array, [sanitizeInclude] gives the trimmed text entries
    without the empty and the over-long ones, first occurrences only, in
    their order, eight at most, and [undefined] when none is left; the
    example of the tests comes out as [["loa"; "session"]]; on anything
    that is not an array it gives [undefined]. *)
Theorem sanitizeInclude_dedups_and_bounds :
  (forall items : list jsval,
     let r := IncludeSpec.sanitized items in
     Policy.sanitizeInclude (JArr items) None
       = match r with [] => None | _ => Some r end
     /\ NoDup r
     /\ (length r <= 8)%nat
     /\ IncludeSpec.subseq r (IncludeSpec.candidates items)
     /\ (forall s, In s r ->
           exists str, In (JStr str) items /\ s = trim str
                       /\ s <> "" /\ (String.length s <= 32)%nat))
  /\ Policy.sanitizeInclude
       (JArr [JStr "  loa  "; JStr "loa"; JStr "";
              JStr "xxxxxxxxxxxxxxxxxxxxxxxxxxxxxxxxxxxxxxxxxxxxxxxxxxxxxxxxxxxxxxxxxxxxxxxxxxxxxxxxxxxxxxxxxxxxxxxxxxxx";
              JStr "session"; JNum 123]) None
     = Some ["loa"; "session"]
  /\ (forall v : jsval, isArray v = false -> Policy.sanitizeInclude v None = None).
Proof.
  split; [|split].
  - intros items r. unfold r, IncludeSpec.sanitized.
    split; [|split; [|split; [|split]]].
    + unfold Policy.sanitizeInclude. cbn [Policy.merge].
      rewrite (@sanitize_loop_spec 8) by (simpl; lia).
      cbn [app includes negb]. rewrite filter_true.
      destruct (firstn 8 (IncludeSpec.dedup (IncludeSpec.candidates items)));
        reflexivity.
    + apply NoDup_firstn, dedup_NoDup.
    + apply firstn_le_length.
    + eapply subseq_trans; [apply subseq_firstn | apply subseq_dedup].
    + intros s Hs. apply candidates_In, dedup_In.
      rewrite <- (firstn_skipn 8 (IncludeSpec.dedup _)).
      apply in_or_app. now left.
  - reflexivity.
  - intros v Hv. destruct v; try reflexivity. discriminate Hv.
Qed.

(* ----------------------------------------------------------------- *)
(** *** The message handler *)

Section Handler.
Context {P : Platform}.
Import AgeGate WireSpec.

Lemma typeof_string (v : jsval) :
  (typeof v =? "string")%string = true <-> exists t, v = JStr t.
Proof.
  split.
  - destruct v; simpl; intros H; try discriminate H. eauto.
  - intros [t ->]. reflexivity.
Qed.

Lemma strict_eq_string_true (v : jsval) (s : string) :
  strict_eq_string v s = true <-> v = JStr s.
Proof.
  destruct v; simpl; split; intros H; try discriminate H.
  - apply String.eqb_eq in H. now subst.
  - injection H as ->. apply String.eqb_refl.
Qed.

Lemma source_is_true (src : option window) (w : window) :
  source_is src w = true <-> src = Some w.
Proof.
  destruct src as [x|]; simpl; split; intros H; try discriminate H.
  - apply Nat.eqb_eq in H. now subst.
  - injection H as ->. apply Nat.eqb_refl.
Qed.

Lemma length_of_zero (t : string) : (length_of (JStr t) =? 0) = true <-> t = "".
Proof.
  simpl. rewrite Z.eqb_eq. split.
  - apply strlen_zero.
  - now intros ->.
Qed.

Lemma handler_guards (cl : closure) (st : state) (e : message_event) :
  handler cl st e = Ignored <-> guards cl st e = false.
Proof.
  unfold handler, guards, is_object.
  destruct (done st || processing st); cbn [negb andb]; [tauto|].
  destruct (ev_origin e =? CHILD_ORIGIN)%string; cbn [negb andb]; [|tauto].
  destruct (source_is (ev_source e) (popup cl)); cbn [negb andb]; [|tauto].
  destruct (truthy (ev_data e)); cbn [negb andb orb]; [|tauto].
  destruct (typeof (ev_data e) =? "object")%string; cbn [negb andb]; [|tauto].
  destruct (strict_eq_string _ _); cbn [negb andb]; [|tauto].
  destruct (typeof (prop (ev_data e) "token") =? "string")%string;
    cbn [negb andb orb]; [|tauto].
  destruct (length_of (prop (ev_data e) "token") =? 0); cbn [negb andb]; [tauto|].
  destruct (truthy (prop (ev_data e) "authenticationResponse"));
    cbn [negb andb orb]; [|tauto].
  destruct (typeof (prop (ev_data e) "authenticationResponse") =? "object")%string;
    cbn [negb andb]; [|tauto].
  split; [|discriminate].
  destruct (decode_token _).
  - destruct (backendVerifyUrl (cfg cl));
      try (destruct (finally _); discriminate).
    destruct (0 <? strlen s); [|destruct (finally _); discriminate].
    destruct (verify_request _ _ _ _); [discriminate|].
    destruct (finally _); discriminate.
  - destruct (finally _); discriminate.
Qed.

Lemma guards_conditions (cl : closure) (st : state) (e : message_event) :
  guards cl st e = true <-> conditions_nonempty cl st e.
Proof.
  unfold guards, conditions_nonempty.
  rewrite !andb_true_iff, negb_true_iff, orb_false_iff, String.eqb_eq,
    source_is_true, strict_eq_string_true, typeof_string.
  split.
  - intros [[[[[[[Hd Hp] Ho] Hs] Hdat] Hses] [[t Ht] Hlen]] Har].
    repeat split; auto. exists t. split; [assumption|].
    rewrite Ht in Hlen. intros ->. discriminate Hlen.
  - intros [Hd [Hp [Ho [Hs [Hdat [[t [Ht Hne]] [Hses Har]]]]]]].
    repeat split; eauto.
    rewrite Ht. apply negb_true_iff.
    destruct (length_of (JStr t) =? 0) eqn:Hz; [|reflexivity].
    apply length_of_zero in Hz. contradiction.
Qed.

End Handler.


(** C10: a message from the issuer's origin and from the popup, with the
    active session and the empty string as [token], is ignored, whatever
    else it carries and whatever the state: the handler returns before its
    [try] block, so nothing is decoded, nothing is called, and the state,
    the listener with it, is as before. *)
Theorem empty_token_is_ignored `{P : Platform}
    (cl : AgeGate.closure) (st : AgeGate.state) (e : AgeGate.message_event) :
  AgeGate.ev_origin e = AgeGate.CHILD_ORIGIN ->
  AgeGate.ev_source e = Some (AgeGate.popup cl) ->
  prop (AgeGate.ev_data e) "session" = JStr (AgeGate.agegateway_session cl) ->
  prop (AgeGate.ev_data e) "token" = JStr "" ->
  AgeGate.handler cl st e = AgeGate.Ignored
  /\ AgeGate.fire cl st (AgeGate.Message e) = (st, [])
  /\ AgeGate.step cl st (AgeGate.Message e) = (st, []).
Proof.
  intros Ho Hs Hses Htok.
  assert (Hign : AgeGate.handler cl st e = AgeGate.Ignored).
  { apply handler_guards. unfold WireSpec.guards. rewrite Htok. simpl.
    now rewrite !andb_false_r. }
  split; [exact Hign|].
  assert (Hfire : AgeGate.fire cl st (AgeGate.Message e) = (st, [])).
  { cbn [AgeGate.fire]. now rewrite Hign. }
  split; [exact Hfire|].
  unfold AgeGate.step. rewrite Hfire. now destruct (AgeGate.enabled _ _).
Qed.

(* ----------------------------------------------------------------- *)
(** *** Terminal transitions *)

Section Termination.
Context {P : Platform}.
Import AgeGate WireSpec.

Lemma n_callbacks_app (a b : list effect) :
  n_callbacks (a ++ b) = (n_callbacks a + n_callbacks b)%nat.
Proof. unfold n_callbacks. now rewrite filter_app, length_app. Qed.

Lemma n_callbacks_teardown (cl : closure) : n_callbacks (teardown cl) = 0%nat.
Proof. unfold teardown. now destruct (timeoutId cl). Qed.

(** A terminal transition on a terminated handshake does nothing. *)
Lemma finish_done (cl : closure) (st : state) (callback : list effect) :
  done st = true -> finish cl st callback = (st, []).
Proof. intros H. unfold finish. now rewrite H. Qed.

(** On a live one it tears down, then calls back. *)
Lemma finish_live (cl : closure) (st : state) (callback : list effect) :
  done st = false ->
  finish cl st callback = (finished st, teardown cl ++ callback).
Proof.
  intros H. unfold finish. rewrite H.
  unfold teardown, finished. destruct st; simpl.
  destruct (timeoutId cl); reflexivity.
Qed.

Lemma n_callbacks_logged (raised : option thrown) :
  n_callbacks (logged raised) = 0%nat.
Proof. now destruct raised. Qed.

Lemma n_callbacks_after (c : config) (x : effect) :
  n_callbacks (after_callback c x) = 0%nat.
Proof. destruct x; try reflexivity; apply n_callbacks_logged. Qed.

Lemma safeCallback_logged (supplied : bool) (raised : option thrown) (x : effect) :
  safeCallback supplied raised x = if supplied then x :: logged raised else [].
Proof. reflexivity. Qed.

(** A callback called, and what it throws logged. *)
Lemma n_callbacks_safeCallback (supplied : bool) (raised : option thrown)
    (x : effect) :
  is_callback x = true ->
  n_callbacks (safeCallback supplied raised x) = if supplied then 1%nat else 0%nat.
Proof.
  intros Hx. rewrite safeCallback_logged. destruct supplied; [|reflexivity].
  change (x :: logged raised) with ([x] ++ logged raised).
  rewrite n_callbacks_app, n_callbacks_logged.
  unfold n_callbacks. cbn [filter]. now rewrite Hx.
Qed.

Lemma callback_last_safeCallback (c : config) (pre : list effect)
    (supplied : bool) (raised : option thrown) (x : effect) :
  n_callbacks pre = 0%nat -> is_callback x = true ->
  logged raised = after_callback c x ->
  callback_last c (pre ++ safeCallback supplied raised x).
Proof.
  intros Hpre Hx Hlog. rewrite safeCallback_logged. destruct supplied.
  - right. exists pre, x. rewrite Hlog. auto.
  - left. now rewrite app_nil_r.
Qed.

Lemma callback_last_finish (cl : closure) (supplied : bool)
    (raised : option thrown) (x : effect) :
  is_callback x = true ->
  logged raised = after_callback (cfg cl) x ->
  callback_last (cfg cl) (teardown cl ++ safeCallback supplied raised x).
Proof.
  intros Hx Hlog.
  apply callback_last_safeCallback; auto using n_callbacks_teardown.
Qed.

Lemma ending_finish (cl : closure) (supplied : bool) (raised : option thrown)
    (x : effect) :
  is_callback x = true ->
  logged raised = after_callback (cfg cl) x ->
  (onSuccess (cfg cl) = true -> onFailure (cfg cl) = true -> supplied = true) ->
  ending cl (teardown cl ++ safeCallback supplied raised x).
Proof.
  intros Hx Hlog Hs. split; [now apply callback_last_finish|].
  intros H1 H2.
  rewrite (Hs H1 H2), n_callbacks_app, n_callbacks_teardown.
  now rewrite n_callbacks_safeCallback.
Qed.

Lemma callback_last_prepend (c : config) (a t : list effect) :
  n_callbacks a = 0%nat -> callback_last c t -> callback_last c (a ++ t).
Proof.
  intros Ha [Ht | [pre [x [-> [Hpre Hx]]]]].
  - left. rewrite n_callbacks_app. lia.
  - right. exists (a ++ pre), x. rewrite app_assoc, n_callbacks_app.
    repeat split; auto. lia.
Qed.

Lemma ending_prepend (cl : closure) (a t : list effect) :
  n_callbacks a = 0%nat -> ending cl t -> ending cl (a ++ t).
Proof.
  intros Ha [Hl Hn]. split; [now apply callback_last_prepend|].
  intros H1 H2. rewrite n_callbacks_app, (Hn H1 H2). lia.
Qed.

Lemma torn_down_finished (st : state) : torn_down (finished st).
Proof. repeat split. Qed.

Local Opaque teardown.

(** What the handler makes of a message it takes up: it ends the
    handshake, calling back last, or it sends the request and waits. *)
Lemma handler_processed (cl : closure) (st st' : state) (e : message_event)
    (effs : list effect) :
  handler cl st e = Processed st' effs ->
  done st = false
  /\ ((done st' = true /\ torn_down st' /\ ending cl effs
       /\ pending st' = pending st)
      \/ (done st' = false /\ n_callbacks effs = 0%nat
          /\ listening st' = listening st /\ poll_armed st' = poll_armed st
          /\ timeout_armed st' = timeout_armed st
          /\ popup_closed st' = popup_closed st /\ aborted st' = aborted st)).
Proof.
  intros H.
  assert (Hg : guards cl st e = true).
  { destruct (guards cl st e) eqn:Hg; [reflexivity|].
    apply handler_guards in Hg. congruence. }
  assert (Hd : done st = false).
  { unfold guards in Hg. rewrite !andb_true_iff, negb_true_iff, orb_false_iff in Hg.
    tauto. }
  split; [exact Hd|].
  revert H. unfold handler.
  repeat match goal with
         | |- context [if ?b then Ignored else _] =>
             destruct b; [discriminate|]
         end.
  assert (Hd1 : done (set_processing true st) = false) by exact Hd.
  assert (Hend : forall supplied raised x,
             is_callback x = true ->
             logged raised = after_callback (cfg cl) x ->
             (onSuccess (cfg cl) = true -> onFailure (cfg cl) = true ->
              supplied = true) ->
             (let (st2, effs0) :=
                finally (finish cl (set_processing true st)
                           (safeCallback supplied raised x)) in
              Processed st2 effs0) = Processed st' effs ->
             done st' = true /\ torn_down st' /\ ending cl effs
             /\ pending st' = pending st).
  { intros supplied raised x Hx Hlog Hs.
    rewrite (finish_live _ _ _ Hd1). unfold finally.
    cbn [fst snd]. intros H; injection H as <- <-.
    split; [reflexivity|]. split; [apply torn_down_finished|].
    split; [now apply ending_finish | reflexivity]. }
  unfold finishFailure, finishSuccess.
  assert (Hleft : forall supplied raised x,
             is_callback x = true ->
             logged raised = after_callback (cfg cl) x ->
             (onSuccess (cfg cl) = true -> onFailure (cfg cl) = true ->
              supplied = true) ->
             (let (st2, effs0) :=
                finally (finish cl (set_processing true st)
                           (safeCallback supplied raised x)) in
              Processed st2 effs0) = Processed st' effs ->
             (done st' = true /\ torn_down st' /\ ending cl effs
              /\ pending st' = pending st)
             \/ (done st' = false /\ n_callbacks effs = 0%nat
                 /\ listening st' = listening st /\ poll_armed st' = poll_armed st
                 /\ timeout_armed st' = timeout_armed st
                 /\ popup_closed st' = popup_closed st /\ aborted st' = aborted st)).
  { intros supplied raised x Hx Hlog Hs H. left.
    now apply (Hend supplied raised x). }
  destruct (decode_token _) as [jwt|err];
    [|apply Hleft; [reflexivity | reflexivity | tauto]].
  destruct (backendVerifyUrl (cfg cl)) as [| |b|n|url|l|o];
    try (apply Hleft; [reflexivity | reflexivity | tauto]).
  destruct (0 <? strlen url);
    [|apply Hleft; [reflexivity | reflexivity | tauto]].
  match goal with
  | |- context [verify_request ?a ?b ?c ?d] =>
      destruct (verify_request a b c d) as [request|err] eqn:Hreq
  end; [|apply Hleft; [reflexivity | reflexivity | tauto]].
  assert (Hn : n_callbacks [request] = 0%nat).
  { unfold verify_request in Hreq.
    destruct (Policy.resolveBackendVerifyUrl _ _); simpl in Hreq; [|discriminate].
    injection Hreq as <-. reflexivity. }
  intros H; injection H as <- <-. right.
  repeat split; try exact Hd; exact Hn.
Qed.

Local Transparent teardown.

(** Every event on a terminated handshake: it stays terminated, nothing is
    called back, the popup is not closed again. *)
Lemma fire_done (cl : closure) (st : state) (ev : event) :
  done st = true ->
  done (fst (fire cl st ev)) = true
  /\ n_callbacks (snd (fire cl st ev)) = 0%nat
  /\ ~ In PopupClose (snd (fire cl st ev)).
Proof.
  intros Hd. destruct ev as [e| | |o|]; cbn [fire].
  - unfold handler. rewrite Hd. simpl. auto.
  - unfold poll. destruct (popup_closed st); simpl; [|auto].
    repeat split; auto.
    + now destruct (timeoutId cl).
    + destruct (timeoutId cl); simpl; intuition discriminate.
  - unfold timed_out, finishFailure. rewrite finish_done by exact Hd. simpl. auto.
  - unfold resume. destruct (pending st) as [[jwt payload]|]; [|simpl; auto].
    unfold finishSuccess, finishFailure, finally.
    destruct (verify_response o); rewrite finish_done by exact Hd; simpl; auto.
  - simpl. auto.
Qed.

Lemma run_cons (f : closure -> state -> event -> state * list effect)
    (cl : closure) (st : state) (ev : event) (rest : list event) :
  run f cl st (ev :: rest)
  = (fst (run f cl (fst (f cl st ev)) rest),
     snd (f cl st ev) ++ snd (run f cl (fst (f cl st ev)) rest)).
Proof.
  simpl. unfold andthen. destruct (f cl st ev) as [st1 e1].
  simpl. now destruct (run f cl st1 rest).
Qed.

Lemma run_fire_done (cl : closure) (evs : list event) :
  forall st, done st = true ->
    done (fst (run fire cl st evs)) = true
    /\ n_callbacks (snd (run fire cl st evs)) = 0%nat
    /\ ~ In PopupClose (snd (run fire cl st evs)).
Proof.
  induction evs as [|ev rest IH]; intros st Hd.
  - simpl. auto.
  - rewrite run_cons. cbn [fst snd].
    destruct (fire_done cl st ev Hd) as [H1 [H2 H3]].
    destruct (IH _ H1) as [H4 [H5 H6]].
    repeat split; auto.
    + rewrite n_callbacks_app. lia.
    + intros Hin. apply in_app_or in Hin. tauto.
Qed.

(** One delivered event: a terminated handshake does nothing more; a live
    one stays live without calling back, or terminates, calling back
    last. *)
Lemma step_shape (cl : closure) (st : state) (ev : event) :
  (done st = true -> torn_down st) ->
  (done (fst (step cl st ev)) = true -> torn_down (fst (step cl st ev)))
  /\ (done st = true ->
       snd (step cl st ev) = [] /\ done (fst (step cl st ev)) = true)
  /\ (done st = false ->
       (done (fst (step cl st ev)) = false
        /\ n_callbacks (snd (step cl st ev)) = 0%nat)
       \/ (done (fst (step cl st ev)) = true
           /\ ending cl (snd (step cl st ev)))).
Proof.
  intros Hinv. unfold step.
  destruct (enabled st ev) eqn:Hen; cbn [fst snd].
  2:{ split; [exact Hinv|]. split; [auto|]. intros Hd. left. auto. }
  destruct (done st) eqn:Hd.
  - (* terminated: only a settling request is still delivered *)
    destruct (Hinv eq_refl) as [Hl [Hp [Ht [Ha Hc]]]].
    destruct ev as [e| | |o|]; cbn [enabled] in Hen; try congruence.
    + cbn [fire]. unfold resume.
      destruct (pending st) as [[jwt payload]|]; [|discriminate].
      unfold finishSuccess, finishFailure, finally.
      destruct (verify_response o); rewrite finish_done by exact Hd;
        cbn [fst snd]; (split; [intros _; repeat split; assumption|]);
        (split; [auto|discriminate]).
    + rewrite Hc in Hen. discriminate.
  - split; [|split; [discriminate|intros _]].
    + (* what terminates tears down *)
      destruct ev as [e| | |o|]; cbn [fire].
      * destruct (handler cl st e) as [|st' effs] eqn:Hh; cbn [fst].
        -- rewrite Hd. discriminate.
        -- destruct (handler_processed _ _ _ _ _ Hh) as [_ [[_ [H _]]|[H _]]];
             [auto | congruence].
      * unfold poll. destruct (popup_closed st); simpl; rewrite Hd; discriminate.
      * unfold timed_out, finishFailure. rewrite finish_live by exact Hd.
        intros _. apply torn_down_finished.
      * unfold resume. destruct (pending st) as [[jwt payload]|];
          [|simpl; rewrite Hd; discriminate].
        unfold finishSuccess, finishFailure, finally.
        destruct (verify_response o); rewrite finish_live by exact Hd;
          intros _; repeat split.
      * simpl. rewrite Hd. discriminate.
    + destruct ev as [e| | |o|]; cbn [fire].
      * destruct (handler cl st e) as [|st' effs] eqn:Hh; cbn [fst snd].
        -- left. auto.
        -- destruct (handler_processed _ _ _ _ _ Hh)
             as [_ [[H1 [_ [H2 _]]]|[H1 [H2 _]]]]; [right|left]; auto.
      * left. unfold poll. destruct (popup_closed st); simpl; [|auto].
        split; [exact Hd|]. now destruct (timeoutId cl).
      * right. unfold timed_out, finishFailure. rewrite finish_live by exact Hd.
        cbn [fst snd]. split; [reflexivity|]. apply ending_finish; [reflexivity | reflexivity | tauto].
      * unfold resume. destruct (pending st) as [[jwt payload]|]; [|left; auto].
        right. unfold finishSuccess, finishFailure, finally.
        destruct (verify_response o); rewrite finish_live by exact Hd;
          cbn [fst snd]; (split; [reflexivity|]);
          (apply ending_finish; [reflexivity | reflexivity | tauto]).
      * left. simpl. auto.
Qed.

Lemma run_step_shape (cl : closure) (evs : list event) :
  forall st,
    (done st = true -> torn_down st) ->
    (done (fst (run step cl st evs)) = true -> torn_down (fst (run step cl st evs)))
    /\ (done st = true ->
         snd (run step cl st evs) = [] /\ done (fst (run step cl st evs)) = true)
    /\ (done st = false ->
         (done (fst (run step cl st evs)) = false
          /\ n_callbacks (snd (run step cl st evs)) = 0%nat)
         \/ (done (fst (run step cl st evs)) = true
             /\ ending cl (snd (run step cl st evs)))).
Proof.
  induction evs as [|ev rest IH]; intros st Hinv.
  - simpl. split; [exact Hinv|]. split; [auto|]. intros Hd. left. auto.
  - rewrite run_cons. cbn [fst snd].
    destruct (step_shape cl st ev Hinv) as [Hinv1 [Hdone Hlive]].
    destruct (IH _ Hinv1) as [Hinv2 [Hdone2 Hlive2]].
    split; [exact Hinv2|]. split.
    + intros Hd. destruct (Hdone Hd) as [-> Hd1].
      destruct (Hdone2 Hd1) as [-> Hd2]. auto.
    + intros Hd. destruct (Hlive Hd) as [[Hd1 Hn1]|[Hd1 Hc1]].
      * destruct (Hlive2 Hd1) as [[Hd2 Hn2]|[Hd2 Hc2]].
        -- left. split; [exact Hd2|]. rewrite n_callbacks_app. lia.
        -- right. split; [exact Hd2|]. now apply ending_prepend.
      * right. destruct (Hdone2 Hd1) as [-> Hd2]. rewrite app_nil_r. auto.
Qed.

(** Nothing follows the callback of a trace that has its callback last,
    but the log of what it threw. *)
Lemma callback_last_spec (c : config) (t : list effect) :
  callback_last c t ->
  (n_callbacks t <= 1)%nat
  /\ (forall pre x post,
        t = pre ++ x :: post -> is_callback x = true ->
        post = after_callback c x).
Proof.
  assert (Hnone : forall l pre x post,
             n_callbacks l = 0%nat -> l = pre ++ x :: post ->
             is_callback x = true -> False).
  { intros l pre x post Hn -> Hx. rewrite n_callbacks_app in Hn.
    unfold n_callbacks in Hn. simpl in Hn. rewrite Hx in Hn. simpl in Hn. lia. }
  assert (Hsplit : forall pre0 x0 post0 pre x post,
             n_callbacks pre0 = 0%nat -> n_callbacks post0 = 0%nat ->
             pre0 ++ x0 :: post0 = pre ++ x :: post ->
             is_callback x = true -> post = post0 /\ x = x0).
  { induction pre0 as [|a pre0 IH]; intros x0 post0 pre x post Hpre Hpost Heq Hx.
    - destruct pre as [|y pre']; cbn in Heq.
      + injection Heq as -> ->. auto.
      + injection Heq as -> ->. exfalso.
        exact (Hnone _ _ _ _ Hpost eq_refl Hx).
    - destruct pre as [|y pre']; cbn in Heq.
      + injection Heq as -> _. unfold n_callbacks in Hpre. cbn in Hpre.
        rewrite Hx in Hpre. discriminate Hpre.
      + injection Heq as -> Heq. apply (IH x0 post0 pre' x post); auto.
        unfold n_callbacks in *. cbn in Hpre.
        destruct (is_callback y); [discriminate Hpre | exact Hpre]. }
  intros [Hn | [pre0 [x0 [-> [Hn Hx0]]]]].
  - split; [lia|]. intros pre x post Ht Hx. elim (Hnone _ _ _ _ Hn Ht Hx).
  - split.
    + change (x0 :: after_callback c x0) with ([x0] ++ after_callback c x0).
      rewrite !n_callbacks_app, n_callbacks_after, Hn.
      unfold n_callbacks. cbn. destruct (is_callback x0); cbn; lia.
    + intros pre x post Ht Hx.
      destruct (Hsplit _ _ _ _ _ _ Hn (n_callbacks_after c x0) Ht Hx) as [-> ->].
      reflexivity.
Qed.

End Termination.


Lemma empty_token_is_ignored_witness :
  AgeGate.fire (P := Example.platform)
    Example.running Example.listening (AgeGate.Message (Example.message ""))
  = (Example.listening, []).
Proof.
  apply (@empty_token_is_ignored Example.platform
           Example.running Example.listening (Example.message ""));
    reflexivity.
Defined.

(** C4: once [done] is set, [finishFailure] and [finishSuccess] return at
    once, and whatever event fires, message, time-out, poll tick or
    settling request, the handshake stays terminated, no callback is
    called and the popup is not closed again; so it is along any sequence
    of events. *)
Theorem terminated_is_final `{P : Platform}
    (cl : AgeGate.closure) (st : AgeGate.state) :
  AgeGate.done st = true ->
  (forall err, AgeGate.finishFailure cl st err = (st, []))
  /\ (forall jwt payload backendResult,
        AgeGate.finishSuccess cl st jwt payload backendResult = (st, []))
  /\ (forall ev,
        AgeGate.done (fst (AgeGate.fire cl st ev)) = true
        /\ AgeGate.n_callbacks (snd (AgeGate.fire cl st ev)) = 0%nat
        /\ ~ In AgeGate.PopupClose (snd (AgeGate.fire cl st ev)))
  /\ (forall evs,
        AgeGate.done (fst (AgeGate.run AgeGate.fire cl st evs)) = true
        /\ AgeGate.n_callbacks (snd (AgeGate.run AgeGate.fire cl st evs)) = 0%nat
        /\ ~ In AgeGate.PopupClose (snd (AgeGate.run AgeGate.fire cl st evs))).
Proof.
  intros Hd. repeat apply conj.
  - intros err. now apply finish_done.
  - intros jwt payload r. now apply finish_done.
  - intros ev. now apply fire_done.
  - intros evs. now apply run_fire_done.
Qed.

Lemma terminated_is_final_witness :
  let evs :=
    [AgeGate.Message (Example.message "H4s2MTJlNjIyZTYz");
     AgeGate.TimeoutFire; AgeGate.PollTick;
     AgeGate.BackendSettled Example.backend_ok] in
  AgeGate.done Example.terminated = true
  /\ AgeGate.n_callbacks
       (snd (AgeGate.run (AgeGate.fire (P := Example.platform))
               Example.running Example.terminated evs)) = 0%nat.
Proof.
  split; [reflexivity|].
  apply (@terminated_is_final Example.platform
           Example.running Example.terminated eq_refl).
Defined.

(* ----------------------------------------------------------------- *)
(** *** Whole executions *)

Section Executions.
Context {P : Platform}.
Import AgeGate WireSpec.

(** What [launchAgeGate] itself does: it stops, having called back last if
    at all; or it throws; or it leaves a live handshake, no callback
    called. *)
Lemma launch_shape (h : host) (c : config) :
  match launchAgeGate h c with
  | Stopped effs => callback_last c effs
  | Crashed effs _ => n_callbacks effs = 0%nat
  | Running cl st effs =>
      n_callbacks effs = 0%nat /\ done st = false
      /\ Policy.normalizeSession (randomUuid h) (session c) None
         = Ok (agegateway_session cl)
      /\ include cl = Policy.sanitizeInclude (includeRaw c) None
      /\ cfg cl = c
  end.
Proof.
  unfold launchAgeGate.
  destruct (negb (noReferrerMeta h) && requireNoReferrer c).
  { apply (callback_last_safeCallback c []); reflexivity. }
  assert (Hw : n_callbacks
                 (if negb (noReferrerMeta h)
                  then [ConsoleWarn "[agegate] Missing or incorrect: <meta name=referrer content=no-referrer>"]
                  else []) = 0%nat)
    by now destruct (negb (noReferrerMeta h)).
  destruct (Policy.normalizeSession _ _ _) as [s|err]; [|exact Hw].
  destruct (window_open h) as [w|].
  - repeat split. rewrite n_callbacks_app, Hw. simpl.
    destruct (timeoutMs c); try reflexivity.
    now destruct (timeout_valid (JNum n)).
  - destruct (allowFullPageFallback c).
    + left. rewrite n_callbacks_app, Hw. reflexivity.
    + rewrite app_assoc.
      apply callback_last_safeCallback; [|reflexivity|reflexivity].
      rewrite n_callbacks_app, Hw. reflexivity.
Qed.

End Executions.

(* ----------------------------------------------------------------- *)
(** *** The result payload *)

Section Payload.
Context {P : Platform}.
Import AgeGate WireSpec.

Lemma Forall_teardown (cl : closure) : Forall (effect_shape cl) (teardown cl).
Proof.
  unfold teardown. destruct (timeoutId cl); repeat constructor.
Qed.

Lemma Forall_safeCallback (cl : closure) (supplied : bool)
    (raised : option thrown) (x : effect) :
  effect_shape cl x -> Forall (effect_shape cl) (safeCallback supplied raised x).
Proof.
  intros Hx. unfold safeCallback.
  destruct supplied, raised; repeat constructor; exact Hx.
Qed.

Lemma finish_effect_shape (cl : closure) (st : state) (supplied : bool)
    (raised : option thrown) (x : effect) :
  effect_shape cl x ->
  Forall (effect_shape cl) (snd (finish cl st (safeCallback supplied raised x)))
  /\ pending (fst (finish cl st (safeCallback supplied raised x))) = pending st.
Proof.
  intros Hx. destruct (done st) eqn:Hd.
  - rewrite finish_done by exact Hd. simpl. auto.
  - rewrite finish_live by exact Hd. cbn [fst snd]. split; [|reflexivity].
    apply Forall_app. split; [apply Forall_teardown|].
    now apply Forall_safeCallback.
Qed.

Lemma handler_effect_shape (cl : closure) (st st' : state) (e : message_event)
    (effs : list effect) :
  handler cl st e = Processed st' effs ->
  pending_shape cl st ->
  pending_shape cl st' /\ Forall (effect_shape cl) effs.
Proof.
  intros H Hpend.
  assert (Hg : guards cl st e = true).
  { destruct (guards cl st e) eqn:Hg; [reflexivity|].
    apply handler_guards in Hg. congruence. }
  assert (Har : is_object (prop (ev_data e) "authenticationResponse") = true).
  { unfold guards in Hg. rewrite !andb_true_iff in Hg. tauto. }
  assert (Hpay : payload_shape cl
                   (make_payload (include cl) (agegateway_session cl)
                      (prop (ev_data e) "authenticationResponse"))).
  { eexists. split; [reflexivity | exact Har]. }
  revert H. unfold handler.
  repeat match goal with
         | |- context [if ?b then Ignored else _] =>
             destruct b; [discriminate|]
         end.
  assert (Hend : forall supplied raised x,
             effect_shape cl x ->
             (let (st2, effs0) :=
                finally (finish cl (set_processing true st)
                           (safeCallback supplied raised x)) in
              Processed st2 effs0) = Processed st' effs ->
             pending_shape cl st' /\ Forall (effect_shape cl) effs).
  { intros supplied raised x Hx.
    destruct (finish_effect_shape cl (set_processing true st) supplied raised x Hx)
      as [Hall Hp].
    unfold finally. intros H0; injection H0 as <- <-.
    split; [|exact Hall].
    intros jwt payload Hsome. apply (Hpend jwt).
    cbn [set_processing pending] in Hsome. rewrite Hp in Hsome. exact Hsome. }
  unfold finishFailure, finishSuccess.
  destruct (decode_token _) as [jwt|err]; [|now apply Hend].
  destruct (backendVerifyUrl (cfg cl)) as [| |b|n|url|l|o];
    try (apply Hend; now apply Hpay).
  destruct (0 <? strlen url); [|apply Hend; now apply Hpay].
  match goal with
  | |- context [verify_request ?a ?b ?c ?d] =>
      destruct (verify_request a b c d) as [request|err] eqn:Hreq
  end; [|now apply Hend].
  intros H0; injection H0 as <- <-. split.
  - intros jwt' payload' Hsome. cbn in Hsome. injection Hsome as <- <-.
    apply Hpay.
  - unfold verify_request in Hreq.
    destruct (Policy.resolveBackendVerifyUrl _ _); simpl in Hreq; [|discriminate].
    injection Hreq as <-. constructor; [|constructor].
    cbn [effect_shape]. exists jwt. eexists. split; [reflexivity|]. apply Hpay.
Qed.

Lemma fire_effect_shape (cl : closure) (st : state) (ev : event) :
  pending_shape cl st ->
  pending_shape cl (fst (fire cl st ev))
  /\ Forall (effect_shape cl) (snd (fire cl st ev)).
Proof.
  intros Hpend. destruct ev as [e| | |o|]; cbn [fire].
  - destruct (handler cl st e) as [|st' effs] eqn:Hh; cbn [fst snd].
    + auto.
    + now apply (handler_effect_shape cl st st' e effs Hh).
  - unfold poll. destruct (popup_closed st); cbn [fst snd]; [|auto].
    split; [exact Hpend|]. simpl. destruct (timeoutId cl); repeat constructor.
  - unfold timed_out, finishFailure.
    destruct (finish_effect_shape cl (timer_fired st) (onFailure (cfg cl))
                (onFailure_throws (cfg cl))
                (OnFailure (asError (ErrorObj "Timed out waiting for age verification")
                              "agegate failure")) I) as [Hall Hp].
    split; [|exact Hall].
    intros jwt payload Hsome. rewrite Hp in Hsome. now apply (Hpend jwt).
  - unfold resume. destruct (pending st) as [[jwt payload]|] eqn:Hsome; [|auto].
    assert (Hshape : payload_shape cl payload) by now apply (Hpend jwt).
    unfold finishSuccess, finishFailure, finally.
    destruct (verify_response o) as [r|err].
    + destruct (finish_effect_shape cl (set_pending None st) (onSuccess (cfg cl))
                  (onSuccess_throws (cfg cl))
                  (OnSuccess jwt payload r) Hshape) as [Hall Hp].
      cbn [fst snd]. split; [|exact Hall].
      intros jwt' payload' H'. cbn [set_processing pending] in H'.
      rewrite Hp in H'. discriminate H'.
    + destruct (finish_effect_shape cl (set_pending None st) (onFailure (cfg cl))
                  (onFailure_throws (cfg cl))
                  (OnFailure (asError err "agegate failure")) I) as [Hall Hp].
      cbn [fst snd]. split; [|exact Hall].
      intros jwt' payload' H'. cbn [set_processing pending] in H'.
      rewrite Hp in H'. discriminate H'.
  - cbn [fst snd]. split; [exact Hpend | constructor].
Qed.

Lemma run_effect_shape (cl : closure) (evs : list event) :
  forall st, pending_shape cl st ->
    Forall (effect_shape cl) (snd (run step cl st evs)).
Proof.
  induction evs as [|ev rest IH]; intros st Hpend.
  - constructor.
  - rewrite run_cons. cbn [snd]. apply Forall_app.
    unfold step. destruct (enabled st ev).
    + destruct (fire_effect_shape cl st ev Hpend) as [H1 H2]. auto.
    + cbn [fst snd]. auto.
Qed.

Lemma launch_effect_shape (h : host) (c : config) (cl : closure) (st : state)
    (effs : list effect) :
  launchAgeGate h c = Running cl st effs ->
  Forall (effect_shape cl) effs /\ pending_shape cl st.
Proof.
  unfold launchAgeGate.
  destruct (negb (noReferrerMeta h) && requireNoReferrer c); [discriminate|].
  destruct (Policy.normalizeSession _ _ _) as [s|err]; [|discriminate].
  destruct (window_open h) as [w|];
    [|destruct (allowFullPageFallback c); discriminate].
  intros H; injection H as <- <- <-. split.
  - apply Forall_app. split; [destruct (negb (noReferrerMeta h)); repeat constructor|].
    repeat constructor.
    destruct (timeoutMs c); try constructor.
    destruct (timeout_valid (JNum n)); repeat constructor.
  - intros jwt payload H. discriminate H.
Qed.

(** Neither a success nor a request comes of a launch that stops or
    throws. *)
Lemma launch_stopped_shape (h : host) (c : config) (x : effect) :
  (forall cl st effs, launchAgeGate h c <> Running cl st effs) ->
  In x (snd (execute h c [])) ->
  match x with
  | OnSuccess _ _ _ | Fetch _ _ _ => False
  | _ => True
  end.
Proof.
  intros Hstop. unfold execute, launchAgeGate in *.
  destruct (negb (noReferrerMeta h) && requireNoReferrer c).
  { unfold safeCallback.
    destruct (onFailure c), (onFailure_throws c); cbn;
      intuition (subst; exact I). }
  destruct (Policy.normalizeSession _ _ _) as [s|err].
  2:{ destruct (negb (noReferrerMeta h)); cbn; intuition (subst; exact I). }
  destruct (window_open h) as [w|].
  { elim (Hstop _ _ _ eq_refl). }
  unfold safeCallback.
  destruct (allowFullPageFallback c), (onFailure c), (onFailure_throws c),
    (negb (noReferrerMeta h)); cbn; intuition (subst; exact I).
Qed.

(** JSON writes an array of strings as it is. *)
Lemma to_json_strings (l : list string) :
  to_json (JArr (map JStr l)) = JArr (map JStr l).
Proof.
  cbn [to_json]. f_equal. rewrite map_map. reflexivity.
Qed.

(** The body of the request, member by member. *)
Lemma json_fields_request (jwt s : string) (inc : option (list string))
    (ar : jsval) :
  is_object ar = true ->
  json_fields (("jwt", JStr jwt)
               :: [("include", include_value inc);
                   ("agegateway_session", JStr s);
                   ("authenticationResponse", ar)])
  = [("jwt", JStr jwt)]
    ++ match inc with
       | Some l => [("include", JArr (map JStr l))]
       | None => []
       end
    ++ [("agegateway_session", JStr s); ("authenticationResponse", to_json ar)].
Proof.
  intros Har. unfold json_fields.
  destruct ar; try discriminate Har;
    destruct inc as [l|]; cbn [include_value];
    try (pose proof (to_json_strings l) as Hl);
    cbn [to_json app] in *; try injection Hl as Hl; rewrite ?Hl; reflexivity.
Qed.

End Payload.

(** C2, as amended: a payload handed to the success callback is the
    object [{ include, agegateway_session, authenticationResponse }], the
    session of the handshake under the name [agegateway_session], the
    [include] being the sanitised list, or [undefined] when there is
    none; the body of the verification request is the JSON text of that
    object after [jwt], which has an [include] only when there is a
    sanitised list; neither has a field named [session]. *)
Theorem payload_fields `{P : Platform}
    (h : AgeGate.host) (c : AgeGate.config) (evs : list AgeGate.event) :
  let t := snd (AgeGate.execute h c evs) in
  let include := Policy.sanitizeInclude (AgeGate.includeRaw c) None in
  (forall jwt payload backendResult,
     In (AgeGate.OnSuccess jwt payload backendResult) t ->
     exists s authenticationResponse,
       Policy.normalizeSession (AgeGate.randomUuid h) (AgeGate.session c) None
       = Ok s
       /\ is_object authenticationResponse = true
       /\ payload
          = [("include", match include with
                         | Some inc => JArr (map JStr inc)
                         | None => JUndefined
                         end);
             ("agegateway_session", JStr s);
             ("authenticationResponse", authenticationResponse)]
       /\ lookup "session" payload = None)
  /\ (forall url headers body,
        In (AgeGate.Fetch url headers body) t ->
        exists jwt s authenticationResponse,
          Policy.normalizeSession (AgeGate.randomUuid h) (AgeGate.session c) None
          = Ok s
          /\ is_object authenticationResponse = true
          /\ body
             = [("jwt", JStr jwt)]
               ++ match include with
                  | Some inc => [("include", JArr (map JStr inc))]
                  | None => []
                  end
               ++ [("agegateway_session", JStr s);
                   ("authenticationResponse", to_json authenticationResponse)]
          /\ lookup "session" body = None).
Proof.
  cbv zeta. unfold AgeGate.execute.
  pose proof (launch_shape h c) as Hl.
  pose proof (launch_effect_shape h c) as Hs.
  pose proof (launch_stopped_shape h c) as Hstop.
  unfold AgeGate.execute in Hstop.
  destruct (AgeGate.launchAgeGate h c) as [effs|effs err|cl st effs] eqn:Hlaunch.
  - cbn [snd] in *.
    split; intros; match goal with
                   | H : In _ effs |- _ =>
                       elim (Hstop _ ltac:(discriminate) H)
                   end.
  - cbn [snd] in *.
    split; intros; match goal with
                   | H : In _ effs |- _ =>
                       elim (Hstop _ ltac:(discriminate) H)
                   end.
  - clear Hstop. destruct Hl as [_ [_ [Hses [Hinc _]]]].
    destruct (Hs cl st effs eq_refl) as [Heffs Hpend].
    pose proof (run_effect_shape cl evs st Hpend) as Hrun.
    destruct (AgeGate.run AgeGate.step cl st evs) as [st' t].
    cbn [fst snd] in *.
    assert (Hall : Forall (WireSpec.effect_shape cl) (effs ++ t))
      by (apply Forall_app; auto).
    rewrite Forall_forall in Hall. rewrite <- Hinc.
    split.
    + intros jwt payload r Hin.
      destruct (Hall _ Hin) as [ar [-> Har]].
      exists (AgeGate.agegateway_session cl), ar.
      split; [exact Hses|]. split; [exact Har|]. split; [reflexivity|].
      reflexivity.
    + intros url headers body Hin.
      destruct (Hall _ Hin) as [jwt [payload [-> [ar [-> Har]]]]].
      exists jwt, (AgeGate.agegateway_session cl), ar.
      split; [exact Hses|]. split; [exact Har|].
      rewrite (json_fields_request _ _ _ _ Har).
      split; [reflexivity|].
      destruct (AgeGate.include cl); reflexivity.
Qed.

Lemma payload_fields_witness :
  exists jwt s authenticationResponse,
    Policy.normalizeSession (AgeGate.randomUuid Example.page)
      (AgeGate.session Example.callbacks_backend) None = Ok s
    /\ is_object authenticationResponse = true
    /\ [("jwt", JStr "a.b.c");
        ("include", JArr [JStr "session"; JStr "loa"]);
        ("agegateway_session", JStr Example.session_id);
        ("authenticationResponse", JObj [])]
       = [("jwt", JStr jwt)]
         ++ match Policy.sanitizeInclude
                    (AgeGate.includeRaw Example.callbacks_backend) None with
            | Some inc => [("include", JArr (map JStr inc))]
            | None => []
            end
         ++ [("agegateway_session", JStr s);
             ("authenticationResponse", to_json authenticationResponse)]
    /\ lookup "session"
         [("jwt", JStr "a.b.c");
          ("include", JArr [JStr "session"; JStr "loa"]);
          ("agegateway_session", JStr Example.session_id);
          ("authenticationResponse", JObj [])] = None.
Proof.
  apply (proj2 (@payload_fields Example.platform
                  Example.page Example.callbacks_backend
                  [AgeGate.Message (Example.message "H4s2MTJlNjIyZTYz")])
           "https://rp.example/api/verify"
           [("content-type", JStr "application/json")]).
  vm_compute. repeat (first [left; reflexivity | right]).
Defined.

(** C2, as stated, fails: the payload a successful handshake hands over
    has no field named [session], the session being its
    [agegateway_session]; and with no include list the body of the
    verification request has no [include] either. *)
Lemma payload_has_no_session_field :
  (exists payload,
     In (AgeGate.OnSuccess "a.b.c" payload JNull)
        (snd (AgeGate.execute (P := Example.platform)
                Example.page Example.callbacks
                [AgeGate.Message (Example.message "H4s2MTJlNjIyZTYz")]))
     /\ lookup "session" payload = None
     /\ lookup "agegateway_session" payload = Some (JStr Example.session_id))
  /\ (exists url headers body,
        In (AgeGate.Fetch url headers body)
           (snd (AgeGate.execute (P := Example.platform)
                   Example.page Example.callbacks_backend_plain
                   [AgeGate.Message (Example.message "H4s2MTJlNjIyZTYz")]))
        /\ lookup "session" body = None
        /\ lookup "include" body = None).
Proof.
  split.
  - eexists. split; [|split].
    + vm_compute. do 7 right. left. reflexivity.
    + reflexivity.
    + reflexivity.
  - eexists _, _, _. split; [|split].
    + vm_compute. do 3 right. left. reflexivity.
    + reflexivity.
    + reflexivity.
Qed.

(* ----------------------------------------------------------------- *)
(** *** The backend URL *)

Section BackendUrl.
Context {P : Platform}.
Import Policy PolicySpec.

Lemma existsb_allowlisted (u : URL) (o : url_policy) :
  match allowedOrigins o with
  | JArr entries => existsb (origin_allowed u) entries
  | _ => false
  end = true <-> allowlisted u o.
Proof.
  unfold allowlisted. split.
  - destruct (allowedOrigins o) as [| |b|n|s|entries|f]; try discriminate.
    intros H. apply existsb_exists in H. destruct H as [x [Hin Hx]].
    destruct x as [| |b|n|str|l|f]; try discriminate Hx. simpl in Hx.
    destruct (URL_new str None) as [a|] eqn:Ha; [|discriminate].
    apply String.eqb_eq in Hx. exists entries, str, a. auto.
  - intros [entries [str [a [-> [Hin [Ha Ho]]]]]].
    apply existsb_exists. exists (JStr str). split; [exact Hin|].
    simpl. rewrite Ha. now apply String.eqb_eq.
Qed.

Lemma strlen_eqb_zero (s : string) : (strlen s =? 0) = false <-> s <> "".
Proof.
  rewrite Z.eqb_neq. split.
  - intros H ->. now apply H.
  - intros H Hz. now apply H, strlen_zero.
Qed.

End BackendUrl.

(** C5: let the URL resolve against [pageHref] to [u], the page being at
    [page], on a platform where the empty string is no URL and no origin is
    empty. If the origin of [u] is [pageOrigin], the call returns [u] in
    full exactly when the scheme of [u] is https or that of the page, and
    throws otherwise. If it is not, the call throws unless
    [allowCrossOrigin] is set and some entry of [allowedOrigins] has the
    origin of [u], and then it throws unless the scheme is https; with all
    of that it returns [u] in full. *)
Theorem resolveBackendVerifyUrl_policy `{P : Platform}
    (raw : string) (o : Policy.url_policy) (u page : URL) :
  URL_new "" None = None ->
  origin u <> "" ->
  URL_new raw (Some (Policy.pageHref o)) = Some u ->
  URL_new (Policy.pageHref o) None = Some page ->
  let result := Policy.resolveBackendVerifyUrl raw (Some o) in
  let https := protocol u = "https:" in
  (origin u = Policy.pageOrigin o ->
     (https \/ protocol u = protocol page -> result = Ok (href u))
     /\ (~ (https \/ protocol u = protocol page) -> throws result))
  /\ (origin u <> Policy.pageOrigin o ->
       (~ (Policy.allowCrossOrigin o = true /\ PolicySpec.allowlisted u o) ->
          throws result)
       /\ (~ https -> throws result)
       /\ (Policy.pageOrigin o <> "" ->
           Policy.allowCrossOrigin o = true -> PolicySpec.allowlisted u o ->
           https -> result = Ok (href u))).
Proof.
  intros Hempty Horigin Hu Hpage. cbv zeta.
  assert (Hhref : (strlen (Policy.pageHref o) =? 0) = false).
  { apply strlen_eqb_zero. intros Hz. rewrite Hz in Hpage. congruence. }
  unfold Policy.resolveBackendVerifyUrl. rewrite Hhref.
  pose proof (existsb_allowlisted u o) as Hallow.
  split.
  - intros Hsame.
    assert (Hpo : (strlen (Policy.pageOrigin o) =? 0) = false).
    { apply strlen_eqb_zero. congruence. }
    rewrite Hpo, Hu. cbn zeta.
    rewrite (proj2 (String.eqb_eq _ _) Hsame). cbn [negb andb bind].
    rewrite Hpage.
    destruct (String.eqb_spec (protocol u) "https:") as [Hs|Hs]; cbn [negb].
    + split; [reflexivity|]. intros Hn. elim Hn. now left.
    + destruct (String.eqb_spec (protocol u) (protocol page)) as [Hp|Hp];
        cbn [negb].
      * split; [reflexivity|]. intros Hn. elim Hn. now right.
      * split; [intros [H|H]; contradiction|]. intros _. eexists. reflexivity.
  - intros Hcross.
    apply String.eqb_neq in Hcross.
    destruct (strlen (Policy.pageOrigin o) =? 0) eqn:Hpo.
    { split; [|split]; try (intros _; eexists; reflexivity).
      intros Hne. apply strlen_eqb_zero in Hne. congruence. }
    rewrite Hu. cbn zeta. rewrite Hcross. cbn [negb andb].
    destruct (Policy.allowCrossOrigin o) eqn:Hac; cbn [negb].
    2:{ split; [|split]; try (intros _; eexists; reflexivity).
        intros _ Hf. discriminate Hf. }
    destruct (match Policy.allowedOrigins o with
              | JArr entries => existsb (Policy.origin_allowed u) entries
              | _ => false
              end) eqn:Hex; cbn [negb bind].
    2:{ split; [|split]; try (intros _; eexists; reflexivity).
        intros _ _ Hal. apply Hallow in Hal. discriminate Hal. }
    destruct (String.eqb_spec (protocol u) "https:") as [Hs|Hs]; cbn [negb].
    + split; [|split].
      * intros Hn. elim Hn. split; [reflexivity|]. now apply Hallow.
      * intros Hn. contradiction.
      * reflexivity.
    + split; [|split]; try (intros _; eexists; reflexivity).
      intros _ _ _ Hh. contradiction.
Qed.

Lemma resolveBackendVerifyUrl_policy_witness :
  Policy.resolveBackendVerifyUrl (P := Example.platform) "/api/verify"
    (Some {| Policy.pageHref := "https://rp.example/path";
             Policy.pageOrigin := "https://rp.example";
             Policy.allowCrossOrigin := false;
             Policy.allowedOrigins := JArr [] |})
  = Ok "https://rp.example/api/verify".
Proof.
  refine (proj1 (proj1 (@resolveBackendVerifyUrl_policy Example.platform
           "/api/verify"
           {| Policy.pageHref := "https://rp.example/path";
              Policy.pageOrigin := "https://rp.example";
              Policy.allowCrossOrigin := false;
              Policy.allowedOrigins := JArr [] |}
           {| href := "https://rp.example/api/verify";
              origin := "https://rp.example";
              protocol := "https:" |}
           {| href := "https://rp.example/path";
              origin := "https://rp.example";
              protocol := "https:" |}
           eq_refl _ eq_refl eq_refl) eq_refl) (or_introl eq_refl)).
  simpl. discriminate.
Defined.

(* ----------------------------------------------------------------- *)
(** *** The token codec: failures of [b64urlToBytes] *)

Section TokenFailures.
Context {P : Platform}.
Import Token TokenSpec.

Lemma length_string_map (f : ascii -> ascii) (s : string) :
  String.length (string_map f s) = String.length s.
Proof. induction s as [|c r IH]; simpl; congruence. Qed.

Lemma strlen_to_base64_alphabet (s : string) :
  strlen (to_base64_alphabet s) = strlen s.
Proof.
  unfold strlen, to_base64_alphabet, replace_char.
  now rewrite !length_string_map.
Qed.

Lemma length_list_byte_of_string (s : string) :
  length (list_byte_of_string s) = String.length s.
Proof.
  unfold list_byte_of_string. rewrite length_map.
  induction s as [|c r IH]; simpl; congruence.
Qed.

(** The two replacements translate every character at once. *)
Lemma to_base64_alphabet_standard (s : string) :
  to_base64_alphabet s = standard s.
Proof.
  unfold to_base64_alphabet, replace_char, standard.
  induction s as [|c r IH]; [reflexivity|].
  cbn [string_map]. rewrite IH. f_equal.
  destruct c as [[] [] [] [] [] [] [] []]; reflexivity.
Qed.

(** The text handed to the decoder is [normalized s], whenever the length
    check lets it through. *)
Lemma padding_normalized (s : string) :
  strlen s mod 4 <> 1 ->
  (if strlen (to_base64_alphabet s) mod 4 =? 2
   then Ok (to_base64_alphabet s ++ "==")%string
   else if strlen (to_base64_alphabet s) mod 4 =? 3
   then Ok (to_base64_alphabet s ++ "=")%string
   else if negb (strlen (to_base64_alphabet s) mod 4 =? 0)
   then throw_msg "invalid base64url length"
   else Ok (to_base64_alphabet s)) = Ok (normalized s).
Proof.
  intros Hpad. unfold normalized.
  rewrite strlen_to_base64_alphabet, to_base64_alphabet_standard.
  pose proof (Z.mod_pos_bound (strlen s) 4 eq_refl) as Hb.
  destruct (strlen s mod 4 =? 2) eqn:H2; [reflexivity|].
  destruct (strlen s mod 4 =? 3) eqn:H3; [reflexivity|].
  destruct (strlen s mod 4 =? 0) eqn:H0; [reflexivity|].
  apply Z.eqb_neq in H2, H3, H0. lia.
Qed.

(** What [b64urlToBytes] comes to, case by case. *)
Lemma b64urlToBytes_cases (v : jsval) (l : option partial_limits) :
  match b64urlToBytes v l with
  | Throw e => exists f, applies l v f /\ e = ErrorObj (message_of f)
  | Ok out =>
      (~ exists f, applies l v f)
      /\ exists s bin, v = JStr s /\ atob (normalized s) = Ok bin
                       /\ out = list_byte_of_string bin
  end.
Proof.
  unfold b64urlToBytes. cbv zeta.
  destruct (token_merge l) as [Hchars [Hbytes _]]. rewrite Hchars, Hbytes.
  destruct v as [| |b|n|s|items|o];
    try (exists NotAString; split; [intros s Hs; discriminate Hs | reflexivity]).
  destruct (strlen s =? 0) eqn:Hz.
  { exists Empty. split; [|reflexivity].
    apply Z.eqb_eq, strlen_zero in Hz. now subst. }
  destruct (js_gt (strlen s) (LimitsSpec.char_ceiling l)) eqn:Hbig.
  { exists TooManyChars. split; [|reflexivity].
    exists s. split; [reflexivity|]. now apply js_gt_above. }
  destruct (Z.eq_dec (strlen s mod 4) 1) as [Hone|Hpad].
  { rewrite strlen_to_base64_alphabet, Hone. cbn [Z.eqb negb bind throw_msg].
    exists BadLength. split; [|reflexivity]. exists s. auto. }
  rewrite (padding_normalized s Hpad). cbn [bind]. unfold base64ToBytes.
  destruct (atob (normalized s)) as [bin|err] eqn:Hatob; cbn [bind].
  2:{ exists (Undecodable (text_of err)). split; [|reflexivity].
      exists s, err. auto. }
  rewrite length_list_byte_of_string. fold (strlen bin).
  destruct (js_gt (strlen bin) (LimitsSpec.byte_ceiling l)) eqn:Hmany.
  { exists TooManyBytes. split; [|reflexivity].
    exists s, bin. repeat split; auto. now apply js_gt_above. }
  split; [|exists s, bin; auto].
  apply Z.eqb_neq in Hz. apply js_gt_not_above in Hbig, Hmany.
  intros [f Hf]. destruct f; cbn [applies] in Hf.
  - now apply (Hf s).
  - injection Hf as ->. now apply Hz.
  - destruct Hf as [s' [Hs Hlen]]. injection Hs as <-. contradiction.
  - destruct Hf as [s' [Hs Hlen]]. injection Hs as <-. lia.
  - destruct Hf as [s' [err [Hs [Ha _]]]]. injection Hs as <-. congruence.
  - destruct Hf as [s' [bin' [Hs [Ha Hlen]]]]. injection Hs as <-.
    rewrite Hatob in Ha. injection Ha as <-. contradiction.
Qed.

Lemma message_of_kind (f g : failure) :
  message_of f = message_of g -> same_kind f g.
Proof.
  destruct f, g; simpl; intros H; try exact I; discriminate H.
Qed.

End TokenFailures.

(** C7: [b64urlToBytes] throws exactly when its argument is not a string,
    is empty, has more characters than the character ceiling, has a length
    of remainder 1 modulo 4, is not decodable once put in the standard
    alphabet and padded, or decodes to more bytes than the byte ceiling,
    each ceiling being the one the caller configures, or 64,000; the error
    thrown carries the message of a failure that applies, failures of
    different kinds have different messages; and otherwise the decoded
    bytes are returned. *)
Theorem b64urlToBytes_throws_exactly `{P : Platform}
    (v : jsval) (l : option Token.partial_limits) :
  (throws (Token.b64urlToBytes v l) <-> exists f, TokenSpec.applies l v f)
  /\ (forall e, Token.b64urlToBytes v l = Throw e ->
        exists f, TokenSpec.applies l v f
                  /\ e = ErrorObj (TokenSpec.message_of f))
  /\ (forall f g, TokenSpec.message_of f = TokenSpec.message_of g ->
        TokenSpec.same_kind f g)
  /\ ((~ exists f, TokenSpec.applies l v f) ->
        exists s bin,
          v = JStr s /\ atob (TokenSpec.normalized s) = Ok bin
          /\ Token.b64urlToBytes v l = Ok (list_byte_of_string bin)).
Proof.
  pose proof (b64urlToBytes_cases v l) as Hc.
  destruct (Token.b64urlToBytes v l) as [out|e].
  - destruct Hc as [Hnone [s [bin [Hv [Ha ->]]]]].
    split; [|split; [|split]].
    + split; [intros [e He]; discriminate He | intros Hf; contradiction].
    + intros e He. discriminate He.
    + apply message_of_kind.
    + intros _. exists s, bin. auto.
  - destruct Hc as [f [Hf ->]].
    split; [|split; [|split]].
    + split; [intros _; now exists f | intros _; eexists; reflexivity].
    + intros e He. injection He as <-. now exists f.
    + apply message_of_kind.
    + intros Hn. elim Hn. now exists f.
Qed.

(** A token of the two url-safe characters under configured ceilings: four
    characters and three bytes let it through, and it decodes to the bytes
    the standard gives for [+/+/]; six characters are too many; three bytes
    are too many under a ceiling of two. *)
Lemma b64urlToBytes_throws_exactly_witness :
  Token.b64urlToBytes (P := Example.platform) (JStr "-_-_")
    (Example.token_limits (Some (Num 4)) (Some (Num 3)) None)
  = Ok [xfb; xff; xbf]
  /\ Token.b64urlToBytes (P := Example.platform) (JStr "-_-_-_")
       (Example.token_limits (Some (Num 4)) None None)
     = throw_msg "token too large"
  /\ Token.b64urlToBytes (P := Example.platform) (JStr "-_-_")
       (Example.token_limits None (Some (Num 2)) None)
     = throw_msg "compressed token too large".
Proof.
  split; [|split].
  - destruct (@b64urlToBytes_throws_exactly Example.platform (JStr "-_-_")
                (Example.token_limits (Some (Num 4)) (Some (Num 3)) None))
      as [_ [_ [_ Hok]]].
    destruct Hok as [s [bin [Hv [Ha ->]]]].
    + intros [f Hf]. destruct f; cbn [TokenSpec.applies] in Hf.
      * elim (Hf "-_-_"). reflexivity.
      * discriminate Hf.
      * destruct Hf as [s [Hs Hbig]]. injection Hs as <-.
        vm_compute in Hbig. discriminate Hbig.
      * destruct Hf as [s [Hs Hbad]]. injection Hs as <-. discriminate Hbad.
      * destruct Hf as [s [err [Hs [Ha _]]]]. injection Hs as <-.
        vm_compute in Ha. discriminate Ha.
      * destruct Hf as [s [bin [Hs [Ha Hbig]]]]. injection Hs as <-.
        vm_compute in Ha. injection Ha as <-.
        vm_compute in Hbig. discriminate Hbig.
    + injection Hv as <-. vm_compute in Ha. injection Ha as <-. reflexivity.
  - destruct (@b64urlToBytes_throws_exactly Example.platform (JStr "-_-_-_")
                (Example.token_limits (Some (Num 4)) None None))
      as [Hiff [Hmsg _]].
    assert (Hthrows : throws (Token.b64urlToBytes (P := Example.platform)
                                (JStr "-_-_-_")
                                (Example.token_limits (Some (Num 4)) None None))).
    { apply Hiff. exists TokenSpec.TooManyChars, "-_-_-_". split; reflexivity. }
    destruct Hthrows as [e He]. rewrite He.
    destruct (Hmsg e He) as [f [Hf ->]].
    destruct f; cbn [TokenSpec.applies] in Hf.
    + elim (Hf "-_-_-_"). reflexivity.
    + discriminate Hf.
    + reflexivity.
    + destruct Hf as [s [Hs Hbad]]. injection Hs as <-. discriminate Hbad.
    + destruct Hf as [s [err [Hs [Ha _]]]]. injection Hs as <-.
      vm_compute in Ha. discriminate Ha.
    + destruct Hf as [s [bin [Hs [Ha Hbig]]]]. injection Hs as <-.
      vm_compute in Ha. injection Ha as <-.
      vm_compute in Hbig. discriminate Hbig.
  - destruct (@b64urlToBytes_throws_exactly Example.platform (JStr "-_-_")
                (Example.token_limits None (Some (Num 2)) None))
      as [Hiff [Hmsg _]].
    assert (Hthrows : throws (Token.b64urlToBytes (P := Example.platform)
                                (JStr "-_-_")
                                (Example.token_limits None (Some (Num 2)) None))).
    { apply Hiff. exists TokenSpec.TooManyBytes, "-_-_".
      eexists. split; [reflexivity|]. split; [vm_compute; reflexivity|].
      reflexivity. }
    destruct Hthrows as [e He]. rewrite He.
    destruct (Hmsg e He) as [f [Hf ->]].
    destruct f; cbn [TokenSpec.applies] in Hf.
    + elim (Hf "-_-_"). reflexivity.
    + discriminate Hf.
    + destruct Hf as [s [Hs Hbig]]. injection Hs as <-.
      vm_compute in Hbig. discriminate Hbig.
    + destruct Hf as [s [Hs Hbad]]. injection Hs as <-. discriminate Hbad.
    + destruct Hf as [s [err [Hs [Ha _]]]]. injection Hs as <-.
      vm_compute in Ha. discriminate Ha.
    + reflexivity.
Defined.

(* ----------------------------------------------------------------- *)
(** *** The token codec: hexadecimal *)

Section Hex.
Import Token TokenTest.

Lemma hex_pair_of_byte (b : byte) :
  byte_of_Z (16 * hex_value (hex_digit (Z_of_byte b / 16))
             + hex_value (hex_digit (Z_of_byte b mod 16))) = b.
Proof. destruct b; reflexivity. Qed.

Lemma is_hex_high (b : byte) : Policy.is_hex (hex_digit (Z_of_byte b / 16)) = true.
Proof. destruct b; reflexivity. Qed.

Lemma is_hex_low (b : byte) : Policy.is_hex (hex_digit (Z_of_byte b mod 16)) = true.
Proof. destruct b; reflexivity. Qed.

(** Reading back what [toString('hex')] wrote. *)
Lemma hex_pairs_hex_of_bytes (bs : list byte) : hex_pairs (hex_of_bytes bs) = bs.
Proof.
  induction bs as [|b rest IH]; [reflexivity|].
  cbn [hex_of_bytes hex_pairs]. now rewrite hex_pair_of_byte, IH.
Qed.

Lemma is_hex_hex_of_bytes (bs : list byte) :
  string_forallb Policy.is_hex (hex_of_bytes bs) = true.
Proof.
  induction bs as [|b rest IH]; [reflexivity|].
  cbn [hex_of_bytes string_forallb]. now rewrite is_hex_high, is_hex_low, IH.
Qed.

Lemma strlen_hex_of_bytes (bs : list byte) :
  strlen (hex_of_bytes bs) = 2 * Z.of_nat (length bs).
Proof.
  unfold strlen. induction bs as [|b rest IH]; [reflexivity|].
  cbn [hex_of_bytes String.length length]. lia.
Qed.

End Hex.

(* ----------------------------------------------------------------- *)
(** *** The token codec: the shape of base64 text *)

Section Base64Shape.
Import Token Base64.

(** Induction on a list three elements at a time. *)
Lemma list_ind3 (A : Type) (Q : list A -> Prop) :
  Q [] -> (forall a, Q [a]) -> (forall a b, Q [a; b]) ->
  (forall a b c l, Q l -> Q (a :: b :: c :: l)) ->
  forall l, Q l.
Proof.
  intros H0 H1 H2 H3 l.
  cut (Q l /\ (forall a, Q (a :: l)) /\ (forall a b, Q (a :: b :: l)));
    [tauto|].
  induction l as [|x r [IH0 [IH1 IH2]]]; repeat split; auto.
Qed.

Lemma Z_of_byte_range (b : byte) : 0 <= Z_of_byte b < 256.
Proof.
  unfold Z_of_byte. pose proof (Byte.to_N_bounded b). lia.
Qed.

Lemma in_alphabet_sextet (n : Z) :
  0 <= n < 64 -> in_alphabet (char_of_sextet n) = true.
Proof.
  intros Hn. rewrite <- (Z2Nat.id n) by lia.
  assert (Hk : (Z.to_nat n < 64)%nat) by lia.
  revert Hk. generalize (Z.to_nat n). intros k Hk.
  do 64 (destruct k as [|k]; [reflexivity|]). lia.
Qed.

(** On a character of the alphabet, the url-safe spelling is undone by
    [to_base64_alphabet], and it is never the padding character. *)
Lemma url_safe_char (c : ascii) :
  in_alphabet c = true ->
  to_base64_alphabet
    (replace_char "/" "_" (replace_char "+" "-" (String c ""))) = String c ""
  /\ replace_char "/" "_" (replace_char "+" "-" (String c "")) <> "=".
Proof.
  destruct c as [[] [] [] [] [] [] [] []]; intros H; try discriminate H;
    split; try reflexivity; discriminate.
Qed.

Lemma string_map_app (f : ascii -> ascii) (a b : string) :
  string_map f (a ++ b)%string = (string_map f a ++ string_map f b)%string.
Proof. induction a as [|c r IH]; simpl; congruence. Qed.

Lemma url_safe_undone (body : string) :
  string_forallb in_alphabet body = true ->
  to_base64_alphabet (replace_char "/" "_" (replace_char "+" "-" body)) = body.
Proof.
  induction body as [|c r IH]; [reflexivity|].
  cbn [string_forallb]. intros H. apply andb_true_iff in H. destruct H as [Hc Hr].
  destruct (url_safe_char c Hc) as [H1 _].
  unfold to_base64_alphabet, replace_char in *. cbn [string_map] in *.
  injection H1 as H1. rewrite H1. f_equal. now apply IH.
Qed.

Lemma url_safe_no_padding (body : string) :
  string_forallb in_alphabet body = true ->
  string_forallb (fun c => negb (c =? "=")%char)
    (replace_char "/" "_" (replace_char "+" "-" body)) = true.
Proof.
  induction body as [|c r IH]; [reflexivity|].
  cbn [string_forallb]. intros H. apply andb_true_iff in H. destruct H as [Hc Hr].
  destruct (url_safe_char c Hc) as [_ H2].
  unfold replace_char in *. cbn [string_map string_forallb] in *.
  rewrite (IH Hr), andb_true_r. apply negb_true_iff, Ascii.eqb_neq.
  intros Heq. apply H2. now rewrite Heq.
Qed.

(** A suffix of characters to drop, after characters to keep, is
    dropped. *)
Lemma dropWhileEnd_app (p : ascii -> bool) (a b : string) :
  string_forallb (fun c => negb (p c)) a = true ->
  string_forallb p b = true ->
  dropWhileEnd p (a ++ b)%string = a.
Proof.
  intros Ha Hb. induction a as [|c r IH].
  - simpl. induction b as [|c r IHb]; [reflexivity|].
    cbn [string_forallb] in Hb. apply andb_true_iff in Hb. destruct Hb as [Hc Hr].
    cbn [dropWhileEnd]. now rewrite (IHb Hr), Hc.
  - cbn [string_forallb] in Ha. apply andb_true_iff in Ha. destruct Ha as [Hc Hr].
    cbn [String.append dropWhileEnd]. rewrite (IH Hr).
    apply negb_true_iff in Hc. rewrite Hc. now destruct r.
Qed.

(** The body of an encoding is made of characters of the alphabet. *)
Lemma encode_body_alphabet (bs : list byte) :
  string_forallb in_alphabet (encode_body bs) = true.
Proof.
  induction bs as [| a | a b | a b c rest IH] using list_ind3;
    cbn [encode_body string_forallb]; rewrite ?IH, ?andb_true_r;
    repeat (apply andb_true_iff; split);
    try reflexivity; apply in_alphabet_sextet;
    pose proof (Z_of_byte_range a);
    try pose proof (Z_of_byte_range b);
    try pose proof (Z_of_byte_range c);
    Z.to_euclidean_division_equations; lia.
Qed.

(** It is at least as long as what it encodes. *)
Lemma encode_body_length (bs : list byte) :
  (length bs <= String.length (encode_body bs))%nat.
Proof.
  induction bs as [| a | a b | a b c rest IH] using list_ind3;
    cbn [encode_body String.length length]; lia.
Qed.

(** Its length tells the padding. *)
Lemma encode_body_padding (bs : list byte) :
  (strlen (encode_body bs) mod 4 = 0 /\ padding bs = "")
  \/ (strlen (encode_body bs) mod 4 = 2 /\ padding bs = "==")
  \/ (strlen (encode_body bs) mod 4 = 3 /\ padding bs = "=").
Proof.
  unfold strlen.
  induction bs as [| a | a b | a b c rest IH] using list_ind3.
  - left. split; reflexivity.
  - right. left. split; reflexivity.
  - right. right. split; reflexivity.
  - assert (Hpad : padding (a :: b :: c :: rest) = padding rest).
    { unfold padding. cbn [length].
      replace (S (S (S (length rest)))) with (length rest + 1 * 3)%nat by lia.
      now rewrite Nat.Div0.mod_add. }
    assert (Hlen : Z.of_nat (String.length (encode_body (a :: b :: c :: rest))) mod 4
                   = Z.of_nat (String.length (encode_body rest)) mod 4).
    { cbn [encode_body String.length].
      replace (Z.of_nat (S (S (S (S (String.length (encode_body rest)))))))
        with (Z.of_nat (String.length (encode_body rest)) + 1 * 4) by lia.
      apply Z.mod_add. lia. }
    rewrite Hpad, Hlen. exact IH.
Qed.

End Base64Shape.

(* ----------------------------------------------------------------- *)
(** *** The token codec: round trip *)

Section RoundTrip.
Context {P : Platform}.
Import Token TokenTest.

(** The token of some bytes is the body of their base64 text, spelled
    url-safe. *)
Lemma bytesToB64url_body (bytes : list byte) :
  bytesToB64url bytes
  = replace_char "/" "_" (replace_char "+" "-" (Base64.encode_body bytes)).
Proof.
  unfold bytesToB64url, Base64.encode, replace_char.
  rewrite !string_map_app.
  assert (Hpad : string_map (fun c => if (c =? "/")%char then "_"%char else c)
                   (string_map (fun c => if (c =? "+")%char then "-"%char else c)
                      (Base64.padding bytes)) = Base64.padding bytes
                 /\ string_forallb (fun c => (c =? "=")%char) (Base64.padding bytes)
                    = true).
  { unfold Base64.padding.
    destruct (length bytes mod 3)%nat as [|[|[|k]]]; split; reflexivity. }
  destruct Hpad as [-> Hall].
  apply dropWhileEnd_app; [|exact Hall].
  apply (url_safe_no_padding _ (encode_body_alphabet bytes)).
Qed.

(** Translated back and padded, it is their base64 text again. *)
Lemma normalized_bytesToB64url (bytes : list byte) :
  TokenSpec.normalized (bytesToB64url bytes) = Base64.encode bytes
  /\ strlen (bytesToB64url bytes) mod 4 <> 1
  /\ Z.of_nat (length bytes) <= strlen (bytesToB64url bytes).
Proof.
  rewrite bytesToB64url_body. unfold TokenSpec.normalized.
  rewrite <- !to_base64_alphabet_standard.
  rewrite (url_safe_undone _ (encode_body_alphabet bytes)).
  assert (Hlen : strlen (replace_char "/" "_"
                           (replace_char "+" "-" (Base64.encode_body bytes)))
                 = strlen (Base64.encode_body bytes)).
  { unfold strlen, replace_char. now rewrite !length_string_map. }
  rewrite Hlen. unfold Base64.encode.
  split; [|split].
  - destruct (encode_body_padding bytes) as [[-> ->]|[[-> ->]|[-> ->]]];
      cbn [Z.eqb Pos.eqb]; [|reflexivity|reflexivity].
    symmetry. clear. induction (Base64.encode_body bytes); simpl; congruence.
  - destruct (encode_body_padding bytes) as [[H _]|[[H _]|[H _]]]; lia.
  - pose proof (encode_body_length bytes). unfold strlen. lia.
Qed.

End RoundTrip.

(** C6, as amended: a credential that is not empty, that the UTF-8 codec
    of the platform reads back as written, whose hexadecimal text is within
    512,000 characters and whose token is within 64,000, where [ungzip]
    undoes [gzip] and [atob] reads the base64 text of the compressed bytes:
    its token decodes to those bytes, the hexadecimal text decodes to the
    credential, and the whole pipeline of the handler gives the credential
    back. *)
Theorem token_round_trip `{P : Platform} (jwt : string) :
  let hex := TokenTest.utf8ToHex jwt in
  let gz := gzip hex in
  let token := TokenTest.encode_token jwt in
  jwt <> "" ->
  utf8_decode (utf8_encode jwt) = jwt ->
  ungzip gz = Ok (JStr hex) ->
  atob (Base64.encode gz) = Ok (string_of_list_byte gz) ->
  0 < strlen hex <= 512000 ->
  0 < strlen token <= 64000 ->
  Token.b64urlToBytes (JStr token) None = Ok gz
  /\ Token.hexToUtf8String (JStr hex) None = Ok jwt
  /\ AgeGate.decode_token (JStr token) = Ok jwt.
Proof.
  cbv zeta. unfold TokenTest.encode_token.
  set (hex := TokenTest.utf8ToHex jwt). set (gz := gzip hex).
  intros Hne Hutf Hgz Hatob Hhex Htok.
  destruct (normalized_bytesToB64url gz) as [Hnorm [Hpad Hlen]].
  assert (Hb64 : Token.b64urlToBytes (JStr (TokenTest.bytesToB64url gz)) None = Ok gz).
  { unfold Token.b64urlToBytes. cbn [Token.merge].
    change (Token.maxTokenB64urlChars Token.DEFAULT_LIMITS)
      with (Num (inject_Z 64000)).
    change (Token.maxGzipBytes Token.DEFAULT_LIMITS) with (Num (inject_Z 64000)).
    cbv zeta. rewrite !js_gt_Z.
    replace (strlen (TokenTest.bytesToB64url gz) =? 0) with false
      by (symmetry; apply Z.eqb_neq; lia).
    replace (64000 <? strlen (TokenTest.bytesToB64url gz)) with false
      by (symmetry; apply Z.ltb_ge; lia).
    rewrite (padding_normalized _ Hpad), Hnorm. cbn [bind].
    unfold Token.base64ToBytes. rewrite Hatob. cbn [bind].
    rewrite list_byte_of_string_of_list_byte, ?js_gt_Z.
    replace (64000 <? Z.of_nat (length gz)) with false
      by (symmetry; apply Z.ltb_ge; lia).
    reflexivity. }
  assert (Hdec : Token.hexToUtf8String (JStr hex) None = Ok jwt).
  { unfold Token.hexToUtf8String. cbn [Token.merge].
    change (Token.maxInflatedChars Token.DEFAULT_LIMITS)
      with (Num (inject_Z 512000)).
    rewrite js_gt_Z.
    replace (strlen hex =? 0) with false by (symmetry; apply Z.eqb_neq; lia).
    unfold hex, TokenTest.utf8ToHex.
    rewrite strlen_hex_of_bytes, is_hex_hex_of_bytes, hex_pairs_hex_of_bytes.
    replace (2 * Z.of_nat (length (utf8_encode jwt)) mod 2) with 0
      by (rewrite Z.mul_comm, Z.mod_mul; lia).
    cbn [Z.eqb negb].
    replace (512000 <? 2 * Z.of_nat (length (utf8_encode jwt))) with false.
    - now rewrite Hutf.
    - symmetry. apply Z.ltb_ge. unfold hex, TokenTest.utf8ToHex in Hhex.
      rewrite strlen_hex_of_bytes in Hhex. lia. }
  split; [exact Hb64|]. split; [exact Hdec|].
  unfold AgeGate.decode_token. rewrite Hb64. cbn [bind]. rewrite Hgz. cbn [bind].
  cbn [typeof String.eqb Ascii.eqb Bool.eqb negb]. rewrite Hdec. cbn [bind].
  replace (strlen jwt =? 0) with false; [reflexivity|].
  symmetry. apply Z.eqb_neq. intros Hz. now apply Hne, strlen_zero.
Qed.

Lemma token_round_trip_witness :
  AgeGate.decode_token (P := Example.platform)
    (JStr (TokenTest.encode_token (P := Example.platform) "header.payload.signature"))
  = Ok "header.payload.signature".
Proof.
  refine (proj2 (proj2 (@token_round_trip Example.platform
                          "header.payload.signature" _ eq_refl eq_refl eq_refl _ _))).
  - discriminate.
  - vm_compute. split; [reflexivity | discriminate].
  - vm_compute. split; [reflexivity | discriminate].
Defined.

(** C6, as stated, fails on the empty credential: its hexadecimal text is
    empty, which [hexToUtf8String] refuses, so its token does not decode to
    it. *)
Lemma empty_credential_does_not_round_trip :
  TokenTest.utf8ToHex (P := Example.platform) "" = ""
  /\ Token.hexToUtf8String (P := Example.platform) (JStr "") None
     = throw_msg "hex must be non-empty"
  /\ AgeGate.decode_token (P := Example.platform)
       (JStr (TokenTest.encode_token (P := Example.platform) ""))
     = throw_msg "hex must be non-empty"
  /\ AgeGate.decode_token (P := Example.platform)
       (JStr (TokenTest.encode_token (P := Example.platform) "")) <> Ok "".
Proof. repeat split. discriminate. Qed.

(* ----------------------------------------------------------------- *)
(** *** The decoder of the standard reads what the encoder writes *)

Section Base64Decode.
Import Token Base64.

Lemma sextet_of_char_of_sextet (n : Z) :
  0 <= n < 64 -> sextet_of_char (char_of_sextet n) = Some n.
Proof.
  intros Hn. rewrite <- (Z2Nat.id n) at 2 by lia. rewrite <- (Z2Nat.id n) at 1 by lia.
  assert (Hk : (Z.to_nat n < 64)%nat) by lia.
  revert Hk. generalize (Z.to_nat n). intros k Hk.
  do 64 (destruct k as [|k]; [reflexivity|]). lia.
Qed.

Lemma byte_of_Z_of_byte (b : byte) : byte_of_Z (Z_of_byte b) = b.
Proof. destruct b; reflexivity. Qed.

(** The six-bit values of a body, and the bytes they stand for. *)
Lemma decode_sextets_encode_body (bs : list byte) :
  exists ns,
    sextets (list_ascii_of_string (encode_body bs)) = Some ns
    /\ decode_sextets ns = bs.
Proof.
  induction bs as [| a | a b | a b c rest [ns [Hns Hdec]]] using list_ind3.
  - exists []. split; reflexivity.
  - pose proof (Z_of_byte_range a) as Ha.
    exists [Z_of_byte a / 4; (Z_of_byte a mod 4) * 16].
    cbn [encode_body list_ascii_of_string sextets].
    rewrite !sextet_of_char_of_sextet
      by (Z.to_euclidean_division_equations; lia).
    split; [reflexivity|]. cbn [decode_sextets].
    replace (Z_of_byte a / 4 * 4 + Z_of_byte a mod 4 * 16 / 16)
      with (Z_of_byte a) by (Z.to_euclidean_division_equations; lia).
    now rewrite byte_of_Z_of_byte.
  - pose proof (Z_of_byte_range a) as Ha. pose proof (Z_of_byte_range b) as Hb.
    exists [Z_of_byte a / 4; (Z_of_byte a mod 4) * 16 + Z_of_byte b / 16;
            (Z_of_byte b mod 16) * 4].
    cbn [encode_body list_ascii_of_string sextets].
    rewrite !sextet_of_char_of_sextet
      by (Z.to_euclidean_division_equations; lia).
    split; [reflexivity|]. cbn [decode_sextets].
    replace (Z_of_byte a / 4 * 4 + (Z_of_byte a mod 4 * 16 + Z_of_byte b / 16) / 16)
      with (Z_of_byte a) by (Z.to_euclidean_division_equations; lia).
    replace ((Z_of_byte a mod 4 * 16 + Z_of_byte b / 16) mod 16 * 16
             + Z_of_byte b mod 16 * 4 / 4)
      with (Z_of_byte b) by (Z.to_euclidean_division_equations; lia).
    now rewrite !byte_of_Z_of_byte.
  - pose proof (Z_of_byte_range a) as Ha. pose proof (Z_of_byte_range b) as Hb.
    pose proof (Z_of_byte_range c) as Hc.
    exists (Z_of_byte a / 4 :: (Z_of_byte a mod 4) * 16 + Z_of_byte b / 16
            :: (Z_of_byte b mod 16) * 4 + Z_of_byte c / 64
            :: Z_of_byte c mod 64 :: ns).
    cbn [encode_body list_ascii_of_string sextets]. rewrite Hns.
    rewrite !sextet_of_char_of_sextet
      by (Z.to_euclidean_division_equations; lia).
    split; [reflexivity|]. cbn [decode_sextets]. rewrite Hdec.
    replace (Z_of_byte a / 4 * 4 + (Z_of_byte a mod 4 * 16 + Z_of_byte b / 16) / 16)
      with (Z_of_byte a) by (Z.to_euclidean_division_equations; lia).
    replace ((Z_of_byte a mod 4 * 16 + Z_of_byte b / 16) mod 16 * 16
             + (Z_of_byte b mod 16 * 4 + Z_of_byte c / 64) / 4)
      with (Z_of_byte b) by (Z.to_euclidean_division_equations; lia).
    replace ((Z_of_byte b mod 16 * 4 + Z_of_byte c / 64) mod 4 * 64
             + Z_of_byte c mod 64)
      with (Z_of_byte c) by (Z.to_euclidean_division_equations; lia).
    now rewrite !byte_of_Z_of_byte.
Qed.

Lemma alphabet_char_facts (c : ascii) :
  in_alphabet c = true ->
  is_ascii_whitespace c = false /\ (c =? "=")%char = false.
Proof.
  destruct c as [[] [] [] [] [] [] [] []]; intros H; try discriminate H;
    split; reflexivity.
Qed.

Lemma list_ascii_of_string_app (a b : string) :
  list_ascii_of_string (a ++ b)%string
  = list_ascii_of_string a ++ list_ascii_of_string b.
Proof. induction a as [|c r IH]; simpl; congruence. Qed.

Lemma length_list_ascii_of_string (s : string) :
  length (list_ascii_of_string s) = String.length s.
Proof. induction s as [|c r IH]; simpl; congruence. Qed.

Lemma alphabet_no_whitespace (body : string) :
  string_forallb in_alphabet body = true ->
  filter (fun c => negb (is_ascii_whitespace c)) (list_ascii_of_string body)
  = list_ascii_of_string body.
Proof.
  induction body as [|c r IH]; [reflexivity|].
  cbn [string_forallb]. intros H. apply andb_true_iff in H. destruct H as [Hc Hr].
  destruct (alphabet_char_facts c Hc) as [Hws _].
  cbn [list_ascii_of_string filter]. rewrite Hws. cbn [negb]. now rewrite IH.
Qed.

Lemma alphabet_last_not_padding (body : string) (c : ascii) (r : list ascii) :
  string_forallb in_alphabet body = true ->
  rev (list_ascii_of_string body) = c :: r ->
  (c =? "=")%char = false.
Proof.
  intros Hall Hrev.
  assert (Hin : In c (list_ascii_of_string body)).
  { apply in_rev. rewrite Hrev. now left. }
  clear Hrev. induction body as [|x s IH]; [contradiction|].
  cbn [string_forallb] in Hall. apply andb_true_iff in Hall.
  destruct Hall as [Hx Hs]. destruct Hin as [->|Hin]; [|now apply IH].
  now destruct (alphabet_char_facts c Hx).
Qed.

Lemma mod4_after (n k : nat) (r : Z) :
  Z.of_nat n mod 4 = r -> (r + Z.of_nat k) mod 4 = 0 ->
  ((n + k) mod 4 =? 0)%nat = true.
Proof.
  intros Hn Hk. apply Nat.eqb_eq, Nat2Z.inj.
  rewrite (Nat2Z.inj_mod (n + k) 4), Nat2Z.inj_add.
  change (Z.of_nat 4) with 4. change (Z.of_nat 0) with 0.
  Z.to_euclidean_division_equations; lia.
Qed.

(** [Base64.decode] after [Base64.encode] gives the bytes back, as a
    binary string. *)
Lemma decode_encode (bs : list byte) :
  decode (encode bs) = Ok (string_of_list_byte bs).
Proof.
  pose proof (encode_body_alphabet bs) as Hall.
  destruct (decode_sextets_encode_body bs) as [ns [Hns Hdec]].
  pose proof (length_list_ascii_of_string (encode_body bs)) as Hlen.
  assert (Hmod : forall n : nat, Z.of_nat (n mod 4) = Z.of_nat n mod 4)
    by (intros n; apply (Nat2Z.inj_mod n 4)).
  assert (Hclean :
            remove_padding
              (filter (fun c => negb (is_ascii_whitespace c))
                 (list_ascii_of_string (encode bs)))
            = list_ascii_of_string (encode_body bs)
            /\ (length (list_ascii_of_string (encode_body bs)) mod 4 =? 1)%nat = false).
  { assert (Hone : (length (list_ascii_of_string (encode_body bs)) mod 4 =? 1)%nat
                   = false).
    { apply Nat.eqb_neq. rewrite Hlen. intros Hone.
      pose proof (Hmod (String.length (encode_body bs))) as Hz.
      rewrite Hone in Hz. change (Z.of_nat 1) with 1 in Hz.
      destruct (encode_body_padding bs) as [[Hm _]|[[Hm _]|[Hm _]]];
        unfold strlen in Hm; lia. }
    split; [|exact Hone].
    unfold encode. rewrite list_ascii_of_string_app, filter_app.
    rewrite (alphabet_no_whitespace _ Hall).
    set (lb := list_ascii_of_string (encode_body bs)) in *.
    destruct (encode_body_padding bs) as [[Hm ->]|[[Hm ->]|[Hm ->]]];
      unfold strlen in Hm.
    - assert (Hpad : filter (fun c => negb (is_ascii_whitespace c))
                       (list_ascii_of_string "") = []) by reflexivity.
      rewrite Hpad, app_nil_r. unfold remove_padding.
      destruct (length lb mod 4 =? 0)%nat; [|reflexivity].
      destruct (rev lb) as [|c1 [|c2 r]] eqn:Hrev; try reflexivity.
      now rewrite (alphabet_last_not_padding _ _ _ Hall Hrev).
    - assert (Hpad : filter (fun c => negb (is_ascii_whitespace c))
                       (list_ascii_of_string "==") = ["="%char; "="%char])
        by reflexivity.
      rewrite Hpad. unfold remove_padding.
      assert (H4 : (length (lb ++ ["="%char; "="%char]) mod 4 =? 0)%nat = true).
      { rewrite length_app, Hlen. now apply (mod4_after _ 2 _ Hm). }
      rewrite H4, rev_app_distr. cbn [rev app Ascii.eqb Bool.eqb].
      apply rev_involutive.
    - assert (Hpad : filter (fun c => negb (is_ascii_whitespace c))
                       (list_ascii_of_string "=") = ["="%char])
        by reflexivity.
      rewrite Hpad. unfold remove_padding.
      assert (H4 : (length (lb ++ ["="%char]) mod 4 =? 0)%nat = true).
      { rewrite length_app, Hlen. now apply (mod4_after _ 1 _ Hm). }
      rewrite H4, rev_app_distr. cbn [rev app].
      destruct (rev lb) as [|c2 r] eqn:Hrev.
      + apply (f_equal (@rev ascii)) in Hrev. rewrite rev_involutive in Hrev.
        cbn [rev] in Hrev. rewrite Hrev in Hlen. cbn [length] in Hlen.
        rewrite <- Hlen in Hm. discriminate Hm.
      + cbn [Ascii.eqb Bool.eqb].
        rewrite (alphabet_last_not_padding _ _ _ Hall Hrev).
        change (rev r ++ [c2]) with (rev (c2 :: r)).
        rewrite <- Hrev. apply rev_involutive. }
  destruct Hclean as [Hclean Hone].
  unfold decode. rewrite Hclean, Hone, Hns, Hdec. reflexivity.
Qed.

End Base64Decode.

(** So the assumption the round trip makes of [atob] holds, for all
    bytes, of a platform whose [atob] is the decoder of the standard. *)
Lemma standard_atob_reads_base64 (bs : list byte) :
  atob (Platform := Example.platform) (Base64.encode bs)
  = Ok (string_of_list_byte bs).
Proof. exact (decode_encode bs). Qed.

(* ================================================================= *)
(** * Further properties of the code *)

(* ----------------------------------------------------------------- *)
(** *** UUIDs *)

Section Uuids.
Import Policy.

Lemma forallb_string_app (p : ascii -> bool) (a b : string) :
  string_forallb p (a ++ b)%string = string_forallb p a && string_forallb p b.
Proof.
  induction a as [|c r IH]; simpl; [reflexivity|].
  now rewrite IH, andb_assoc.
Qed.

Lemma forallb_string_impl (p q : ascii -> bool) (s : string) :
  (forall c, p c = true -> q c = true) ->
  string_forallb p s = true -> string_forallb q s = true.
Proof.
  intros Hpq. induction s as [|c r IH]; simpl; [reflexivity|].
  rewrite !andb_true_iff. intros [Hc Hr]. auto.
Qed.

Lemma length_string_app (a b : string) :
  String.length (a ++ b)%string = (String.length a + String.length b)%nat.
Proof. induction a as [|c r IH]; simpl; congruence. Qed.

Lemma string_app_empty (a : string) : (a ++ "")%string = a.
Proof. induction a as [|c r IH]; simpl; congruence. Qed.

(** What [eat p n] consumes: [n] characters of class [p]. *)
Lemma eat_spec (p : ascii -> bool) (n : nat) :
  forall s r, eat p n s = Some r ->
    exists pre, s = (pre ++ r)%string /\ String.length pre = n
                /\ string_forallb p pre = true.
Proof.
  induction n as [|n IH]; intros s r H.
  - injection H as <-. exists "". auto.
  - destruct s as [|c s']; [discriminate H|]. cbn [eat] in H.
    destruct (p c) eqn:Hc; [|discriminate H].
    destruct (IH _ _ H) as [pre [-> [Hlen Hall]]].
    exists (String c pre). cbn. rewrite Hc, Hall, Hlen. auto.
Qed.

Lemma uuid_char_classes (c : ascii) :
  (is_hex c = true -> is_js_space c = false)
  /\ (is_dash c = true -> is_js_space c = false)
  /\ (is_1_5 c = true -> is_hex c = true)
  /\ (is_89ab c = true -> is_hex c = true).
Proof.
  destruct c as [[] [] [] [] [] [] [] []];
    repeat split; intros H; try reflexivity; discriminate H.
Qed.

(** A string without white space is its own trimming. *)
Lemma trim_without_space (s : string) :
  string_forallb (fun c => negb (is_js_space c)) s = true -> trim s = s.
Proof.
  intros H. unfold trim, trimEnd.
  assert (Hstart : trimStart s = s).
  { destruct s as [|c r]; [reflexivity|]. cbn in *.
    apply andb_true_iff in H. destruct H as [Hc _].
    apply negb_true_iff in Hc. now rewrite Hc. }
  rewrite Hstart. clear Hstart.
  induction s as [|c r IH]; [reflexivity|].
  cbn in H. apply andb_true_iff in H. destruct H as [Hc Hr].
  cbn [dropWhileEnd]. rewrite (IH Hr).
  apply negb_true_iff in Hc. rewrite Hc. now destruct r.
Qed.

(** The anatomy of what [isUuid] accepts. *)
Lemma isUuid_anatomy (s : string) :
  isUuid s = true ->
  exists a b v c w d e,
    s = (a ++ "-" ++ b ++ "-" ++ String v c ++ "-" ++ String w d ++ "-" ++ e)%string
    /\ (String.length a = 8 /\ String.length b = 4 /\ String.length c = 3
        /\ String.length d = 3 /\ String.length e = 12)%nat
    /\ string_forallb is_hex (a ++ b ++ c ++ d ++ e)%string = true
    /\ is_1_5 v = true /\ is_89ab w = true.
Proof.
  unfold isUuid, UUID_RE_test. cbn [andThen].
  repeat match goal with
         | |- context [andThen (eat ?p ?n ?s) _] =>
             let r := fresh "r" in
             let E := fresh "E" in
             destruct (eat p n s) as [r|] eqn:E; cbn [andThen];
             [apply eat_spec in E | discriminate]
         end.
  destruct (eat is_hex 12 r8) as [r9|] eqn:E9; [|discriminate].
  apply eat_spec in E9. destruct r9; [|discriminate]. intros _.
  destruct E as [a [-> [La Ha]]]. destruct E0 as [d1 [-> [L1 H1]]].
  destruct E1 as [b [-> [Lb Hb]]]. destruct E2 as [d2 [-> [L2 H2]]].
  destruct E3 as [v [-> [Lv Hv]]]. destruct E4 as [c [-> [Lc Hc]]].
  destruct E5 as [d3 [-> [L3 H3]]]. destruct E6 as [w [-> [Lw Hw]]].
  destruct E7 as [d [-> [Ld Hd]]]. destruct E8 as [d4 [-> [L4 H4]]].
  destruct E9 as [e [-> [Le He]]].
  assert (Hdash : forall x, String.length x = 1%nat ->
                    string_forallb is_dash x = true -> x = "-").
  { intros [|x [|y r]] Hl Hx; try discriminate Hl. cbn in Hx.
    rewrite andb_true_r in Hx. unfold is_dash in Hx.
    apply Ascii.eqb_eq in Hx. now subst. }
  apply Hdash in H1, H2, H3, H4; try assumption. subst d1 d2 d3 d4.
  destruct v as [|v [|? ?]]; try discriminate Lv.
  destruct w as [|w [|? ?]]; try discriminate Lw.
  cbn in Hv, Hw. rewrite andb_true_r in Hv, Hw.
  exists a, b, v, c, w, d, e.
  rewrite string_app_empty.
  split; [reflexivity|]. split; [auto|].
  split; [|auto].
  rewrite !forallb_string_app, Ha, Hb, Hc, Hd, He. reflexivity.
Qed.

(** What [isUuid] accepts: its length and its characters. *)
Lemma isUuid_chars (s : string) :
  Policy.isUuid s = true ->
  String.length s = 36%nat
  /\ string_forallb (fun c => Policy.is_hex c || Policy.is_dash c) s = true.
Proof.
  intros H.
  destruct (isUuid_anatomy s H)
    as [a [b [v [c [w [d [e [-> [[La [Lb [Lc [Ld Le]]]] [Hall [Hv Hw]]]]]]]]]]].
  rewrite !forallb_string_app in Hall.
  repeat (apply andb_true_iff in Hall; destruct Hall as [? Hall]).
  split.
  - rewrite !length_string_app. cbn [String.length]. lia.
  - assert (Hh : forall x, string_forallb Policy.is_hex x = true ->
                   string_forallb (fun c => Policy.is_hex c || Policy.is_dash c) x = true).
    { intros x. apply forallb_string_impl. intros c0 Hc0. now rewrite Hc0. }
    destruct (uuid_char_classes v) as [_ [_ [Hv' _]]].
    destruct (uuid_char_classes w) as [_ [_ [_ Hw']]].
    rewrite !forallb_string_app. cbn [string_forallb].
    rewrite (Hv' Hv), (Hw' Hw), !Hh by assumption. reflexivity.
Qed.

(** It holds no white space. *)
Lemma isUuid_trimmed (s : string) : Policy.isUuid s = true -> trim s = s.
Proof.
  intros H. destruct (isUuid_chars s H) as [_ Hchars].
  apply trim_without_space.
  revert Hchars. apply forallb_string_impl. intros x Hx.
  apply negb_true_iff.
  destruct (uuid_char_classes x) as [Hhex [Hdash _]].
  apply orb_true_iff in Hx. destruct Hx; auto.
Qed.

End Uuids.

(** X1: a string [isUuid] accepts has 36 characters: dashes at 8, 13, 18
    and 23, a hexadecimal digit at each of the 32 other places, the one at
    14 from 1 to 5 and the one at 19 one of 8, 9, a, b; none of them is
    white space, so trimming it changes nothing. *)
Theorem isUuid_shape (s : string) :
  Policy.isUuid s = true ->
  String.length s = 36%nat
  /\ string_forallb (fun c => Policy.is_hex c || Policy.is_dash c) s = true
  /\ (String.get 8 s = Some "-"%char /\ String.get 13 s = Some "-"%char
      /\ String.get 18 s = Some "-"%char /\ String.get 23 s = Some "-"%char)
  /\ (forall i c,
        String.get i s = Some c ->
        if (i =? 8)%nat || (i =? 13)%nat || (i =? 18)%nat || (i =? 23)%nat
        then c = "-"%char
        else Policy.is_hex c = true)
  /\ (exists v w,
        String.get 14 s = Some v /\ Policy.is_1_5 v = true
        /\ String.get 19 s = Some w /\ Policy.is_89ab w = true)
  /\ trim s = s.
Proof.
  intros H. destruct (isUuid_chars s H) as [Hlen Hchars].
  split; [exact Hlen|]. split; [exact Hchars|].
  assert (Htrim : trim s = s) by now apply isUuid_trimmed.
  clear Hlen Hchars. revert Htrim.
  destruct (isUuid_anatomy s H)
    as [a [b [v [c [w [d [e [-> [[La [Lb [Lc [Ld Le]]]] [Hall [Hv Hw]]]]]]]]]]].
  clear H. intros Htrim.
  assert (Hv' : Policy.is_hex v = true)
    by exact (proj1 (proj2 (proj2 (uuid_char_classes v))) Hv).
  assert (Hw' : Policy.is_hex w = true)
    by exact (proj2 (proj2 (proj2 (uuid_char_classes w))) Hw).
  destruct a as [|a0 [|a1 [|a2 [|a3 [|a4 [|a5 [|a6 [|a7 [|? ?]]]]]]]]];
    try discriminate La.
  destruct b as [|b0 [|b1 [|b2 [|b3 [|? ?]]]]]; try discriminate Lb.
  destruct c as [|c0 [|c1 [|c2 [|? ?]]]]; try discriminate Lc.
  destruct d as [|d0 [|d1 [|d2 [|? ?]]]]; try discriminate Ld.
  destruct e as [|e0 [|e1 [|e2 [|e3 [|e4 [|e5 [|e6 [|e7 [|e8 [|e9 [|e10 [|e11
                   [|? ?]]]]]]]]]]]]]; try discriminate Le.
  clear La Lb Lc Ld Le.
  cbn [String.append string_forallb] in Hall.
  repeat (apply andb_true_iff in Hall; destruct Hall as [? Hall]).
  split; [repeat split|]. split; [|split; [|exact Htrim]].
  - clear Htrim. intros i ch Hget.
    do 36 (destruct i as [|i];
           [cbn in Hget; injection Hget as <-; cbn;
            first [reflexivity | assumption]|]).
    cbn in Hget. discriminate Hget.
  - exists v, w. repeat split; assumption.
Qed.

Lemma isUuid_shape_witness :
  String.length "550e8400-e29b-41d4-a716-446655440000" = 36%nat
  /\ exists v w,
       String.get 14 "550e8400-e29b-41d4-a716-446655440000" = Some v
       /\ Policy.is_1_5 v = true
       /\ String.get 19 "550e8400-e29b-41d4-a716-446655440000" = Some w
       /\ Policy.is_89ab w = true.
Proof.
  pose proof (isUuid_shape "550e8400-e29b-41d4-a716-446655440000" eq_refl)
    as [Hlen [_ [_ [_ [Hvw _]]]]].
  exact (conj Hlen Hvw).
Defined.

Section RandomUuids.
Import Policy Token TokenTest.

Lemma version_digit (b : byte) :
  hex_digit (Z_of_byte (byte_of_Z (Z.lor (Z.land (Z_of_byte b) 15) 64)) / 16)
  = "4"%char.
Proof. destruct b; reflexivity. Qed.

Lemma variant_digit (b : byte) :
  is_89ab
    (hex_digit (Z_of_byte (byte_of_Z (Z.lor (Z.land (Z_of_byte b) 63) 128)) / 16))
  = true.
Proof. destruct b; reflexivity. Qed.

(** Sixteen bytes, the version and variant bits set, formatted. *)
Lemma format_is_uuid (random : nat -> byte) :
  let u := Uuid.format (Uuid.set_version_bits (map random (seq 0 16))) in
  isUuid u = true /\ String.get 14 u = Some "4"%char.
Proof.
  cbv zeta.
  cbv [Uuid.format Uuid.set_version_bits Uuid.store Uuid.load Uuid.slice
       map seq nth hex_of_bytes String.length substring Nat.sub String.append].
  split.
  - unfold isUuid, UUID_RE_test.
    repeat (progress (cbn [andThen eat];
                      rewrite ?is_hex_high, ?is_hex_low, ?version_digit, ?variant_digit;
                      try change (is_1_5 "4"%char) with true;
                      try change (is_dash "-"%char) with true)).
    reflexivity.
  - cbn [String.get]. now rewrite version_digit.
Qed.

End RandomUuids.

(** X2: without [crypto.randomUUID] but with [crypto.getRandomValues],
    whatever bytes it writes, [randomUuid] returns a string that [isUuid]
    accepts, with 4 as its version digit. *)
Theorem randomUuid_is_uuid (c : Uuid.crypto) (random : nat -> byte) :
  Uuid.randomUUID c = None ->
  Uuid.getRandomValues c = Some random ->
  exists u, Uuid.randomUuid (Some c) = Ok u
            /\ Policy.isUuid u = true
            /\ String.get 14 u = Some "4"%char.
Proof.
  intros Hu Hr. unfold Uuid.randomUuid. rewrite Hu, Hr.
  eexists. split; [reflexivity|]. apply format_is_uuid.
Qed.

Lemma randomUuid_is_uuid_witness :
  Uuid.randomUuid
    (Some {| Uuid.randomUUID := None;
             Uuid.getRandomValues := Some (fun i => match i with
                                                    | 6%nat => xff
                                                    | 8%nat => x00
                                                    | _ => xab
                                                    end) |})
  = Ok "abababab-abab-4fab-80ab-abababababab".
Proof.
  destruct (randomUuid_is_uuid
              {| Uuid.randomUUID := None;
                 Uuid.getRandomValues := Some (fun i => match i with
                                                        | 6%nat => xff
                                                        | 8%nat => x00
                                                        | _ => xab
                                                        end) |}
              _ eq_refl eq_refl) as [u [Hu _]].
  reflexivity.
Defined.

(** X3: [normalizeSession] throws only what [randomUuid] throws, and what
    it returns is a string [isUuid] accepts whenever what [randomUuid]
    returns is one, for every input and every limits. With
    [crypto.getRandomValues] and no [crypto.randomUUID] it always
    returns such a string. *)
Theorem normalizeSession_gives_uuid (fresh : exc string) (v : jsval)
    (l : option Policy.partial_limits) :
  (forall e, Policy.normalizeSession fresh v l = Throw e -> fresh = Throw e)
  /\ ((forall u, fresh = Ok u -> Policy.isUuid u = true) ->
      forall s, Policy.normalizeSession fresh v l = Ok s -> Policy.isUuid s = true)
  /\ (forall c random,
        Uuid.randomUUID c = None -> Uuid.getRandomValues c = Some random ->
        fresh = Uuid.randomUuid (Some c) ->
        exists s, Policy.normalizeSession fresh v l = Ok s
                  /\ Policy.isUuid s = true).
Proof.
  assert (Hcases : Policy.normalizeSession fresh v l = fresh
                   \/ exists s, Policy.normalizeSession fresh v l = Ok s
                                /\ Policy.isUuid s = true).
  { unfold Policy.normalizeSession. destruct v; auto.
    destruct (_ || _); auto.
    destruct (Policy.isUuid (trim s)) eqn:Hu; cbn [negb]; eauto. }
  split; [|split].
  - intros e He. destruct Hcases as [Hf|[s [Hs _]]]; congruence.
  - intros Hfresh s Hs. destruct Hcases as [Hf|[s' [Hs' Hu]]].
    + apply Hfresh. congruence.
    + congruence.
  - intros c random Hu Hr ->.
    assert (Hex0 : exists u, Uuid.randomUuid (Some c) = Ok u
                             /\ Policy.isUuid u = true).
    { unfold Uuid.randomUuid. rewrite Hu, Hr. eexists.
      split; [reflexivity | apply format_is_uuid]. }
    destruct Hex0 as [u [Hok Huuid]].
    destruct Hcases as [Hf|Hex]; [|exact Hex].
    exists u. split; [congruence | exact Huuid].
Qed.

(** X4: a string [isUuid] accepts comes back from [normalizeSession] as it
    is, unless its 36 characters are more than the session ceiling, the one
    the caller configures or 64, and then a fresh identifier is returned
    instead. *)
Theorem normalizeSession_keeps_uuid (fresh : exc string) (s : string)
    (l : option Policy.partial_limits) :
  Policy.isUuid s = true ->
  (LimitsSpec.above 36 (LimitsSpec.session_ceiling l) ->
   Policy.normalizeSession fresh (JStr s) l = fresh)
  /\ (~ LimitsSpec.above 36 (LimitsSpec.session_ceiling l) ->
      Policy.normalizeSession fresh (JStr s) l = Ok s).
Proof.
  intros H. destruct (isUuid_chars s H) as [Hlen _].
  pose proof (isUuid_trimmed s H) as Htrim.
  destruct (policy_merge l) as [Hc _].
  unfold Policy.normalizeSession. rewrite Htrim, H, Hc.
  unfold strlen. rewrite Hlen.
  change (Z.of_nat 36) with 36. cbn [Z.eqb orb negb].
  split; intros Habove.
  - apply js_gt_above in Habove. now rewrite Habove.
  - apply js_gt_not_above in Habove. now rewrite Habove.
Qed.

(** With a ceiling of 10 the identifier is replaced, with one of 36.5 or
    with none configured it is kept. *)
Lemma normalizeSession_keeps_uuid_witness :
  let uuid := "550e8400-e29b-41d4-a716-446655440000" in
  let fresh := Ok "00000000-0000-4000-8000-000000000000" in
  Policy.normalizeSession fresh (JStr uuid)
    (Example.session_ceiling_at (Num 10)) = fresh
  /\ Policy.normalizeSession fresh (JStr uuid)
       (Example.session_ceiling_at (Num (73 # 2))) = Ok uuid
  /\ Policy.normalizeSession fresh (JStr uuid)
       (Example.session_ceiling_at NaN) = Ok uuid
  /\ Policy.normalizeSession fresh (JStr uuid) None = Ok uuid.
Proof.
  cbv zeta. split; [|split; [|split]].
  - apply (normalizeSession_keeps_uuid
             (Ok "00000000-0000-4000-8000-000000000000")
             "550e8400-e29b-41d4-a716-446655440000" _ eq_refl).
    reflexivity.
  - apply (normalizeSession_keeps_uuid
             (Ok "00000000-0000-4000-8000-000000000000")
             "550e8400-e29b-41d4-a716-446655440000" _ eq_refl).
    vm_compute. discriminate.
  - apply (normalizeSession_keeps_uuid
             (Ok "00000000-0000-4000-8000-000000000000")
             "550e8400-e29b-41d4-a716-446655440000" _ eq_refl).
    vm_compute. tauto.
  - apply (normalizeSession_keeps_uuid
             (Ok "00000000-0000-4000-8000-000000000000")
             "550e8400-e29b-41d4-a716-446655440000" None eq_refl).
    vm_compute. discriminate.
Defined.

(* ----------------------------------------------------------------- *)
(** *** The include list, under any limits *)

Section IncludeLimits.
Import Policy.

Lemma dropWhileEnd_cons (p : ascii -> bool) (c : ascii) (r : string) :
  dropWhileEnd p (String c r)
  = match dropWhileEnd p r with
    | EmptyString => if p c then EmptyString else String c EmptyString
    | String x y => String c (String x y)
    end.
Proof. reflexivity. Qed.

Lemma dropWhileEnd_idempotent (p : ascii -> bool) (s : string) :
  dropWhileEnd p (dropWhileEnd p s) = dropWhileEnd p s.
Proof.
  induction s as [|c r IH]; [reflexivity|].
  rewrite dropWhileEnd_cons. destruct (dropWhileEnd p r) as [|x y] eqn:Hr.
  - destruct (p c) eqn:Hc; [reflexivity|]. cbn [dropWhileEnd]. now rewrite Hc.
  - rewrite dropWhileEnd_cons, IH. reflexivity.
Qed.

Lemma trimStart_head (s : string) :
  trimStart s = ""
  \/ exists c r, trimStart s = String c r /\ is_js_space c = false.
Proof.
  induction s as [|c r IH]; [now left|].
  cbn [trimStart]. destruct (is_js_space c) eqn:Hc; [exact IH|].
  right. eauto.
Qed.

(** Trimming what is trimmed changes nothing. *)
Lemma trim_idempotent (s : string) : trim (trim s) = trim s.
Proof.
  unfold trim, trimEnd.
  assert (Hstart : trimStart (dropWhileEnd is_js_space (trimStart s))
                   = dropWhileEnd is_js_space (trimStart s)).
  { destruct (trimStart_head s) as [->|[c [r [-> Hc]]]]; [reflexivity|].
    rewrite dropWhileEnd_cons. destruct (dropWhileEnd is_js_space r).
    - rewrite Hc. cbn [trimStart]. now rewrite Hc.
    - cbn [trimStart]. now rewrite Hc. }
  rewrite Hstart. apply dropWhileEnd_idempotent.
Qed.

Lemma includes_true_iff (out : list string) (s : string) :
  includes out s = true <-> In s out.
Proof.
  induction out as [|x r IH]; simpl.
  - split; [discriminate | tauto].
  - rewrite orb_true_iff, IH, String.eqb_eq. tauto.
Qed.

(** An entry is added only to a list that has not reached the ceiling. *)
Lemma sanitize_loop_length (lim : limits) (items : list jsval) :
  forall out,
    length (sanitize_loop lim items out) = length out
    \/ js_ge (Z.of_nat (length (sanitize_loop lim items out)) - 1)
             (maxIncludeItems lim) = false.
Proof.
  induction items as [|item rest IH]; intros out; cbn [sanitize_loop]; [now left|].
  destruct (js_ge (Z.of_nat (length out)) (maxIncludeItems lim)) eqn:Hfull;
    [now left|].
  destruct item; try apply IH.
  destruct (_ || _); [apply IH|].
  destruct (negb _); [|apply IH].
  destruct (IH (out ++ [trim s])) as [Hsame|Hmore]; [|now right].
  right. rewrite Hsame, length_app. cbn [length].
  replace (Z.of_nat (length out + 1) - 1) with (Z.of_nat (length out)) by lia.
  exact Hfull.
Qed.

(** It keeps out duplicates. *)
Lemma sanitize_loop_NoDup (lim : limits) (items : list jsval) :
  forall out, NoDup out -> NoDup (sanitize_loop lim items out).
Proof.
  induction items as [|item rest IH]; intros out Hout; cbn [sanitize_loop];
    [assumption|].
  destruct (js_ge _ _); [assumption|].
  destruct item; try now apply IH.
  destruct (_ || _); [now apply IH|].
  destruct (includes out (trim s)) eqn:Hin; cbn [negb]; [now apply IH|].
  apply IH. apply NoDup_app; [assumption | repeat constructor; tauto |].
  intros x Hx [<-|[]].
  apply includes_true_iff in Hx. congruence.
Qed.

(** Whatever it adds is the trimming of a string entry, not empty and
    within the ceiling. *)
Lemma sanitize_loop_Forall (lim : limits) (Q : string -> Prop)
    (items : list jsval) :
  (forall str, In (JStr str) items ->
     trim str <> "" ->
     js_gt (strlen (trim str)) (maxIncludeItemLen lim) = false ->
     Q (trim str)) ->
  forall out, Forall Q out -> Forall Q (sanitize_loop lim items out).
Proof.
  induction items as [|item rest IH]; intros HQ out Hout; cbn [sanitize_loop];
    [assumption|].
  assert (HQ' : forall str, In (JStr str) rest ->
                  trim str <> "" ->
                  js_gt (strlen (trim str)) (maxIncludeItemLen lim) = false ->
                  Q (trim str))
    by (intros str Hin; apply HQ; now right).
  destruct (js_ge _ _); [assumption|].
  destruct item; try now apply IH.
  destruct (strlen (trim s) =? 0) eqn:Hz; cbn [orb]; [now apply IH|].
  destruct (js_gt (strlen (trim s)) (maxIncludeItemLen lim)) eqn:Hbig;
    [now apply IH|].
  destruct (negb _); [|now apply IH].
  apply IH; [assumption|]. apply Forall_app. split; [assumption|].
  constructor; [|constructor]. apply HQ; [now left| |exact Hbig].
  intros He. rewrite He in Hz. discriminate Hz.
Qed.

(** On a list of distinct, trimmed entries within the ceilings it adds
    them all. *)
Lemma sanitize_loop_fixed (lim : limits) (r : list string) :
  forall out,
    NoDup (out ++ r) ->
    Forall (fun s => trim s = s /\ s <> ""
                     /\ js_gt (strlen s) (maxIncludeItemLen lim) = false) r ->
    (r <> [] ->
     js_ge (Z.of_nat (length (out ++ r)) - 1) (maxIncludeItems lim) = false) ->
    sanitize_loop lim (map JStr r) out = out ++ r.
Proof.
  induction r as [|x r' IH]; intros out Hnd Hall Hlen.
  - cbn. now rewrite app_nil_r.
  - cbn [map sanitize_loop].
    specialize (Hlen ltac:(discriminate)).
    rewrite length_app in Hlen. cbn [length] in Hlen.
    assert (Hroom : js_ge (Z.of_nat (length out)) (maxIncludeItems lim) = false).
    { destruct (js_ge (Z.of_nat (length out)) (maxIncludeItems lim)) eqn:E;
        [|reflexivity].
      assert (Hle : Z.of_nat (length out)
                    <= Z.of_nat (length out + S (length r')) - 1) by lia.
      rewrite (js_ge_mono _ _ _ Hle E) in Hlen. discriminate Hlen. }
    rewrite Hroom.
    inversion Hall as [|? ? [Htrim [Hne Hmax]] Hall']; subst.
    rewrite Htrim.
    replace (strlen x =? 0) with false
      by (symmetry; apply Z.eqb_neq; intros Hz; now apply Hne, strlen_zero).
    rewrite Hmax. cbn [orb].
    assert (Hnotin : includes out x = false).
    { destruct (includes out x) eqn:Hin; [|reflexivity].
      apply includes_true_iff in Hin.
      apply NoDup_remove_2 in Hnd. elim Hnd.
      apply in_or_app. now left. }
    rewrite Hnotin. cbn [negb].
    rewrite IH.
    + now rewrite <- app_assoc.
    + now rewrite <- app_assoc.
    + assumption.
    + intros _. rewrite <- app_assoc, length_app. cbn [app length].
      exact Hlen.
Qed.

(** Run on what it returned, the loop returns it again. *)
Lemma sanitize_loop_again (lim : limits) (items : list jsval) :
  sanitize_loop lim (map JStr (sanitize_loop lim items [])) []
  = sanitize_loop lim items [].
Proof.
  apply (sanitize_loop_fixed lim _ []).
  - apply sanitize_loop_NoDup. constructor.
  - apply sanitize_loop_Forall; [|constructor].
    intros str Hin Hne Hmax. rewrite trim_idempotent. auto.
  - intros Hne. cbn [app].
    destruct (sanitize_loop_length lim items []) as [Hsame|Hroom];
      [|exact Hroom].
    destruct (sanitize_loop lim items []); [congruence | discriminate Hsame].
Qed.

End IncludeLimits.

(** X5: under any limits, a list [sanitizeInclude] returns is not empty
    and has no duplicates; when its last entry was added it had not reached
    the ceiling on entries, so that it has no more entries than a ceiling
    that is a whole number; and each entry is the trimming of a string
    entry of the input, not empty, its own trimming, and no longer than the
    ceiling on the length of an entry. The ceilings are those the caller
    configures, or 8 and 32. *)
Theorem sanitizeInclude_within_limits (v : jsval)
    (l : option Policy.partial_limits) (r : list string) :
  Policy.sanitizeInclude v l = Some r ->
  r <> [] /\ NoDup r
  /\ ~ LimitsSpec.reached (Z.of_nat (length r) - 1) (LimitsSpec.items_ceiling l)
  /\ (forall k, LimitsSpec.items_ceiling l = Num (inject_Z k) ->
        Z.of_nat (length r) <= k)
  /\ forall s, In s r ->
       trim s = s /\ s <> ""
       /\ ~ LimitsSpec.above (strlen s) (LimitsSpec.item_ceiling l)
       /\ (forall k, LimitsSpec.item_ceiling l = Num (inject_Z k) -> strlen s <= k)
       /\ exists items str, v = JArr items /\ In (JStr str) items /\ s = trim str.
Proof.
  unfold Policy.sanitizeInclude.
  destruct v as [| |b|n|s0|items|o]; try discriminate.
  destruct (policy_merge l) as [_ [Hitems Hitem]].
  set (lim := Policy.merge l) in *.
  destruct (0 <? Z.of_nat (length (Policy.sanitize_loop lim items []))) eqn:Hpos;
    [|discriminate].
  intros H. injection H as <-. apply Z.ltb_lt in Hpos.
  assert (Hroom : ~ LimitsSpec.reached
                      (Z.of_nat (length (Policy.sanitize_loop lim items [])) - 1)
                      (LimitsSpec.items_ceiling l)).
  { rewrite <- js_ge_reached, <- Hitems.
    destruct (sanitize_loop_length lim items []) as [Hsame|Hroom].
    - rewrite Hsame in Hpos. cbn in Hpos. lia.
    - rewrite Hroom. discriminate. }
  split; [intros He; rewrite He in Hpos; cbn in Hpos; lia|].
  split; [apply sanitize_loop_NoDup; constructor|].
  split; [exact Hroom|].
  split.
  - intros k Hk. rewrite Hk, reached_Z in Hroom. lia.
  - apply Forall_forall.
    apply sanitize_loop_Forall; [|constructor].
    intros str Hin Hne Hmax.
    rewrite trim_idempotent, Hitem in *. apply js_gt_not_above in Hmax.
    split; [reflexivity|]. split; [exact Hne|]. split; [exact Hmax|].
    split; [|now exists items, str].
    intros k Hk. rewrite Hk, above_Z in Hmax. lia.
Qed.

(** Under ceilings of 2 entries and 3 characters, and under a ceiling of
    one entry and a half. *)
Lemma sanitizeInclude_within_limits_witness :
  Policy.sanitizeInclude Example.include_input Example.two_of_three
  = Some ["loa"; "a"]
  /\ Z.of_nat (length ["loa"; "a"]) <= 2
  /\ Policy.sanitizeInclude Example.include_input Example.one_and_a_half
     = Some ["loa"; "session"]
  /\ ~ LimitsSpec.reached (Z.of_nat (length ["loa"; "session"]) - 1)
         (LimitsSpec.items_ceiling Example.one_and_a_half).
Proof.
  split; [reflexivity|]. split; [|split; [reflexivity|]].
  - exact (proj1 (proj2 (proj2 (proj2
             (sanitizeInclude_within_limits
                Example.include_input Example.two_of_three ["loa"; "a"]
                eq_refl))))
             2 eq_refl).
  - exact (proj1 (proj2 (proj2
             (sanitizeInclude_within_limits
                Example.include_input Example.one_and_a_half
                ["loa"; "session"] eq_refl)))).
Defined.

(** X6: sanitizing a sanitized list gives it back, under the same
    limits. *)
Theorem sanitizeInclude_idempotent (v : jsval)
    (l : option Policy.partial_limits) (r : list string) :
  Policy.sanitizeInclude v l = Some r ->
  Policy.sanitizeInclude (JArr (map JStr r)) l = Some r.
Proof.
  unfold Policy.sanitizeInclude.
  destruct v as [| |b|n|s0|items|o]; try discriminate.
  destruct (0 <? Z.of_nat (length (Policy.sanitize_loop (Policy.merge l) items [])))
    eqn:Hpos; [|discriminate].
  intros H. injection H as <-.
  now rewrite sanitize_loop_again, Hpos.
Qed.

Lemma sanitizeInclude_idempotent_witness :
  Policy.sanitizeInclude (JArr (map JStr ["loa"; "session"])) None
  = Some ["loa"; "session"].
Proof.
  exact (sanitizeInclude_idempotent
           (JArr [JStr "  loa  "; JStr "loa"; JStr ""; JStr "session"; JNum 123])
           None ["loa"; "session"] eq_refl).
Defined.

(* ----------------------------------------------------------------- *)
(** *** The backend URL: what is returned *)

(** X7: whatever the platform, a URL [resolveBackendVerifyUrl] returns is
    the resolution of [raw] against a [pageHref] that is not empty, and
    either it has the page's origin and the scheme https or the scheme of
    [pageHref], or cross-origin was opted into, an allowed origin is its
    origin and its scheme is https. *)
Theorem resolveBackendVerifyUrl_sound `{P : Platform}
    (raw : string) (opts : option Policy.url_policy) (r : string) :
  Policy.resolveBackendVerifyUrl raw opts = Ok r ->
  exists o u,
    opts = Some o
    /\ Policy.pageHref o <> "" /\ Policy.pageOrigin o <> ""
    /\ URL_new raw (Some (Policy.pageHref o)) = Some u
    /\ r = href u
    /\ ((origin u = Policy.pageOrigin o
         /\ (protocol u = "https:"
             \/ exists page, URL_new (Policy.pageHref o) None = Some page
                             /\ protocol u = protocol page))
        \/ (origin u <> Policy.pageOrigin o
            /\ Policy.allowCrossOrigin o = true
            /\ PolicySpec.allowlisted u o
            /\ protocol u = "https:")).
Proof.
  unfold Policy.resolveBackendVerifyUrl.
  destruct opts as [o|]; [|discriminate].
  destruct (strlen (Policy.pageHref o) =? 0) eqn:Hh; [discriminate|].
  destruct (strlen (Policy.pageOrigin o) =? 0) eqn:Ho; [discriminate|].
  destruct (URL_new raw (Some (Policy.pageHref o))) as [u|] eqn:Hu; [|discriminate].
  cbv zeta. intros H. exists o, u.
  apply strlen_eqb_zero in Hh, Ho.
  pose proof (existsb_allowlisted u o) as Hallow.
  destruct (String.eqb_spec (origin u) (Policy.pageOrigin o)) as [Hsame|Hcross];
    cbn [negb andb bind] in H.
  - destruct (String.eqb_spec (protocol u) "https:") as [Hs|Hs]; cbn [negb] in H.
    + injection H as <-. repeat split; auto.
    + destruct (URL_new (Policy.pageHref o) None) as [page|] eqn:Hpage;
        [|discriminate].
      destruct (String.eqb_spec (protocol u) (protocol page)) as [Hp|Hp];
        cbn [negb] in H; [|discriminate].
      injection H as <-. repeat split; auto. left. split; [assumption|].
      right. now exists page.
  - destruct (Policy.allowCrossOrigin o) eqn:Hac; cbn [negb] in H; [|discriminate].
    destruct (match Policy.allowedOrigins o with
              | JArr entries => existsb (Policy.origin_allowed u) entries
              | _ => false
              end) eqn:Hex; cbn [negb bind] in H; [|discriminate].
    destruct (String.eqb_spec (protocol u) "https:") as [Hs|Hs]; cbn [negb] in H;
      [|discriminate].
    injection H as <-. repeat split; auto. right. repeat split; auto.
    now apply Hallow.
Qed.

Lemma resolveBackendVerifyUrl_sound_witness :
  exists o u,
    Some {| Policy.pageHref := "https://rp.example/path";
            Policy.pageOrigin := "https://rp.example";
            Policy.allowCrossOrigin := true;
            Policy.allowedOrigins := JArr [JStr "https://api.example"] |} = Some o
    /\ URL_new (Platform := Example.platform) "https://api.example/verify"
         (Some (Policy.pageHref o)) = Some u
    /\ "https://api.example/verify" = href u.
Proof.
  destruct (@resolveBackendVerifyUrl_sound Example.platform
              "https://api.example/verify"
              (Some {| Policy.pageHref := "https://rp.example/path";
                       Policy.pageOrigin := "https://rp.example";
                       Policy.allowCrossOrigin := true;
                       Policy.allowedOrigins := JArr [JStr "https://api.example"] |})
              "https://api.example/verify" eq_refl)
    as [o [u [H1 [_ [_ [H2 [H3 _]]]]]]].
  exists o, u. auto.
Defined.

(* ----------------------------------------------------------------- *)
(** *** Hexadecimal text: failures, and reading back *)

Section HexFailures.
Context {P : Platform}.
Import Token HexSpec.

Lemma length_hex_pairs (h : string) :
  strlen h mod 2 = 0 -> 2 * Z.of_nat (length (hex_pairs h)) = strlen h.
Proof.
  unfold strlen.
  cut ((Z.of_nat (String.length h) mod 2 = 0 ->
        2 * Z.of_nat (length (hex_pairs h)) = Z.of_nat (String.length h))
       /\ forall c, Z.of_nat (String.length (String c h)) mod 2 = 0 ->
            2 * Z.of_nat (length (hex_pairs (String c h)))
            = Z.of_nat (String.length (String c h))); [tauto|].
  induction h as [|a r [IH0 IH1]].
  - split; [reflexivity|]. intros c H. discriminate H.
  - split; [apply IH1|].
    intros c H. cbn [hex_pairs String.length length] in *.
    assert (Hr : Z.of_nat (String.length r) mod 2 = 0).
    { replace (Z.of_nat (S (S (String.length r))))
        with (Z.of_nat (String.length r) + 1 * 2) in H by lia.
      now rewrite Z.mod_add in H by lia. }
    specialize (IH0 Hr). lia.
Qed.

Lemma hexToUtf8String_cases (v : jsval) (l : option partial_limits) :
  match hexToUtf8String v l with
  | Throw e => exists f, applies l v f /\ e = ErrorObj (message_of f)
  | Ok out =>
      (~ exists f, applies l v f)
      /\ exists h, v = JStr h /\ out = utf8_decode (hex_pairs h)
  end.
Proof.
  unfold hexToUtf8String. cbv zeta.
  destruct (token_merge l) as [_ [_ Hinflated]]. rewrite Hinflated.
  destruct v as [| |b|n|h|items|o];
    try (exists NotAString; split; [intros s Hs; discriminate Hs | reflexivity]).
  destruct (strlen h =? 0) eqn:Hz.
  { exists Empty. split; [|reflexivity].
    apply Z.eqb_eq, strlen_zero in Hz. now subst. }
  pose proof (Z.mod_pos_bound (strlen h) 2 eq_refl) as Hb.
  destruct (strlen h mod 2 =? 0) eqn:Hodd; cbn [negb].
  2:{ exists OddLength. split; [|reflexivity]. exists h.
      apply Z.eqb_neq in Hodd. split; [reflexivity | lia]. }
  destruct (string_forallb Policy.is_hex h) eqn:Hhex; cbn [negb].
  2:{ exists NotHex. split; [|reflexivity]. now exists h. }
  destruct (js_gt (strlen h) (LimitsSpec.inflated_ceiling l)) eqn:Hbig.
  { exists TooLong. split; [|reflexivity]. exists h.
    split; [reflexivity | now apply js_gt_above]. }
  split; [|now exists h].
  apply Z.eqb_neq in Hz. apply Z.eqb_eq in Hodd. apply js_gt_not_above in Hbig.
  intros [f Hf]. destruct f; cbn [applies] in Hf.
  - now apply (Hf h).
  - injection Hf as ->. now apply Hz.
  - destruct Hf as [s [Hs Hm]]. injection Hs as <-. lia.
  - destruct Hf as [s [Hs Hm]]. injection Hs as <-. congruence.
  - destruct Hf as [s [Hs Hm]]. injection Hs as <-. contradiction.
Qed.

End HexFailures.

(** X8: [hexToUtf8String] throws exactly when its argument is not a
    string, is empty, has an odd length, has a character that is not a
    hexadecimal digit, or is longer than the ceiling on inflated
    characters, the one the caller configures or 512,000, each with its
    own message; otherwise it returns the UTF-8 reading of one byte for
    every two characters. *)
Theorem hexToUtf8String_throws_exactly `{P : Platform}
    (v : jsval) (l : option Token.partial_limits) :
  (throws (Token.hexToUtf8String v l) <-> exists f, HexSpec.applies l v f)
  /\ (forall e, Token.hexToUtf8String v l = Throw e ->
        exists f, HexSpec.applies l v f /\ e = ErrorObj (HexSpec.message_of f))
  /\ (forall f g, HexSpec.message_of f = HexSpec.message_of g -> f = g)
  /\ ((~ exists f, HexSpec.applies l v f) ->
        exists h, v = JStr h
                  /\ Token.hexToUtf8String v l = Ok (utf8_decode (Token.hex_pairs h))
                  /\ 2 * Z.of_nat (length (Token.hex_pairs h)) = strlen h).
Proof.
  pose proof (hexToUtf8String_cases v l) as Hc.
  assert (Hinj : forall f g, HexSpec.message_of f = HexSpec.message_of g -> f = g)
    by (intros [] []; simpl; intros H; try reflexivity; discriminate H).
  destruct (Token.hexToUtf8String v l) as [out|e].
  - destruct Hc as [Hnone [h [Hv ->]]].
    split; [|split; [|split; [exact Hinj|]]].
    + split; [intros [e He]; discriminate He | intros Hf; contradiction].
    + intros e He. discriminate He.
    + intros _. exists h. split; [exact Hv|]. split; [reflexivity|].
      apply length_hex_pairs.
      pose proof (Z.mod_pos_bound (strlen h) 2 eq_refl) as Hb.
      destruct (Z.eq_dec (strlen h mod 2) 0) as [H0|H0]; [exact H0|].
      elim Hnone. exists HexSpec.OddLength. exists h. split; [exact Hv | lia].
  - destruct Hc as [f [Hf ->]].
    split; [|split; [|split; [exact Hinj|]]].
    + split; [intros _; now exists f | intros _; eexists; reflexivity].
    + intros e He. injection He as <-. now exists f.
    + intros Hn. elim Hn. now exists f.
Qed.

(** Four characters of hexadecimal text under a configured ceiling of two
    are refused as too large; under a ceiling of four they are read. *)
Lemma hexToUtf8String_throws_exactly_witness :
  Token.hexToUtf8String (P := Example.platform) (JStr "6162")
    (Example.token_limits None None (Some (Num 2)))
  = throw_msg "inflated token too large"
  /\ Token.hexToUtf8String (P := Example.platform) (JStr "6162")
       (Example.token_limits None None (Some (Num 4)))
     = Ok "ab".
Proof.
  split.
  - destruct (@hexToUtf8String_throws_exactly Example.platform (JStr "6162")
                (Example.token_limits None None (Some (Num 2))))
      as [Hiff [Hmsg _]].
    assert (Hthrows : throws (Token.hexToUtf8String (P := Example.platform)
                                (JStr "6162")
                                (Example.token_limits None None (Some (Num 2))))).
    { apply Hiff. exists HexSpec.TooLong, "6162". split; reflexivity. }
    destruct Hthrows as [e He]. rewrite He.
    destruct (Hmsg e He) as [f [Hf ->]].
    destruct f; cbn [HexSpec.applies] in Hf.
    + elim (Hf "6162"). reflexivity.
    + discriminate Hf.
    + destruct Hf as [s [Hs Hodd]]. injection Hs as <-. discriminate Hodd.
    + destruct Hf as [s [Hs Hhex]]. injection Hs as <-. discriminate Hhex.
    + reflexivity.
  - destruct (@hexToUtf8String_throws_exactly Example.platform (JStr "6162")
                (Example.token_limits None None (Some (Num 4))))
      as [_ [_ [_ Hok]]].
    destruct Hok as [h [Hv [-> _]]].
    + intros [f Hf]. destruct f; cbn [HexSpec.applies] in Hf.
      * elim (Hf "6162"). reflexivity.
      * discriminate Hf.
      * destruct Hf as [s [Hs Hodd]]. injection Hs as <-. discriminate Hodd.
      * destruct Hf as [s [Hs Hhex]]. injection Hs as <-. discriminate Hhex.
      * destruct Hf as [s [Hs Hbig]]. injection Hs as <-.
        vm_compute in Hbig. discriminate Hbig.
    + injection Hv as <-. reflexivity.
Defined.

Section HexReadBack.
Import Token TokenTest HexSpec.

Lemma hex_value_digit (c : ascii) :
  Policy.is_hex c = true ->
  0 <= hex_value c < 16 /\ hex_digit (hex_value c) = lower_hex c.
Proof.
  destruct c as [[] [] [] [] [] [] [] []]; intros H; try discriminate H;
    (split; [split; [discriminate | reflexivity] | reflexivity]).
Qed.

Lemma Z_of_byte_of_Z (z : Z) : 0 <= z < 256 -> Z_of_byte (byte_of_Z z) = z.
Proof.
  intros Hz. unfold Z_of_byte, byte_of_Z.
  rewrite Z.mod_small by lia.
  pose proof (byte_of_ascii_via_N (ascii_of_N (Z.to_N z))) as H.
  symmetry in H. apply Byte.to_of_N in H. rewrite H.
  rewrite N_ascii_embedding by lia. lia.
Qed.

(** Induction on a string two characters at a time. *)
Lemma string_ind2 (Q : string -> Prop) :
  Q "" -> (forall c, Q (String c "")) ->
  (forall a b r, Q r -> Q (String a (String b r))) ->
  forall s, Q s.
Proof.
  intros H0 H1 H2 s.
  cut (Q s /\ forall c, Q (String c s)); [tauto|].
  induction s as [|x r [IH0 IH1]]; split; auto.
Qed.

End HexReadBack.

(** X9: the bytes read from a text of hexadecimal digits of even length,
    written in hexadecimal again, are that text in lower case. *)
Theorem hex_pairs_read_back (h : string) :
  string_forallb Policy.is_hex h = true ->
  strlen h mod 2 = 0 ->
  TokenTest.hex_of_bytes (Token.hex_pairs h) = string_map HexSpec.lower_hex h.
Proof.
  unfold strlen. induction h as [| c | a b r IH] using string_ind2.
  - reflexivity.
  - intros _ H. discriminate H.
  - cbn [string_forallb]. rewrite !andb_true_iff. intros [Ha [Hb Hr]] Hlen.
    destruct (hex_value_digit a Ha) as [Ra Da].
    destruct (hex_value_digit b Hb) as [Rb Db].
    cbn [Token.hex_pairs TokenTest.hex_of_bytes string_map].
    rewrite Z_of_byte_of_Z by lia.
    replace ((16 * Token.hex_value a + Token.hex_value b) / 16)
      with (Token.hex_value a) by (Z.to_euclidean_division_equations; lia).
    replace ((16 * Token.hex_value a + Token.hex_value b) mod 16)
      with (Token.hex_value b) by (Z.to_euclidean_division_equations; lia).
    rewrite Da, Db, IH; [reflexivity | exact Hr |].
    cbn [String.length] in Hlen.
    replace (Z.of_nat (S (S (String.length r))))
      with (Z.of_nat (String.length r) + 1 * 2) in Hlen by lia.
    now rewrite Z.mod_add in Hlen by lia.
Qed.

Lemma hex_pairs_read_back_witness :
  TokenTest.hex_of_bytes (Token.hex_pairs "612E62") = "612e62".
Proof.
  exact (hex_pairs_read_back "612E62" eq_refl eq_refl).
Defined.

Section Alphabets.
Context {P : Platform}.
Import Token.


End Alphabets.


(** X11: where [atob] reads the base64 text of some bytes, not none, the
    token that [bytesToB64url] makes of them decodes to those bytes when
    it has no more characters than the character ceiling and they are no
    more than the byte ceiling, the ceilings being those the caller
    configures, or 64,000; a token with more characters is refused as too
    large, and one of more bytes as too large compressed; the token of no
    bytes is empty and is refused. *)
Theorem b64urlToBytes_bytesToB64url `{P : Platform}
    (bytes : list byte) (l : option Token.partial_limits) :
  (atob (Base64.encode bytes) = Ok (string_of_list_byte bytes) ->
   bytes <> [] ->
   ~ LimitsSpec.above (strlen (TokenTest.bytesToB64url bytes))
       (LimitsSpec.char_ceiling l) ->
   ~ LimitsSpec.above (Z.of_nat (length bytes)) (LimitsSpec.byte_ceiling l) ->
   Token.b64urlToBytes (JStr (TokenTest.bytesToB64url bytes)) l = Ok bytes)
  /\ (bytes <> [] ->
      LimitsSpec.above (strlen (TokenTest.bytesToB64url bytes))
        (LimitsSpec.char_ceiling l) ->
      Token.b64urlToBytes (JStr (TokenTest.bytesToB64url bytes)) l
      = throw_msg "token too large")
  /\ (atob (Base64.encode bytes) = Ok (string_of_list_byte bytes) ->
      bytes <> [] ->
      ~ LimitsSpec.above (strlen (TokenTest.bytesToB64url bytes))
          (LimitsSpec.char_ceiling l) ->
      LimitsSpec.above (Z.of_nat (length bytes)) (LimitsSpec.byte_ceiling l) ->
      Token.b64urlToBytes (JStr (TokenTest.bytesToB64url bytes)) l
      = throw_msg "compressed token too large")
  /\ Token.b64urlToBytes (JStr (TokenTest.bytesToB64url [])) l
     = throw_msg "token must be non-empty".
Proof.
  destruct (normalized_bytesToB64url bytes) as [Hnorm [Hpad Hlen]].
  destruct (token_merge l) as [Hc [Hb _]].
  assert (Hne0 : bytes <> [] ->
                 (strlen (TokenTest.bytesToB64url bytes) =? 0) = false).
  { intros Hne. apply Z.eqb_neq. destruct bytes; [congruence|].
    cbn [length] in Hlen. lia. }
  split; [|split; [|split; [|reflexivity]]].
  - intros Hatob Hne Hchars Hbytes.
    unfold Token.b64urlToBytes. cbv zeta. rewrite Hc, Hb, (Hne0 Hne).
    apply js_gt_not_above in Hchars, Hbytes. rewrite Hchars.
    rewrite (padding_normalized _ Hpad), Hnorm. cbn [bind].
    unfold Token.base64ToBytes. rewrite Hatob. cbn [bind].
    rewrite list_byte_of_string_of_list_byte, Hbytes.
    reflexivity.
  - intros Hne Hchars.
    unfold Token.b64urlToBytes. cbv zeta. rewrite Hc, (Hne0 Hne).
    apply js_gt_above in Hchars. now rewrite Hchars.
  - intros Hatob Hne Hchars Hbytes.
    unfold Token.b64urlToBytes. cbv zeta. rewrite Hc, Hb, (Hne0 Hne).
    apply js_gt_not_above in Hchars. apply js_gt_above in Hbytes.
    rewrite Hchars.
    rewrite (padding_normalized _ Hpad), Hnorm. cbn [bind].
    unfold Token.base64ToBytes. rewrite Hatob. cbn [bind].
    rewrite list_byte_of_string_of_list_byte, Hbytes.
    reflexivity.
Qed.

(** Three bytes whose token has the two url-safe characters: under
    ceilings configured at four characters and three bytes, under
    ceilings that are no numbers, under a ceiling of three characters and
    under one of two bytes. *)
Lemma b64urlToBytes_bytesToB64url_witness :
  TokenTest.bytesToB64url [xfb; xff; xbf] = "-_-_"
  /\ Token.b64urlToBytes (P := Example.platform) (JStr "-_-_")
       (Example.token_limits (Some (Num 4)) (Some (Num 3)) None)
     = Ok [xfb; xff; xbf]
  /\ Token.b64urlToBytes (P := Example.platform) (JStr "-_-_")
       (Example.token_limits (Some NaN) (Some Undefined) None)
     = Ok [xfb; xff; xbf]
  /\ Token.b64urlToBytes (P := Example.platform) (JStr "-_-_")
       (Example.token_limits (Some (Num 3)) None None)
     = throw_msg "token too large"
  /\ Token.b64urlToBytes (P := Example.platform) (JStr "-_-_")
       (Example.token_limits None (Some (Num 2)) None)
     = throw_msg "compressed token too large".
Proof.
  split; [reflexivity|]. split; [|split; [|split]].
  - refine (proj1 (@b64urlToBytes_bytesToB64url Example.platform
                     [xfb; xff; xbf]
                     (Example.token_limits (Some (Num 4)) (Some (Num 3)) None))
              eq_refl _ _ _).
    + discriminate.
    + vm_compute. discriminate.
    + vm_compute. discriminate.
  - refine (proj1 (@b64urlToBytes_bytesToB64url Example.platform
                     [xfb; xff; xbf]
                     (Example.token_limits (Some NaN) (Some Undefined) None))
              eq_refl _ _ _).
    + discriminate.
    + vm_compute. tauto.
    + vm_compute. tauto.
  - refine (proj1 (proj2 (@b64urlToBytes_bytesToB64url Example.platform
                             [xfb; xff; xbf]
                             (Example.token_limits (Some (Num 3)) None None)))
              _ _).
    + discriminate.
    + vm_compute. reflexivity.
  - refine (proj1 (proj2 (proj2 (@b64urlToBytes_bytesToB64url Example.platform
                                    [xfb; xff; xbf]
                                    (Example.token_limits None (Some (Num 2)) None))))
              eq_refl _ _ _).
    + discriminate.
    + vm_compute. discriminate.
    + vm_compute. reflexivity.
Defined.

(* ----------------------------------------------------------------- *)
(** *** The handshake: what each piece of code comes to *)

Section Outcomes.
Context {P : Platform}.
Import AgeGate WireSpec TraceSpec.

(** The three ways the handler ends a message it takes up: a failure, a
    success without backend, a request sent. *)
Lemma handler_outcomes (cl : closure) (st st' : state) (e : message_event)
    (effs : list effect) :
  handler cl st e = Processed st' effs ->
  let token := prop (ev_data e) "token" in
  let payload :=
    make_payload (include cl) (agegateway_session cl)
      (prop (ev_data e) "authenticationResponse") in
  guards cl st e = true
  /\ ((exists err,
         (decode_token token = Throw err
          \/ exists jwt url,
               decode_token token = Ok jwt
               /\ backendVerifyUrl (cfg cl) = JStr url /\ 0 < strlen url
               /\ verify_request cl jwt payload url = Throw err)
         /\ st' = set_processing false (finished (set_processing true st))
         /\ effs = teardown cl
                   ++ safeCallback (onFailure (cfg cl))
                        (onFailure_throws (cfg cl))
                        (OnFailure (asError err "agegate failure")))
      \/ (exists jwt,
            decode_token token = Ok jwt
            /\ (forall url, backendVerifyUrl (cfg cl) = JStr url -> strlen url = 0)
            /\ st' = set_processing false (finished (set_processing true st))
            /\ effs = teardown cl
                      ++ safeCallback (onSuccess (cfg cl))
                           (onSuccess_throws (cfg cl))
                           (OnSuccess jwt payload JNull))
      \/ (exists jwt url request,
            decode_token token = Ok jwt
            /\ backendVerifyUrl (cfg cl) = JStr url /\ 0 < strlen url
            /\ verify_request cl jwt payload url = Ok request
            /\ st' = set_pending (Some (jwt, payload)) (set_processing true st)
            /\ effs = [request])).
Proof.
  intros H. cbv zeta.
  assert (Hg : guards cl st e = true).
  { destruct (guards cl st e) eqn:Hg; [reflexivity|].
    apply handler_guards in Hg. congruence. }
  split; [exact Hg|].
  assert (Hd : done (set_processing true st) = false).
  { unfold guards in Hg. rewrite !andb_true_iff, negb_true_iff, orb_false_iff in Hg.
    cbn. tauto. }
  revert H. unfold handler.
  repeat match goal with
         | |- context [if ?b then Ignored else _] =>
             destruct b; [discriminate|]
         end.
  cbv zeta. unfold finishFailure, finishSuccess, finally.
  destruct (decode_token _) as [jwt|err] eqn:Hdec.
  - destruct (backendVerifyUrl (cfg cl)) as [| |b|n|url|l|o] eqn:Hurl;
      try (rewrite (finish_live cl _ _ Hd); cbn [fst snd];
           intros H; injection H as <- <-; right; left; exists jwt;
           repeat split; intros; discriminate).
    destruct (0 <? strlen url) eqn:Hlen.
    + apply Z.ltb_lt in Hlen.
      match goal with
      | |- context [verify_request ?a ?b ?c ?d] =>
          destruct (verify_request a b c d) as [request|err] eqn:Hreq
      end.
      * intros H; injection H as <- <-. right. right.
        exists jwt, url, request. repeat split; auto.
      * rewrite (finish_live cl _ _ Hd). cbn [fst snd].
        intros H; injection H as <- <-. left. exists err.
        split; [|auto]. right. exists jwt, url. repeat split; auto.
    + apply Z.ltb_ge in Hlen.
      rewrite (finish_live cl _ _ Hd). cbn [fst snd].
      intros H; injection H as <- <-. right. left. exists jwt.
      repeat split. intros url' Hu. injection Hu as <-.
      pose proof (Zle_0_nat (String.length url)). unfold strlen in *. lia.
  - rewrite (finish_live cl _ _ Hd). cbn [fst snd].
    intros H; injection H as <- <-. left. exists err. auto.
Qed.

(** The request [verify_request] makes. *)
Lemma verify_request_Ok (cl : closure) (jwt : string) (payload : object)
    (url : string) (request : effect) :
  verify_request cl jwt payload url = Ok request ->
  exists resolved,
    Policy.resolveBackendVerifyUrl url
      (Some {| Policy.pageHref := location_href (env cl);
               Policy.pageOrigin := location_origin (env cl);
               Policy.allowCrossOrigin := backendVerifyAllowCrossOrigin (cfg cl);
               Policy.allowedOrigins :=
                 if isArray (backendVerifyAllowedOrigins (cfg cl))
                 then backendVerifyAllowedOrigins (cfg cl) else JArr [] |})
    = Ok resolved
    /\ request = Fetch resolved
                   (spread [("content-type", JStr "application/json")]
                      (backendExtraHeaders (cfg cl)))
                   (json_fields (spread [("jwt", JStr jwt)] payload)).
Proof.
  unfold verify_request.
  destruct (Policy.resolveBackendVerifyUrl _ _) as [resolved|err]; cbn [bind];
    [|discriminate].
  intros H; injection H as <-. now exists resolved.
Qed.

(** What a terminal transition does, by cases on [done]. *)
Lemma finish_cases (cl : closure) (st : state) (callback : list effect) :
  (done st = true /\ finish cl st callback = (st, []))
  \/ (done st = false
      /\ finish cl st callback = (finished st, teardown cl ++ callback)).
Proof.
  destruct (done st) eqn:Hd; [left|right]; split; auto.
  - now apply finish_done.
  - now apply finish_live.
Qed.

Lemma In_teardown (cl : closure) (x : effect) :
  In x (teardown cl) ->
  In x [Abort; RemoveListener; ClearInterval; ClearTimeout; PopupClose].
Proof.
  unfold teardown. destruct (timeoutId cl); cbn; tauto.
Qed.

(** What one event makes, whether delivered or not: nothing; the cleanup
    of the poll; a terminal transition with its callback; or the request
    of the handler. *)
Lemma fire_effects (cl : closure) (st : state) (ev : event) (x : effect) :
  In x (snd (fire cl st ev)) ->
  (In x [Abort; RemoveListener; ClearInterval; ClearTimeout; PopupClose]
   \/ exists err, x = ConsoleError "[agegate] callback error" err)
  \/ (exists err, x = OnFailure (asError err "agegate failure"))
  \/ (exists jwt payload r,
        x = OnSuccess jwt payload r
        /\ ((exists e, ev = Message e /\ decodes_to cl e jwt
                       /\ r = JNull /\ done st = false)
            \/ (exists o, ev = BackendSettled o
                          /\ pending st = Some (jwt, payload)
                          /\ verify_response o = Ok r)))
  \/ (exists e jwt payload url,
        ev = Message e /\ done st = false /\ processing st = false
        /\ backendVerifyUrl (cfg cl) = JStr url /\ 0 < strlen url
        /\ verify_request cl jwt payload url = Ok x).
Proof.
  assert (Hcall : forall supplied raised y,
             In x (safeCallback supplied raised y) ->
             (exists err, x = ConsoleError "[agegate] callback error" err)
             \/ x = y).
  { intros supplied raised y Hin. unfold safeCallback in Hin.
    destruct supplied; [|contradiction].
    destruct Hin as [<-|Hin]; [now right|].
    destruct raised as [err|]; [|contradiction].
    destruct Hin as [<-|[]]. left. now exists err. }
  assert (Hfin : forall st0 supplied raised y,
             In x (snd (finish cl st0 (safeCallback supplied raised y))) ->
             (In x [Abort; RemoveListener; ClearInterval; ClearTimeout; PopupClose]
              \/ exists err, x = ConsoleError "[agegate] callback error" err)
             \/ x = y).
  { intros st0 supplied raised y Hin.
    destruct (finish_cases cl st0 (safeCallback supplied raised y))
      as [[_ Hf]|[_ Hf]];
      rewrite Hf in Hin; cbn [snd] in Hin; [contradiction|].
    apply in_app_or in Hin. destruct Hin as [Hin|Hin].
    - left. left. now apply (In_teardown cl).
    - destruct (Hcall _ _ _ Hin) as [H|H]; [left; now right | now right]. }
  destruct ev as [e| | |o|]; cbn [fire].
  - destruct (handler cl st e) as [|st' effs] eqn:Hh; cbn [snd]; [contradiction|].
    destruct (handler_outcomes cl st st' e effs Hh) as [Hg Hcases].
    assert (Hcond : conditions_nonempty cl st e) by now apply guards_conditions.
    destruct Hcond as [Hd [Hp [Ho [Hs [_ [_ [Hses _]]]]]]].
    destruct Hcases as [[err [_ [_ ->]]]|[[jwt [Hdec [_ [_ ->]]]]
                        |[jwt [url [request [Hdec [Hurl [Hlen [Hreq [_ ->]]]]]]]]]];
      intros Hin.
    + apply in_app_or in Hin. destruct Hin as [Hin|Hin].
      * left. left. now apply (In_teardown cl).
      * destruct (Hcall _ _ _ Hin) as [H| ->]; [left; now right|].
        right. left. now exists err.
    + apply in_app_or in Hin. destruct Hin as [Hin|Hin].
      * left. left. now apply (In_teardown cl).
      * destruct (Hcall _ _ _ Hin) as [H| ->]; [left; now right|].
        right. right. left.
        eexists _, _, _. split; [reflexivity|]. left. exists e.
        repeat split; auto.
    + destruct Hin as [<-|[]]. right. right. right.
      exists e, jwt. eexists. exists url. repeat split; eauto.
  - unfold poll. destruct (popup_closed st); cbn; [|contradiction].
    intros Hin. left. left.
    destruct (timeoutId cl); cbn in Hin; cbn; tauto.
  - unfold timed_out, finishFailure. intros Hin.
    destruct (Hfin _ _ _ _ Hin) as [H| ->]; [now left|].
    right. left. eexists. reflexivity.
  - unfold resume. destruct (pending st) as [[jwt payload]|] eqn:Hpend;
      [|contradiction].
    unfold finishSuccess, finishFailure, finally. cbn [snd].
    destruct (verify_response o) as [r|err] eqn:Hres; cbn [fst snd]; intros Hin;
      destruct (Hfin _ _ _ _ Hin) as [H| ->]; try (now left).
    + right. right. left. exists jwt, payload, r. split; [reflexivity|].
      right. now exists o.
    + right. left. now exists err.
  - contradiction.
Qed.

(** The flags after one event. *)
Lemma fire_flags (cl : closure) (st : state) (ev : event) :
  consistent st ->
  consistent (fst (fire cl st ev))
  /\ (done st || processing st = true ->
      done (fst (fire cl st ev)) || processing (fst (fire cl st ev)) = true
      /\ n_fetches (snd (fire cl st ev)) = 0%nat)
  /\ (n_fetches (snd (fire cl st ev)) <= 1)%nat
  /\ (n_fetches (snd (fire cl st ev)) = 1%nat ->
      done (fst (fire cl st ev)) || processing (fst (fire cl st ev)) = true).
Proof.
  intros [Hc1 Hc2].
  assert (Hnf : forall supplied raised y, is_fetch y = false ->
            n_fetches (teardown cl ++ safeCallback supplied raised y) = 0%nat).
  { intros supplied raised y Hy. unfold n_fetches.
    rewrite filter_app, length_app.
    unfold teardown, safeCallback.
    destruct (timeoutId cl), supplied, raised; cbn; now rewrite ?Hy. }
  assert (Hfin : forall st0 supplied raised y,
             is_fetch y = false ->
             processing st0 = false -> pending st0 = None ->
             consistent (set_processing false
                           (fst (finish cl st0 (safeCallback supplied raised y))))
             /\ n_fetches (snd (finish cl st0 (safeCallback supplied raised y)))
                = 0%nat).
  { intros st0 supplied raised y Hy Hp Hn.
    destruct (finish_cases cl st0 (safeCallback supplied raised y))
      as [[_ ->]|[_ ->]];
      cbn [fst snd]; (split; [|auto]);
      unfold consistent; cbn; rewrite Hn; split; congruence. }
  destruct ev as [e| | |o|]; cbn [fire].
  - destruct (handler cl st e) as [|st' effs] eqn:Hh; cbn [fst snd].
    { split; [split; assumption|]. split; [auto|]. split; [cbn; lia|].
      cbn. discriminate. }
    destruct (handler_outcomes cl st st' e effs Hh) as [Hg Hcases].
    assert (Hcond : conditions_nonempty cl st e) by now apply guards_conditions.
    destruct Hcond as [Hd [Hp _]].
    assert (Hnone : pending st = None).
    { destruct (pending st) eqn:Hpend; [|reflexivity].
      assert (processing st = true) by (apply Hc2; discriminate). congruence. }
    rewrite Hd, Hp. cbn [orb].
    destruct Hcases as [[err [_ [-> ->]]]|[[jwt [_ [_ [-> ->]]]]
                        |[jwt [url [request [_ [_ [_ [Hreq [-> ->]]]]]]]]]].
    + rewrite Hnf by reflexivity.
      split; [unfold consistent; cbn; rewrite Hnone; split; congruence|].
      split; [discriminate|]. split; [lia | discriminate].
    + rewrite Hnf by reflexivity.
      split; [unfold consistent; cbn; rewrite Hnone; split; congruence|].
      split; [discriminate|]. split; [lia | discriminate].
    + destruct (verify_request_Ok _ _ _ _ _ Hreq) as [resolved [_ ->]].
      split; [unfold consistent; cbn; split; [discriminate | reflexivity]|].
      split; [discriminate|]. split; [cbn; lia|].
      intros _. cbn. apply orb_true_r.
  - unfold poll. destruct (popup_closed st); cbn [fst snd andthen abort cleanup].
    + split; [split; assumption|].
      assert (Hn : n_fetches
                     ([Abort] ++ [RemoveListener; ClearInterval]
                      ++ (if timeoutId cl then [ClearTimeout] else [])) = 0%nat)
        by now destruct (timeoutId cl).
      rewrite Hn. split; [auto|]. split; [lia | discriminate].
    + split; [split; assumption|]. split; [auto|]. split; [cbn; lia|].
      cbn. discriminate.
  - unfold timed_out, finishFailure, finish, consistent in *.
    destruct st as [d p li po ti ab pc pe]; cbn in *.
    destruct d; cbn.
    + split; [split; assumption|]. split; [auto|]. split; [lia | discriminate].
    + rewrite (Hnf (onFailure (cfg cl)) (onFailure_throws (cfg cl))
                 (OnFailure (ErrorObj "Timed out waiting for age verification")))
        by reflexivity.
      split; [split; assumption|]. split; [auto|]. split; [lia | discriminate].
  - unfold resume, finishSuccess, finishFailure, finally, finish, consistent in *.
    destruct st as [d p li po ti ab pc pe]; cbn in *.
    destruct pe as [[jwt payload]|]; cbn.
    + destruct (verify_response o) as [r|err]; destruct d; cbn;
        rewrite ?(Hnf (onSuccess (cfg cl)) (onSuccess_throws (cfg cl))
                    (OnSuccess jwt payload r)),
          ?(Hnf (onFailure (cfg cl)) (onFailure_throws (cfg cl))
              (OnFailure (asError err "agegate failure")))
          by reflexivity;
        (split; [split; congruence|]); (split; [auto|]);
        (split; [lia | discriminate]).
    + split; [split; assumption|]. split; [auto|]. split; [lia | discriminate].
  - unfold consistent in *. destruct st as [d p li po ti ab pc pe]; cbn in *.
    split; [split; assumption|]. split; [auto|]. split; [lia | discriminate].
Qed.

(** A request is in flight after an event only if it was before, or the
    event is a message the handler took up, with a backend to ask. *)
Lemma fire_pending (cl : closure) (st : state) (ev : event) (jwt : string)
    (payload : object) :
  pending (fst (fire cl st ev)) = Some (jwt, payload) ->
  pending st = Some (jwt, payload)
  \/ exists e url,
       ev = Message e /\ decodes_to cl e jwt
       /\ backendVerifyUrl (cfg cl) = JStr url /\ 0 < strlen url.
Proof.
  destruct ev as [e| | |o|]; cbn [fire].
  - destruct (handler cl st e) as [|st' effs] eqn:Hh; cbn [fst]; [now left|].
    destruct (handler_outcomes cl st st' e effs Hh) as [Hg Hcases].
    assert (Hcond : conditions_nonempty cl st e) by now apply guards_conditions.
    destruct Hcond as [_ [_ [Ho [Hs [_ [_ [Hses _]]]]]]].
    destruct Hcases as [[err [_ [-> _]]]|[[jwt0 [_ [_ [-> _]]]]
                        |[jwt0 [url [request [Hdec [Hurl [Hlen [_ [-> _]]]]]]]]]].
    + now left.
    + now left.
    + cbn. intros H; injection H as <- <-. right. exists e, url.
      repeat split; auto.
  - unfold poll. destruct (popup_closed st); cbn; now left.
  - unfold timed_out, finishFailure.
    destruct (finish_cases cl (timer_fired st)
                (safeCallback (onFailure (cfg cl)) (onFailure_throws (cfg cl))
                   (OnFailure (asError (ErrorObj "Timed out waiting for age verification")
                                 "agegate failure")))) as [[_ Hf]|[_ Hf]];
      rewrite Hf; cbn; now left.
  - unfold resume. destruct (pending st) as [[jwt0 payload0]|] eqn:Hpend;
      [|cbn; rewrite Hpend; discriminate].
    unfold finishSuccess, finishFailure, finally, finish.
    destruct (verify_response o); destruct (done (set_pending None st));
      cbn; discriminate.
  - cbn. now left.
Qed.

End Outcomes.

(* ----------------------------------------------------------------- *)
(** *** The handshake: whole executions *)

Section Traces.
Context {P : Platform}.
Import AgeGate WireSpec TraceSpec.

Lemma n_fetches_app (a b : list effect) :
  n_fetches (a ++ b) = (n_fetches a + n_fetches b)%nat.
Proof. unfold n_fetches. now rewrite filter_app, length_app. Qed.

Lemma asError_is_error (err : thrown) (context : string) :
  exists msg, asError err context = ErrorObj msg.
Proof. destruct err; cbn; eauto. Qed.

(** The flags after one delivered event. *)
Lemma step_flags (cl : closure) (st : state) (ev : event) :
  consistent st ->
  consistent (fst (step cl st ev))
  /\ (done st || processing st = true ->
      done (fst (step cl st ev)) || processing (fst (step cl st ev)) = true
      /\ n_fetches (snd (step cl st ev)) = 0%nat)
  /\ (n_fetches (snd (step cl st ev)) <= 1)%nat
  /\ (n_fetches (snd (step cl st ev)) = 1%nat ->
      done (fst (step cl st ev)) || processing (fst (step cl st ev)) = true).
Proof.
  intros Hc. unfold step. destruct (enabled st ev).
  - now apply fire_flags.
  - cbn [fst snd]. split; [exact Hc|]. split; [auto|].
    split; [cbn; lia | cbn; discriminate].
Qed.

(** Along a run: a terminated or busy handshake sends no request, and any
    handshake at most one. *)
Lemma run_step_flags (cl : closure) (evs : list event) :
  forall st, consistent st ->
    consistent (fst (run step cl st evs))
    /\ (done st || processing st = true ->
        n_fetches (snd (run step cl st evs)) = 0%nat)
    /\ (n_fetches (snd (run step cl st evs)) <= 1)%nat.
Proof.
  induction evs as [|ev rest IH]; intros st Hc.
  - cbn. split; [exact Hc|]. split; [reflexivity | lia].
  - rewrite run_cons. cbn [fst snd].
    destruct (step_flags cl st ev Hc) as [Hc1 [Hbusy [Hle Hone]]].
    destruct (IH _ Hc1) as [Hc2 [Hbusy2 Hle2]].
    split; [exact Hc2|]. rewrite n_fetches_app. split.
    + intros Hb. destruct (Hbusy Hb) as [Hb1 Hn1].
      rewrite Hn1, (Hbusy2 Hb1). reflexivity.
    + destruct (n_fetches (snd (step cl st ev))) as [|[|k]] eqn:Hn; [lia | | lia].
      rewrite (Hbusy2 (Hone eq_refl)). lia.
Qed.

(** What was done along a run was done by one delivered event, in a state
    that has whatever every delivered event keeps. *)
Lemma run_step_In (cl : closure) (Inv : state -> Prop) (all : list event) :
  (forall st ev, In ev all -> enabled st ev = true -> Inv st ->
     Inv (fst (fire cl st ev))) ->
  forall evs st x,
    incl evs all -> Inv st ->
    In x (snd (run step cl st evs)) ->
    exists st' ev,
      Inv st' /\ In ev evs /\ enabled st' ev = true
      /\ In x (snd (fire cl st' ev)).
Proof.
  intros Hkeep. induction evs as [|ev rest IH]; intros st x Hincl Hinv Hin.
  - contradiction.
  - rewrite run_cons in Hin. cbn [snd fst] in Hin.
    apply in_app_or in Hin. destruct Hin as [Hin|Hin].
    + unfold step in Hin. destruct (enabled st ev) eqn:Hen; [|contradiction].
      exists st, ev. repeat split; auto. now left.
    + assert (Hinv1 : Inv (fst (step cl st ev))).
      { unfold step. destruct (enabled st ev) eqn:Hen; [|exact Hinv].
        apply Hkeep; auto. apply Hincl. now left. }
      destruct (IH _ x (fun e He => Hincl e (or_intror He)) Hinv1 Hin)
        as [st' [ev' [H1 [H2 [H3 H4]]]]].
      exists st', ev'. repeat split; auto. now right.
Qed.

(** What [launchAgeGate] itself does, effect by effect. *)
Lemma launch_effects (h : host) (c : config) (x : effect) :
  In x (launch_trace (launchAgeGate h c)) ->
  match x with
  | ConsoleWarn _ | ConsoleError _ _ | AddListener | SetInterval _ => True
  | SetTimeout ms => timeoutMs c = JNum ms /\ 0 < ms
  | OnFailure err => exists msg, err = ErrorObj msg
  | WindowOpen url | LocationAssign url =>
      exists s,
        Policy.normalizeSession (randomUuid h) (session c) None = Ok s
        /\ url = makeVerifyUrl s (Policy.sanitizeInclude (includeRaw c) None)
  | _ => False
  end.
Proof.
  revert x. apply Forall_forall.
  unfold launchAgeGate.
  destruct (negb (noReferrerMeta h) && requireNoReferrer c).
  { unfold safeCallback.
    destruct (onFailure c), (onFailure_throws c); cbn;
      repeat (apply Forall_cons; [cbn; eauto|]); apply Forall_nil. }
  destruct (Policy.normalizeSession _ _ _) as [s|err] eqn:Hs.
  2:{ destruct (negb (noReferrerMeta h)); cbn; repeat constructor. }
  assert (Hurl : exists s0 : string,
             Ok s = Ok s0
             /\ makeVerifyUrl s (Policy.sanitizeInclude (includeRaw c) None)
                = makeVerifyUrl s0 (Policy.sanitizeInclude (includeRaw c) None))
    by eauto.
  destruct (negb (noReferrerMeta h)), (window_open h) as [w|];
    cbn [launch_trace app].
  all: try (unfold safeCallback;
            destruct (allowFullPageFallback c), (onFailure c),
              (onFailure_throws c); cbn;
            repeat (apply Forall_cons; [cbn; eauto|]); apply Forall_nil).
  all: destruct (timeoutMs c) as [| |b|n|t|l|o]; cbn;
    try (repeat (apply Forall_cons; [cbn; eauto|]); apply Forall_nil).
  all: destruct (0 <? n) eqn:Hn; cbn;
    repeat (apply Forall_cons;
            [first [exact I | exact Hurl
                   | split; [reflexivity | now apply Z.ltb_lt]]|]);
    apply Forall_nil.
Qed.

(** What an execution did, the launch did or a run of the handshake it
    left did. *)
Lemma execute_In (h : host) (c : config) (evs : list event) (x : effect) :
  In x (snd (execute h c evs)) ->
  In x (launch_trace (launchAgeGate h c))
  \/ exists cl st effs,
       launchAgeGate h c = Running cl st effs
       /\ In x (snd (run step cl st evs)).
Proof.
  unfold execute. destruct (launchAgeGate h c) as [effs|effs err|cl st effs];
    cbn [launch_trace snd]; try (now left).
  destruct (run step cl st evs) as [st' t] eqn:Hrun. cbn [snd].
  intros Hin. apply in_app_or in Hin. destruct Hin as [Hin|Hin]; [now left|].
  right. exists cl, st, effs. rewrite Hrun. auto.
Qed.

(** The handshake a launch leaves. *)
Lemma launch_running (h : host) (c : config) (cl : closure) (st : state)
    (effs : list effect) :
  launchAgeGate h c = Running cl st effs ->
  cfg cl = c /\ env cl = h
  /\ done st = false /\ processing st = false /\ pending st = None
  /\ timeout_armed st = timeout_valid (timeoutMs c)
  /\ n_fetches effs = 0%nat
  /\ In (WindowOpen (makeVerifyUrl (agegateway_session cl) (include cl))) effs.
Proof.
  unfold launchAgeGate.
  destruct (negb (noReferrerMeta h) && requireNoReferrer c); [discriminate|].
  destruct (Policy.normalizeSession _ _ _) as [s|err]; [|discriminate].
  destruct (window_open h) as [w|].
  2:{ destruct (allowFullPageFallback c); discriminate. }
  intros H; injection H as <- <- <-. cbn.
  repeat split.
  - rewrite n_fetches_app.
    destruct (negb (noReferrerMeta h)), (timeoutMs c); cbn; try reflexivity;
      now destruct (0 <? n).
  - apply in_or_app. right. now left.
Qed.

(** Nothing can reach a handshake without listener, timers or request in
    flight, its popup closed. *)
Lemma run_unreachable (cl : closure) (evs : list event) (st : state) :
  unreachable st -> run step cl st evs = (st, []).
Proof.
  intros [Hl [Hp [Ht [Hn Hc]]]].
  induction evs as [|ev rest IH]; [reflexivity|].
  assert (Hstep : step cl st ev = (st, []))
    by (unfold step; destruct ev; cbn [enabled];
        rewrite ?Hl, ?Hp, ?Ht, ?Hn, ?Hc; reflexivity).
  rewrite run_cons, Hstep. cbn [fst snd]. now rewrite IH.
Qed.

(** No event arms the time-out. *)
Lemma fire_timeout_armed (cl : closure) (st : state) (ev : event) :
  timeout_armed st = false -> timeout_armed (fst (fire cl st ev)) = false.
Proof.
  intros Ht. destruct ev as [e| | |o|]; cbn [fire].
  - destruct (handler cl st e) as [|st' effs] eqn:Hh; cbn [fst]; [exact Ht|].
    destruct (handler_outcomes cl st st' e effs Hh)
      as [_ [[err [_ [-> _]]]|[[jwt [_ [_ [-> _]]]]
             |[jwt [url [request [_ [_ [_ [_ [-> _]]]]]]]]]]];
      cbn; auto.
  - unfold poll. destruct (popup_closed st); cbn; auto.
  - unfold timed_out, finishFailure, finish.
    destruct (done (timer_fired st)); reflexivity.
  - unfold resume. destruct (pending st) as [[jwt payload]|]; [|exact Ht].
    unfold finishSuccess, finishFailure, finally, finish.
    destruct (verify_response o); destruct (done (set_pending None st));
      cbn; auto.
  - exact Ht.
Qed.

End Traces.

(** X12: in every execution, whatever [onFailure] is called with is an
    [Error]: one the launch or the time-out makes, one that was thrown, or
    the [Error] that [asError] makes of a thrown value that is none. *)
Theorem onFailure_gets_an_Error `{P : Platform}
    (h : AgeGate.host) (c : AgeGate.config) (evs : list AgeGate.event)
    (err : thrown) :
  In (AgeGate.OnFailure err) (snd (AgeGate.execute h c evs)) ->
  exists msg, err = ErrorObj msg.
Proof.
  intros Hin.
  destruct (execute_In h c evs _ Hin) as [Hl|[cl [st [effs [_ Hrun]]]]].
  - exact (launch_effects h c _ Hl).
  - destruct (run_step_In cl (fun _ => True) evs (fun _ _ _ _ _ => I)
                evs st _ (incl_refl _) I Hrun) as [st' [ev [_ [_ [_ Hfire]]]]].
    destruct (fire_effects cl st' ev _ Hfire)
      as [H|[[err0 H]|[[jwt [payload [r [H _]]]]
                      |[e [jwt [payload [url [_ [_ [_ [_ [_ H]]]]]]]]]]]].
    + destruct H as [H|[err1 H]]; [cbn in H; intuition discriminate | discriminate].
    + injection H as ->. apply asError_is_error.
    + discriminate.
    + destruct (verify_request_Ok _ _ _ _ _ H) as [resolved [_ Hx]]. discriminate.
Qed.

Lemma onFailure_gets_an_Error_witness :
  exists msg, ErrorObj "agegate failure: incorrect header check" = ErrorObj msg.
Proof.
  apply (@onFailure_gets_an_Error Example.platform
           Example.page Example.callbacks_backend
           [AgeGate.Message (Example.message "AAAA")]).
  vm_compute. repeat (first [left; reflexivity | right]).
Defined.

(** X13: the URL an execution opens, in the popup or by the full-page
    fallback, carries the normalised session first, then [autostart=1],
    then, when the sanitised include list is not empty, that list joined
    with commas; sanitising twice, as the source does, changes nothing. *)
Theorem verify_url_parameters `{P : Platform}
    (h : AgeGate.host) (c : AgeGate.config) (evs : list AgeGate.event)
    (url : AgeGate.verify_url) :
  In (AgeGate.WindowOpen url) (snd (AgeGate.execute h c evs))
  \/ In (AgeGate.LocationAssign url) (snd (AgeGate.execute h c evs)) ->
  exists s,
    Policy.normalizeSession (AgeGate.randomUuid h) (AgeGate.session c) None = Ok s
    /\ url = [("session", s); ("autostart", "1")]
             ++ match Policy.sanitizeInclude (AgeGate.includeRaw c) None with
                | Some inc => [("include", join "," inc)]
                | None => []
                end.
Proof.
  assert (Hrun : forall x cl st,
            In x (snd (AgeGate.run AgeGate.step cl st evs)) ->
            forall u, x <> AgeGate.WindowOpen u /\ x <> AgeGate.LocationAssign u).
  { intros x cl st Hin u.
    destruct (run_step_In cl (fun _ => True) evs (fun _ _ _ _ _ => I)
                evs st _ (incl_refl _) I Hin) as [st' [ev [_ [_ [_ Hfire]]]]].
    destruct (fire_effects cl st' ev _ Hfire)
      as [H|[[err0 ->]|[[jwt [payload [r [-> _]]]]
                      |[e [jwt [payload [raw [_ [_ [_ [_ [_ H]]]]]]]]]]]].
    - destruct H as [H|[err1 ->]]; [|split; discriminate].
      cbn in H. split; intros ->; intuition discriminate.
    - split; discriminate.
    - split; discriminate.
    - destruct (verify_request_Ok _ _ _ _ _ H) as [resolved [_ ->]].
      split; discriminate. }
  assert (Hlaunch : forall s,
            AgeGate.makeVerifyUrl s (Policy.sanitizeInclude (AgeGate.includeRaw c) None)
            = [("session", s); ("autostart", "1")]
              ++ match Policy.sanitizeInclude (AgeGate.includeRaw c) None with
                 | Some inc => [("include", join "," inc)]
                 | None => []
                 end).
  { intros s. unfold AgeGate.makeVerifyUrl.
    destruct (Policy.sanitizeInclude (AgeGate.includeRaw c) None) as [inc|] eqn:Hinc.
    - cbn [AgeGate.include_value].
      unfold Policy.sanitizeInclude in *.
      destruct (AgeGate.includeRaw c) as [| |b|n|s0|items|o]; try discriminate.
      destruct (0 <? Z.of_nat (length (Policy.sanitize_loop (Policy.merge None) items [])))
        eqn:Hpos; [|discriminate].
      injection Hinc as <-.
      change (Policy.merge None) with Policy.DEFAULT_LIMITS in *.
      now rewrite sanitize_loop_again, !Hpos.
    - reflexivity. }
  intros [Hin|Hin];
    (destruct (execute_In h c evs _ Hin) as [Hl|[cl [st [effs [_ Hr]]]]];
     [ destruct (launch_effects h c _ Hl) as [s [Hs ->]];
       exists s; split; [exact Hs | apply Hlaunch]
     | destruct (Hrun _ _ _ Hr url) as [H1 H2]; congruence ]).
Qed.

Lemma verify_url_parameters_witness :
  exists s,
    Policy.normalizeSession (AgeGate.randomUuid Example.page)
      (AgeGate.session Example.callbacks_backend) None = Ok s
    /\ [("session", Example.session_id); ("autostart", "1");
        ("include", "session,loa")]
       = [("session", s); ("autostart", "1")]
         ++ match Policy.sanitizeInclude
                    (AgeGate.includeRaw Example.callbacks_backend) None with
            | Some inc => [("include", join "," inc)]
            | None => []
            end.
Proof.
  apply (@verify_url_parameters Example.platform
           Example.page Example.callbacks_backend [AgeGate.TimeoutFire]).
  left. vm_compute. left. reflexivity.
Defined.

(** X14: an execution sends at most one request to the backend, and only
    to the URL that [resolveBackendVerifyUrl] returns for a
    [backendVerifyUrl] that is a non-empty string, under the page's own
    location and the configured cross-origin policy, with the JSON content
    type and the extra headers. *)
Theorem at_most_one_request `{P : Platform}
    (h : AgeGate.host) (c : AgeGate.config) (evs : list AgeGate.event) :
  (TraceSpec.n_fetches (snd (AgeGate.execute h c evs)) <= 1)%nat
  /\ forall url headers body,
       In (AgeGate.Fetch url headers body) (snd (AgeGate.execute h c evs)) ->
       exists raw,
         AgeGate.backendVerifyUrl c = JStr raw /\ raw <> ""
         /\ Policy.resolveBackendVerifyUrl raw
              (Some {| Policy.pageHref := AgeGate.location_href h;
                       Policy.pageOrigin := AgeGate.location_origin h;
                       Policy.allowCrossOrigin :=
                         AgeGate.backendVerifyAllowCrossOrigin c;
                       Policy.allowedOrigins :=
                         if isArray (AgeGate.backendVerifyAllowedOrigins c)
                         then AgeGate.backendVerifyAllowedOrigins c
                         else JArr [] |})
            = Ok url
         /\ headers = spread [("content-type", JStr "application/json")]
                        (AgeGate.backendExtraHeaders c).
Proof.
  split.
  - unfold AgeGate.execute.
    assert (Hl : forall x, In x (TraceSpec.launch_trace (AgeGate.launchAgeGate h c)) ->
                   TraceSpec.is_fetch x = false).
    { intros x Hx. pose proof (launch_effects h c x Hx) as H.
      destruct x; try reflexivity; contradiction. }
    assert (Hz : forall l, (forall x, In x l -> TraceSpec.is_fetch x = false) ->
                   TraceSpec.n_fetches l = 0%nat).
    { unfold TraceSpec.n_fetches. induction l as [|y l IH]; intros Hall; [reflexivity|].
      cbn [filter]. rewrite (Hall y (or_introl eq_refl)).
      apply IH. intros x Hx. apply Hall. now right. }
    destruct (AgeGate.launchAgeGate h c) as [effs|effs err|cl st effs] eqn:Hlaunch;
      cbn [TraceSpec.launch_trace snd] in *.
    + rewrite (Hz _ Hl). lia.
    + rewrite (Hz _ Hl). lia.
    + destruct (launch_running h c cl st effs Hlaunch)
        as [_ [_ [_ [Hp [Hn _]]]]].
      assert (Hc : TraceSpec.consistent st).
      { unfold TraceSpec.consistent. rewrite Hp, Hn. split; [discriminate|congruence]. }
      destruct (run_step_flags cl evs st Hc) as [_ [_ Hle]].
      destruct (AgeGate.run AgeGate.step cl st evs) as [st' t]. cbn [snd] in *.
      rewrite n_fetches_app, (Hz _ Hl). lia.
  - intros url headers body Hin.
    destruct (execute_In h c evs _ Hin) as [Hl|[cl [st [effs [Hlaunch Hrun]]]]].
    + elim (launch_effects h c _ Hl).
    + destruct (launch_running h c cl st effs Hlaunch) as [Hcfg [Henv _]].
      destruct (run_step_In cl (fun _ => True) evs (fun _ _ _ _ _ => I)
                  evs st _ (incl_refl _) I Hrun) as [st' [ev [_ [_ [_ Hfire]]]]].
      destruct (fire_effects cl st' ev _ Hfire)
        as [H|[[err0 H]|[[jwt [payload [r [H _]]]]
                        |[e [jwt [payload [raw [_ [_ [_ [Hraw [Hlen H]]]]]]]]]]]];
        try discriminate.
      * destruct H as [H|[err1 H]]; [cbn in H; intuition discriminate | discriminate].
      * destruct (verify_request_Ok _ _ _ _ _ H) as [resolved [Hres Hx]].
        injection Hx as -> -> ->. rewrite Hcfg, Henv in *.
        exists raw. repeat split; auto.
        intros ->. cbn in Hlen. lia.
Qed.

(** Where a credential handed to [onSuccess] along a run comes from. *)
Lemma run_success_provenance `{P : Platform}
    (cl : AgeGate.closure) (st : AgeGate.state) (evs : list AgeGate.event)
    (jwt : string) (payload : object) (r : jsval) :
  AgeGate.pending st = None ->
  In (AgeGate.OnSuccess jwt payload r) (snd (AgeGate.run AgeGate.step cl st evs)) ->
  exists e,
    In (AgeGate.Message e) evs
    /\ TraceSpec.decodes_to cl e jwt
    /\ (r = JNull
        \/ exists o url,
             In (AgeGate.BackendSettled o) evs
             /\ AgeGate.verify_response o = Ok r
             /\ AgeGate.backendVerifyUrl (AgeGate.cfg cl) = JStr url /\ url <> "").
Proof.
  intros Hnone Hrun.
  set (Inv := fun st0 : AgeGate.state =>
         forall jwt0 payload0,
           AgeGate.pending st0 = Some (jwt0, payload0) ->
           exists e url,
             In (AgeGate.Message e) evs /\ TraceSpec.decodes_to cl e jwt0
             /\ AgeGate.backendVerifyUrl (AgeGate.cfg cl) = JStr url
             /\ 0 < strlen url).
  assert (Hkeep : forall st0 ev, In ev evs -> AgeGate.enabled st0 ev = true ->
                    Inv st0 -> Inv (fst (AgeGate.fire cl st0 ev))).
  { intros st0 ev Hev _ Hinv jwt0 payload0 Hp.
    destruct (fire_pending cl st0 ev jwt0 payload0 Hp)
      as [Hold|[e [url [-> [Hdec [Hurl Hlen]]]]]].
    - exact (Hinv _ _ Hold).
    - exists e, url. auto. }
  assert (Hinv0 : Inv st) by (intros jwt0 payload0 Hp; congruence).
  destruct (run_step_In cl Inv evs Hkeep evs st _ (incl_refl _) Hinv0 Hrun)
    as [st' [ev [Hinv [Hev [_ Hfire]]]]].
  destruct (fire_effects cl st' ev _ Hfire)
    as [H|[[err0 H]|[[jwt0 [payload0 [r0 [H Hfrom]]]]
                    |[e [jwt0 [payload0 [raw [_ [_ [_ [_ [_ H]]]]]]]]]]]].
  - destruct H as [H|[err1 H]]; [cbn in H; intuition discriminate | discriminate].
  - discriminate.
  - injection H as <- <- <-.
    destruct Hfrom as [[e [-> [Hdec [-> _]]]]|[o [-> [Hpend Hres]]]].
    + exists e. split; [exact Hev|]. split; [exact Hdec|]. now left.
    + destruct (Hinv _ _ Hpend) as [e [url [He [Hdec [Hurl Hlen]]]]].
      exists e. split; [exact He|]. split; [exact Hdec|]. right. exists o, url.
      split; [exact Hev|]. split; [exact Hres|].
      split; [exact Hurl|]. intros ->. cbn in Hlen. lia.
  - destruct (verify_request_Ok _ _ _ _ _ H) as [resolved [_ Hx]]. discriminate.
Qed.

(** X15: the credential [onSuccess] is called with was decoded from the
    token of a message of the execution that came from the issuer's
    origin and from the popup and named the active session; and the
    backend result is [null], or the answer to the request that settled,
    a [backendVerifyUrl] being configured. *)
Theorem onSuccess_credential_provenance `{P : Platform}
    (h : AgeGate.host) (c : AgeGate.config) (evs : list AgeGate.event)
    (jwt : string) (payload : object) (r : jsval) :
  In (AgeGate.OnSuccess jwt payload r) (snd (AgeGate.execute h c evs)) ->
  exists cl st effs e,
    AgeGate.launchAgeGate h c = AgeGate.Running cl st effs
    /\ In (AgeGate.Message e) evs
    /\ TraceSpec.decodes_to cl e jwt
    /\ (r = JNull
        \/ exists o url,
             In (AgeGate.BackendSettled o) evs
             /\ AgeGate.verify_response o = Ok r
             /\ AgeGate.backendVerifyUrl c = JStr url /\ url <> "").
Proof.
  intros Hin.
  destruct (execute_In h c evs _ Hin) as [Hl|[cl [st [effs [Hlaunch Hrun]]]]].
  { elim (launch_effects h c _ Hl). }
  destruct (launch_running h c cl st effs Hlaunch)
    as [Hcfg [_ [_ [_ [Hnone _]]]]].
  destruct (run_success_provenance cl st evs jwt payload r Hnone Hrun)
    as [e [He [Hdec Hr]]].
  exists cl, st, effs, e. rewrite Hcfg in Hr.
  split; [exact Hlaunch|]. split; [exact He|]. split; [exact Hdec | exact Hr].
Qed.

Lemma onSuccess_credential_provenance_witness :
  exists cl st effs e,
    AgeGate.launchAgeGate Example.page Example.callbacks_backend
    = AgeGate.Running cl st effs
    /\ In (AgeGate.Message e)
         [AgeGate.Message (Example.message "H4s2MTJlNjIyZTYz");
          AgeGate.BackendSettled Example.backend_ok]
    /\ TraceSpec.decodes_to (P := Example.platform) cl e "a.b.c"
    /\ (JObj [("valid", JBool true)] = JNull
        \/ exists o url,
             In (AgeGate.BackendSettled o)
               [AgeGate.Message (Example.message "H4s2MTJlNjIyZTYz");
                AgeGate.BackendSettled Example.backend_ok]
             /\ AgeGate.verify_response o = Ok (JObj [("valid", JBool true)])
             /\ AgeGate.backendVerifyUrl Example.callbacks_backend = JStr url
             /\ url <> "").
Proof.
  apply (@onSuccess_credential_provenance Example.platform
           Example.page Example.callbacks_backend
           [AgeGate.Message (Example.message "H4s2MTJlNjIyZTYz");
            AgeGate.BackendSettled Example.backend_ok]
           "a.b.c"
           [("include", JArr [JStr "session"; JStr "loa"]);
            ("agegateway_session", JStr Example.session_id);
            ("authenticationResponse", JObj [])]).
  vm_compute. repeat (first [left; reflexivity | right]).
Defined.

(* ----------------------------------------------------------------- *)
(** *** The handshake: a closed popup, a request in flight, no time-out *)

Section InFlight.
Context {P : Platform}.
Import AgeGate WireSpec TraceSpec.

(** While the request is in flight, an event ends the handshake, or it
    leaves the request in flight and is not its settlement. *)
Lemma step_busy (cl : closure) (st : state) (ev : event)
    (p : string * object) :
  done st = false -> processing st = true -> pending st = Some p ->
  done (fst (step cl st ev)) = true
  \/ (done (fst (step cl st ev)) = false
      /\ processing (fst (step cl st ev)) = true
      /\ pending (fst (step cl st ev)) = Some p
      /\ forall o, ev <> BackendSettled o).
Proof.
  intros Hd Hp Hn. unfold step.
  destruct (enabled st ev) eqn:Hen; cbn [fst].
  2:{ right. repeat split; auto. intros o ->. cbn in Hen.
      rewrite Hn in Hen. discriminate. }
  destruct ev as [e| | |o|]; cbn [fire].
  - unfold handler. rewrite Hd, Hp. cbn. right. repeat split; auto; discriminate.
  - unfold poll. destruct (popup_closed st); cbn;
      right; repeat split; auto; discriminate.
  - left. unfold timed_out, finishFailure. now rewrite finish_live.
  - left. unfold resume. rewrite Hn. destruct p as [jwt payload].
    unfold finishSuccess, finishFailure, finally.
    destruct (verify_response o); now rewrite finish_live.
  - right. cbn. repeat split; auto; discriminate.
Qed.

(** Without a time-out armed, the time-out events of a run change
    nothing. *)
Lemma run_without_timeout (cl : closure) (evs : list event) :
  forall st, timeout_armed st = false ->
    run step cl st evs = run step cl st (filter not_timeout evs).
Proof.
  induction evs as [|ev rest IH]; intros st Ht; [reflexivity|].
  assert (Ht1 : timeout_armed (fst (step cl st ev)) = false).
  { unfold step. destruct (enabled st ev); [|exact Ht].
    now apply fire_timeout_armed. }
  cbn [filter]. destruct (not_timeout ev) eqn:Hev.
  - rewrite !run_cons. now rewrite (IH _ Ht1).
  - destruct ev; try discriminate Hev.
    assert (Hstep : step cl st TimeoutFire = (st, []))
      by (unfold step; cbn [enabled]; now rewrite Ht).
    rewrite run_cons, Hstep. cbn [fst snd app].
    rewrite <- (IH _ Ht). now destruct (run step cl st rest).
Qed.


(** A run over two lists of events, one after the other. *)
Lemma run_app (cl : closure) (a b : list event) :
  forall st,
    run step cl st (a ++ b)
    = (fst (run step cl (fst (run step cl st a)) b),
       snd (run step cl st a)
       ++ snd (run step cl (fst (run step cl st a)) b)).
Proof.
  induction a as [|ev rest IH]; intros st.
  - cbn [app run fst snd]. now destruct (run step cl st b).
  - rewrite <- app_comm_cons, !run_cons, IH. cbn [fst snd].
    now rewrite app_assoc.
Qed.

(** A tick of the poll that finds the popup closed, the handshake live and
    no request in flight: no callback is called, then or later. *)
Lemma run_poll_closed (cl : closure) (st : state) (evs : list event) :
  done st = false -> pending st = None ->
  popup_closed st = true -> poll_armed st = true ->
  n_callbacks (snd (run step cl st (PollTick :: evs))) = 0%nat
  /\ done (fst (run step cl st (PollTick :: evs))) = false.
Proof.
  intros Hd Hn Hc Hp.
  destruct st as [d p li po ti ab pc pe]. cbn in Hd, Hn, Hc, Hp. subst d pe pc po.
  rewrite run_cons.
  cbn [step enabled fire poll popup_closed poll_armed fst snd andthen abort
       cleanup done processing listening timeout_armed aborted pending].
  rewrite run_unreachable by (repeat split).
  cbn [fst snd done]. split; [|reflexivity].
  now destruct (timeoutId cl).
Qed.

(** With no time-out armed, no request in flight and no message, no
    callback is called and the handshake does not terminate. *)
Lemma run_idle (cl : closure) (evs : list event) :
  forall st,
    done st = false -> pending st = None -> timeout_armed st = false ->
    (forall e, ~ In (Message e) evs) ->
    n_callbacks (snd (run step cl st evs)) = 0%nat
    /\ done (fst (run step cl st evs)) = false.
Proof.
  induction evs as [|ev rest IH]; intros st Hd Hn Ht Hm.
  - cbn. auto.
  - assert (Hstep : n_callbacks (snd (step cl st ev)) = 0%nat
                    /\ done (fst (step cl st ev)) = false
                    /\ pending (fst (step cl st ev)) = None
                    /\ timeout_armed (fst (step cl st ev)) = false).
    { destruct st as [d p li po ti ab pc pe]. cbn in Hd, Hn, Ht. subst d pe ti.
      destruct ev as [e| | |o|].
      - elim (Hm e). now left.
      - unfold step. cbn [enabled poll_armed].
        destruct po; [|cbn; auto].
        cbn [fire]. unfold poll. cbn [popup_closed].
        destruct pc; cbn; [|auto]. now destruct (timeoutId cl).
      - cbn. auto.
      - cbn. auto.
      - unfold step. cbn [enabled popup_closed]. destruct pc; cbn; auto. }
    destruct Hstep as [H0 [Hd1 [Hn1 Ht1]]].
    destruct (IH _ Hd1 Hn1 Ht1 (fun e He => Hm e (or_intror He))) as [H1 H2].
    rewrite run_cons. cbn [fst snd]. rewrite n_callbacks_app, H0, H1. auto.
Qed.

(** Only the full-page fallback navigates, and no callback is called in
    an execution that takes it. *)
Lemma execute_fallback (h : host) (c : config) (evs : list event)
    (url : verify_url) :
  In (LocationAssign url) (snd (execute h c evs)) ->
  n_callbacks (snd (execute h c evs)) = 0%nat.
Proof.
  intros Hin.
  destruct (execute_In h c evs _ Hin) as [Hl|[cl [st [effs [_ Hrun]]]]].
  - clear Hin. revert Hl. unfold execute, launchAgeGate.
    destruct (negb (noReferrerMeta h) && requireNoReferrer c).
    { unfold safeCallback.
      destruct (onFailure c), (onFailure_throws c); cbn;
        intuition discriminate. }
    destruct (Policy.normalizeSession _ _ _) as [s|err].
    2:{ destruct (negb (noReferrerMeta h)); cbn; intuition discriminate. }
    destruct (window_open h) as [w|].
    + cbn [launch_trace]. intros Hl. exfalso.
      apply in_app_or in Hl. destruct Hl as [Hl|Hl].
      * destruct (negb (noReferrerMeta h)); cbn in Hl; intuition discriminate.
      * destruct (timeoutMs c) as [| |b|n|t|l|o]; cbn in Hl;
          try (intuition discriminate).
        destruct (0 <? n); cbn in Hl; intuition discriminate.
    + destruct (allowFullPageFallback c).
      * intros _. cbn [snd]. rewrite n_callbacks_app.
        now destruct (negb (noReferrerMeta h)).
      * unfold safeCallback.
        destruct (onFailure c), (onFailure_throws c),
          (negb (noReferrerMeta h)); cbn; intuition discriminate.
  - exfalso.
    destruct (run_step_In cl (fun _ => True) evs (fun _ _ _ _ _ => I)
                evs st _ (incl_refl _) I Hrun) as [st' [ev [_ [_ [_ Hfire]]]]].
    destruct (fire_effects cl st' ev _ Hfire)
      as [H|[[err0 H]|[[jwt [payload [r [H _]]]]
                      |[e [jwt [payload [raw [_ [_ [_ [_ [_ H]]]]]]]]]]]];
      try discriminate.
    + destruct H as [H|[err1 H]]; [cbn in H; intuition discriminate | discriminate].
    + destruct (verify_request_Ok _ _ _ _ _ H) as [resolved [_ Hx]].
      discriminate.
Qed.

End InFlight.

(** C1, as amended: in every execution of [launchAgeGate] at most one
    callback is called, at most once, and after it nothing is done but to
    log what the callback threw, if it threw; when the handshake was
    running, it is then terminated, with the listener detached, both
    timers cleared, the request aborted and the popup closed; a handshake
    that terminates, both callbacks being supplied, does call one. No
    callback at all is called in an execution that takes the full-page
    fallback; nor in one where a tick of the poll finds the popup closed
    while the handshake is live and no request is in flight; nor, the
    handshake running, where no time-out was set up and no message
    arrives. *)
Theorem callback_at_most_once_and_last `{P : Platform}
    (h : AgeGate.host) (c : AgeGate.config) (evs : list AgeGate.event) :
  let t := snd (AgeGate.execute h c evs) in
  (AgeGate.n_callbacks t <= 1)%nat
  /\ (forall pre x post,
        t = pre ++ x :: post -> AgeGate.is_callback x = true ->
        post = match x with
               | AgeGate.OnSuccess _ _ _ =>
                   match AgeGate.onSuccess_throws c with
                   | Some err =>
                       [AgeGate.ConsoleError "[agegate] callback error" err]
                   | None => []
                   end
               | _ =>
                   match AgeGate.onFailure_throws c with
                   | Some err =>
                       [AgeGate.ConsoleError "[agegate] callback error" err]
                   | None => []
                   end
               end)
  /\ (forall st,
        fst (AgeGate.execute h c evs) = Some st ->
        AgeGate.n_callbacks t = 1%nat ->
        AgeGate.done st = true /\ WireSpec.torn_down st)
  /\ (forall st,
        fst (AgeGate.execute h c evs) = Some st ->
        AgeGate.done st = true ->
        AgeGate.onSuccess c = true -> AgeGate.onFailure c = true ->
        AgeGate.n_callbacks t = 1%nat)
  /\ (forall url,
        In (AgeGate.LocationAssign url) t -> AgeGate.n_callbacks t = 0%nat)
  /\ (forall before after st,
        evs = before ++ AgeGate.PollTick :: after ->
        fst (AgeGate.execute h c before) = Some st ->
        AgeGate.done st = false -> AgeGate.pending st = None ->
        AgeGate.popup_closed st = true -> AgeGate.poll_armed st = true ->
        AgeGate.n_callbacks t = 0%nat)
  /\ (forall st,
        AgeGate.timeout_valid (AgeGate.timeoutMs c) = false ->
        (forall e, ~ In (AgeGate.Message e) evs) ->
        fst (AgeGate.execute h c evs) = Some st ->
        AgeGate.n_callbacks t = 0%nat /\ AgeGate.done st = false).
Proof.
  cbv zeta.
  assert (Hafter : forall t,
            WireSpec.callback_last c t ->
            (AgeGate.n_callbacks t <= 1)%nat
            /\ forall pre x post,
                 t = pre ++ x :: post -> AgeGate.is_callback x = true ->
                 post = match x with
                        | AgeGate.OnSuccess _ _ _ =>
                            match AgeGate.onSuccess_throws c with
                            | Some err =>
                                [AgeGate.ConsoleError "[agegate] callback error" err]
                            | None => []
                            end
                        | _ =>
                            match AgeGate.onFailure_throws c with
                            | Some err =>
                                [AgeGate.ConsoleError "[agegate] callback error" err]
                            | None => []
                            end
                        end).
  { intros t Ht. destruct (callback_last_spec c t Ht) as [H1 H2].
    split; [exact H1|]. intros pre x post Heq Hx.
    rewrite (H2 pre x post Heq Hx).
    destruct x; try discriminate Hx; reflexivity. }
  split; [|split; [|split; [|split; [|split; [|split]]]]].
  5:{ intros url. apply execute_fallback. }
  all: unfold AgeGate.execute.
  all: pose proof (launch_shape h c) as Hl.
  all: destruct (AgeGate.launchAgeGate h c) as [effs|effs err|cl st effs] eqn:Hlaunch;
    cbn [fst snd].
  all: try (intros; discriminate).
  all: try (intros ? ? ? ? ?; discriminate).
  - exact (proj1 (Hafter _ Hl)).
  - exact (proj1 (Hafter _ (or_introl Hl))).
  - destruct Hl as [Hn [Hd [_ [_ Hcfg]]]].
    assert (Hinv : AgeGate.done st = true -> WireSpec.torn_down st) by congruence.
    destruct (run_step_shape cl evs st Hinv) as [_ [_ Hlive]].
    destruct (AgeGate.run AgeGate.step cl st evs) as [st' t]. cbn [fst snd] in *.
    apply (Hafter (effs ++ t)). apply callback_last_prepend; [exact Hn|].
    rewrite <- Hcfg.
    destruct (Hlive Hd) as [[_ H]|[_ [H _]]]; [now left | exact H].
  - exact (proj2 (Hafter _ Hl)).
  - exact (proj2 (Hafter _ (or_introl Hl))).
  - destruct Hl as [Hn [Hd [_ [_ Hcfg]]]].
    assert (Hinv : AgeGate.done st = true -> WireSpec.torn_down st) by congruence.
    destruct (run_step_shape cl evs st Hinv) as [_ [_ Hlive]].
    destruct (AgeGate.run AgeGate.step cl st evs) as [st' t]. cbn [fst snd] in *.
    apply (Hafter (effs ++ t)). apply callback_last_prepend; [exact Hn|].
    rewrite <- Hcfg.
    destruct (Hlive Hd) as [[_ H]|[_ [H _]]]; [now left | exact H].
  - destruct Hl as [Hn [Hd _]].
    assert (Hinv : AgeGate.done st = true -> WireSpec.torn_down st) by congruence.
    destruct (run_step_shape cl evs st Hinv) as [Hinv' [_ Hlive]].
    destruct (AgeGate.run AgeGate.step cl st evs) as [st' t]. cbn [fst snd] in *.
    intros st0 Hst Hone. injection Hst as <-.
    destruct (Hlive Hd) as [[_ H]|[Hd' _]].
    + rewrite n_callbacks_app in Hone. lia.
    + auto.
  - destruct Hl as [Hn [Hd [_ [_ Hcfg]]]].
    assert (Hinv : AgeGate.done st = true -> WireSpec.torn_down st) by congruence.
    destruct (run_step_shape cl evs st Hinv) as [_ [_ Hlive]].
    destruct (AgeGate.run AgeGate.step cl st evs) as [st' t]. cbn [fst snd] in *.
    intros st0 Hst Hdone Hs Hf. injection Hst as <-.
    destruct (Hlive Hd) as [[Hd' _]|[_ [_ Hone]]]; [congruence|].
    rewrite n_callbacks_app, Hn, Hone; [reflexivity | |]; now rewrite Hcfg.
  - destruct Hl as [Hn [Hd _]].
    intros before after st0 -> Hst Hd0 Hn0 Hc0 Hp0.
    assert (Hinv : AgeGate.done st = true -> WireSpec.torn_down st) by congruence.
    destruct (run_step_shape cl before st Hinv) as [_ [_ Hlive]].
    rewrite run_app. cbn [fst snd].
    destruct (AgeGate.run AgeGate.step cl st before) as [st1 t1].
    cbn [fst snd] in *. injection Hst as <-.
    destruct (run_poll_closed cl st1 after Hd0 Hn0 Hc0 Hp0) as [Hz _].
    destruct (Hlive Hd) as [[_ H]|[Hd' _]]; [|congruence].
    rewrite !n_callbacks_app, Hn, H, Hz. reflexivity.
  - destruct Hl as [Hn [Hd _]].
    intros st0 Hv Hm Hst.
    destruct (launch_running h c cl st effs Hlaunch)
      as [_ [_ [_ [_ [Hnone [Ht _]]]]]].
    rewrite Hv in Ht.
    destruct (run_idle cl evs st Hd Hnone Ht Hm) as [Hz Hd'].
    destruct (AgeGate.run AgeGate.step cl st evs) as [st' t]. cbn [fst snd] in *.
    injection Hst as <-. rewrite n_callbacks_app, Hn, Hz. auto.
Qed.

Lemma callback_at_most_once_and_last_witness :
  AgeGate.n_callbacks
    (snd (AgeGate.execute (P := Example.platform)
            Example.page Example.callbacks_throwing
            [AgeGate.TimeoutFire; AgeGate.PollTick])) = 1%nat
  /\ AgeGate.n_callbacks
       (snd (AgeGate.execute (P := Example.platform)
               Example.page Example.callbacks_throwing
               [AgeGate.PopupClosedByUser; AgeGate.PollTick;
                AgeGate.TimeoutFire])) = 0%nat.
Proof.
  split.
  - exact (proj1 (proj2 (proj2 (proj2
             (@callback_at_most_once_and_last Example.platform
                Example.page Example.callbacks_throwing
                [AgeGate.TimeoutFire; AgeGate.PollTick]))))
             Example.terminated eq_refl eq_refl eq_refl eq_refl).
  - exact (proj1 (proj2 (proj2 (proj2 (proj2 (proj2
             (@callback_at_most_once_and_last Example.platform
                Example.page Example.callbacks_throwing
                [AgeGate.PopupClosedByUser; AgeGate.PollTick;
                 AgeGate.TimeoutFire]))))))
             [AgeGate.PopupClosedByUser] [AgeGate.TimeoutFire]
             {| AgeGate.done := false; AgeGate.processing := false;
                AgeGate.listening := true; AgeGate.poll_armed := true;
                AgeGate.timeout_armed := true; AgeGate.aborted := false;
                AgeGate.popup_closed := true; AgeGate.pending := None |}
             eq_refl eq_refl eq_refl eq_refl eq_refl eq_refl).
Defined.

(** C1, as stated, fails: with the popup blocked and the fallback allowed,
    with the popup found closed by the poll, and with no time-out and no
    message, no callback is ever called, both being supplied. *)
Lemma launch_without_any_callback :
  AgeGate.n_callbacks
    (snd (AgeGate.execute (P := Example.platform)
            Example.page_blocking Example.callbacks [])) = 0%nat
  /\ AgeGate.n_callbacks
       (snd (AgeGate.execute (P := Example.platform)
               Example.page Example.callbacks
               [AgeGate.PopupClosedByUser; AgeGate.PollTick;
                AgeGate.PollTick; AgeGate.TimeoutFire])) = 0%nat
  /\ AgeGate.n_callbacks
       (snd (AgeGate.execute (P := Example.platform)
               Example.page Example.callbacks
               [AgeGate.PollTick; AgeGate.PollTick; AgeGate.PollTick])) = 0%nat.
Proof. repeat split. Qed.


(** X16: when the popup is closed and the poll ticks while no request is
    in flight, the controller aborts and cleans up and that is all: the
    popup is not closed by it, [done] is left as it was, no callback is
    called, and no event can reach the handshake any more. *)
Theorem closed_popup_ends_quietly `{P : Platform}
    (cl : AgeGate.closure) (st : AgeGate.state) (evs : list AgeGate.event) :
  AgeGate.poll_armed st = true ->
  AgeGate.pending st = None ->
  let r := AgeGate.run AgeGate.step cl st
             (AgeGate.PopupClosedByUser :: AgeGate.PollTick :: evs) in
  snd r = [AgeGate.Abort; AgeGate.RemoveListener; AgeGate.ClearInterval]
          ++ (if AgeGate.timeoutId cl then [AgeGate.ClearTimeout] else [])
  /\ AgeGate.n_callbacks (snd r) = 0%nat
  /\ AgeGate.done (fst r) = AgeGate.done st
  /\ TraceSpec.unreachable (fst r).
Proof.
  intros Hp Hn. cbv zeta.
  assert (Hrun : exists st',
            AgeGate.run AgeGate.step cl st
              (AgeGate.PopupClosedByUser :: AgeGate.PollTick :: evs)
            = (st', [AgeGate.Abort; AgeGate.RemoveListener; AgeGate.ClearInterval]
                    ++ (if AgeGate.timeoutId cl then [AgeGate.ClearTimeout] else []))
            /\ AgeGate.done st' = AgeGate.done st
            /\ TraceSpec.unreachable st').
  { destruct st as [d p li po ti ab pc pe]. cbn in Hp, Hn. subst po pe.
    rewrite !run_cons.
    destruct pc; cbn [AgeGate.step AgeGate.enabled AgeGate.fire AgeGate.poll
                      AgeGate.popup_closed AgeGate.poll_armed negb fst snd
                      AgeGate.set_popup_closed AgeGate.andthen AgeGate.abort
                      AgeGate.cleanup AgeGate.done AgeGate.processing
                      AgeGate.listening AgeGate.timeout_armed AgeGate.aborted
                      AgeGate.pending];
      (rewrite run_unreachable by (repeat split));
      cbn [fst snd app]; rewrite ?app_nil_r;
      (eexists; split; [reflexivity|]; repeat split). }
  destruct Hrun as [st' [-> [Hd Hu]]]. cbn [fst snd].
  repeat split; try exact Hd; try apply Hu.
  now destruct (AgeGate.timeoutId cl).
Qed.

Lemma closed_popup_ends_quietly_witness :
  AgeGate.n_callbacks
    (snd (AgeGate.run (AgeGate.step (P := Example.platform))
            Example.running Example.listening
            [AgeGate.PopupClosedByUser; AgeGate.PollTick;
             AgeGate.Message (Example.message "H4s2MTJlNjIyZTYz");
             AgeGate.TimeoutFire])) = 0%nat.
Proof.
  exact (proj1 (proj2
           (@closed_popup_ends_quietly Example.platform
              Example.running Example.listening
              [AgeGate.Message (Example.message "H4s2MTJlNjIyZTYz");
               AgeGate.TimeoutFire]
              eq_refl eq_refl))).
Defined.

(** X17: once the request to the backend is in flight, its settlement
    ends in exactly one callback, both being supplied, whatever else
    happens first: further messages, the popup closed and the poll cleaning
    up, the time-out. *)
Theorem request_in_flight_calls_back `{P : Platform}
    (cl : AgeGate.closure) (st : AgeGate.state) (evs : list AgeGate.event)
    (jwt : string) (payload : object) (o : AgeGate.fetch_outcome) :
  AgeGate.done st = false ->
  AgeGate.processing st = true ->
  AgeGate.pending st = Some (jwt, payload) ->
  AgeGate.onSuccess (AgeGate.cfg cl) = true ->
  AgeGate.onFailure (AgeGate.cfg cl) = true ->
  In (AgeGate.BackendSettled o) evs ->
  AgeGate.n_callbacks (snd (AgeGate.run AgeGate.step cl st evs)) = 1%nat
  /\ AgeGate.done (fst (AgeGate.run AgeGate.step cl st evs)) = true.
Proof.
  intros Hd Hp Hn Hs Hf. revert st Hd Hp Hn.
  induction evs as [|ev rest IH]; intros st Hd Hp Hn Hin; [contradiction|].
  rewrite run_cons. cbn [fst snd]. rewrite n_callbacks_app.
  assert (Hinv : AgeGate.done st = true -> WireSpec.torn_down st) by congruence.
  destruct (step_shape cl st ev Hinv) as [Hinv1 [_ Hlive]].
  destruct (run_step_shape cl rest _ Hinv1) as [_ [Hdone2 _]].
  destruct (step_busy cl st ev (jwt, payload) Hd Hp Hn)
    as [Hd1|[Hd1 [Hp1 [Hn1 Hne]]]].
  - destruct (Hlive Hd) as [[Hd1' _]|[_ [_ Hone]]]; [congruence|].
    destruct (Hdone2 Hd1) as [-> Hd2]. rewrite (Hone Hs Hf). auto.
  - destruct (Hlive Hd) as [[_ Hzero]|[Hd1' _]]; [|congruence].
    destruct Hin as [->|Hin]; [elim (Hne o); reflexivity|].
    destruct (IH _ Hd1 Hp1 Hn1 Hin) as [Hone Hd2].
    rewrite Hzero, Hone. auto.
Qed.

Lemma request_in_flight_calls_back_witness :
  AgeGate.n_callbacks
    (snd (AgeGate.run (AgeGate.step (P := Example.platform))
            Example.running_backend Example.in_flight
            [AgeGate.PopupClosedByUser; AgeGate.PollTick;
             AgeGate.BackendSettled (AgeGate.Rejected (ErrorObj "AbortError"))]))
  = 1%nat.
Proof.
  refine (proj1 (@request_in_flight_calls_back Example.platform
                   Example.running_backend Example.in_flight
                   [AgeGate.PopupClosedByUser; AgeGate.PollTick;
                    AgeGate.BackendSettled (AgeGate.Rejected (ErrorObj "AbortError"))]
                   "a.b.c"
                   (AgeGate.make_payload (Some ["session"; "loa"])
                      Example.session_id (JObj []))
                   (AgeGate.Rejected (ErrorObj "AbortError"))
                   eq_refl eq_refl eq_refl eq_refl eq_refl _)).
  right. right. left. reflexivity.
Defined.

(** X18: with a [timeoutMs] that is not a positive number no time-out is
    armed, and the firing of a time-out changes nothing in any
    execution. *)
Theorem no_timeout_without_positive_timeoutMs `{P : Platform}
    (h : AgeGate.host) (c : AgeGate.config) (evs : list AgeGate.event) :
  AgeGate.timeout_valid (AgeGate.timeoutMs c) = false ->
  AgeGate.execute h c evs
  = AgeGate.execute h c (filter TraceSpec.not_timeout evs)
  /\ forall ms, ~ In (AgeGate.SetTimeout ms) (snd (AgeGate.execute h c evs)).
Proof.
  intros Hv. split.
  - unfold AgeGate.execute.
    destruct (AgeGate.launchAgeGate h c) as [effs|effs err|cl st effs] eqn:Hl;
      try reflexivity.
    destruct (launch_running h c cl st effs Hl) as [_ [_ [_ [_ [_ [Ht _]]]]]].
    rewrite Hv in Ht. now rewrite (run_without_timeout cl evs st Ht).
  - intros ms Hin.
    destruct (execute_In h c evs _ Hin) as [Hl|[cl [st [effs [_ Hrun]]]]].
    + destruct (launch_effects h c _ Hl) as [Hms Hpos].
      rewrite Hms in Hv. cbn in Hv. apply Z.ltb_ge in Hv. lia.
    + destruct (run_step_In cl (fun _ => True) evs (fun _ _ _ _ _ => I)
                  evs st _ (incl_refl _) I Hrun) as [st' [ev [_ [_ [_ Hfire]]]]].
      destruct (fire_effects cl st' ev _ Hfire)
        as [H|[[err0 H]|[[jwt [payload [r [H _]]]]
                        |[e [jwt [payload [raw [_ [_ [_ [_ [_ H]]]]]]]]]]]];
        try discriminate.
      * destruct H as [H|[err1 H]]; [cbn in H; intuition discriminate | discriminate].
      * destruct (verify_request_Ok _ _ _ _ _ H) as [resolved [_ Hx]].
        discriminate.
Qed.

Lemma no_timeout_without_positive_timeoutMs_witness :
  AgeGate.execute (P := Example.platform) Example.page Example.callbacks
    [AgeGate.TimeoutFire; AgeGate.PopupClosedByUser; AgeGate.TimeoutFire]
  = AgeGate.execute (P := Example.platform) Example.page Example.callbacks
      [AgeGate.PopupClosedByUser].
Proof.
  exact (proj1 (@no_timeout_without_positive_timeoutMs Example.platform
                  Example.page Example.callbacks
                  [AgeGate.TimeoutFire; AgeGate.PopupClosedByUser;
                   AgeGate.TimeoutFire]
                  eq_refl)).
Defined.

(** X19: when the backend answers a request in flight of a live
    handshake, a response that is [ok] ends in the success callback, the
    backend result being exactly what the JSON body parses to when the
    content type names [application/json] and the body parses, and [null]
    otherwise; a response that is not [ok] ends in the failure callback,
    its message being [backend verification failed: ], the status and,
    after a space, the text of the body when there is one. *)
Theorem backend_response_decides `{P : Platform}
    (cl : AgeGate.closure) (st : AgeGate.state) (jwt : string)
    (payload : object) (res : AgeGate.response) :
  AgeGate.done st = false ->
  AgeGate.pending st = Some (jwt, payload) ->
  let t := snd (AgeGate.step cl st (AgeGate.BackendSettled (AgeGate.Responded res))) in
  (AgeGate.ok res = true ->
   t = WireSpec.teardown cl
       ++ AgeGate.safeCallback (AgeGate.onSuccess (AgeGate.cfg cl))
            (AgeGate.onSuccess_throws (AgeGate.cfg cl))
            (AgeGate.OnSuccess jwt payload
               match AgeGate.content_type res, AgeGate.json res with
               | Some ct, Ok v =>
                   if contains "application/json" ct then v else JNull
               | _, _ => JNull
               end))
  /\ (AgeGate.ok res = false ->
      t = WireSpec.teardown cl
          ++ AgeGate.safeCallback (AgeGate.onFailure (AgeGate.cfg cl))
               (AgeGate.onFailure_throws (AgeGate.cfg cl))
               (AgeGate.OnFailure
                  (ErrorObj ("backend verification failed: "
                             ++ AgeGate.status res
                             ++ match AgeGate.text res with
                                | Ok EmptyString | Throw _ => ""
                                | Ok body => " " ++ body
                                end)%string))).
Proof.
  intros Hd Hn. cbv zeta.
  unfold AgeGate.step. cbn [AgeGate.enabled AgeGate.fire]. rewrite Hn.
  unfold AgeGate.resume. rewrite Hn.
  unfold AgeGate.finishSuccess, AgeGate.finishFailure, AgeGate.finally.
  assert (Hd1 : AgeGate.done (AgeGate.set_pending None st) = false) by exact Hd.
  unfold AgeGate.verify_response.
  split; intros Hok; rewrite Hok; cbn [negb].
  - destruct (AgeGate.content_type res) as [ct|] eqn:Hct.
    + destruct (contains "application/json" ct) eqn:Hjson; cbn [negb].
      * destruct (AgeGate.json res) as [v|err] eqn:Hv;
          rewrite (finish_live cl _ _ Hd1); reflexivity.
      * rewrite (finish_live cl _ _ Hd1). cbn [snd].
        destruct (AgeGate.json res); reflexivity.
    + cbn. rewrite (finish_live cl _ _ Hd1). reflexivity.
  - unfold throw_msg. rewrite (finish_live cl _ _ Hd1). cbn [snd AgeGate.asError].
    destruct (AgeGate.text res) as [[|a body]|err]; reflexivity.
Qed.

Lemma backend_response_decides_witness :
  snd (AgeGate.step (P := Example.platform)
         Example.running_backend Example.in_flight
         (AgeGate.BackendSettled Example.backend_ok))
  = WireSpec.teardown Example.running_backend
    ++ [AgeGate.OnSuccess "a.b.c"
          (AgeGate.make_payload (Some ["session"; "loa"])
             Example.session_id (JObj []))
          (JObj [("valid", JBool true)])]
  /\ snd (AgeGate.step (P := Example.platform)
            Example.running_backend Example.in_flight
            (AgeGate.BackendSettled Example.backend_denied))
     = WireSpec.teardown Example.running_backend
       ++ [AgeGate.OnFailure
             (ErrorObj "backend verification failed: 403 denied")].
Proof.
  split.
  - exact (proj1 (@backend_response_decides Example.platform
                    Example.running_backend Example.in_flight "a.b.c"
                    (AgeGate.make_payload (Some ["session"; "loa"])
                       Example.session_id (JObj []))
                    {| AgeGate.ok := true; AgeGate.status := "200";
                       AgeGate.text := Ok "{}";
                       AgeGate.content_type := Some "application/json; charset=utf-8";
                       AgeGate.json := Ok (JObj [("valid", JBool true)]) |}
                    eq_refl eq_refl) eq_refl).
  - exact (proj2 (@backend_response_decides Example.platform
                    Example.running_backend Example.in_flight "a.b.c"
                    (AgeGate.make_payload (Some ["session"; "loa"])
                       Example.session_id (JObj []))
                    {| AgeGate.ok := false; AgeGate.status := "403";
                       AgeGate.text := Ok "denied";
                       AgeGate.content_type := Some "text/plain";
                       AgeGate.json := Throw (ErrorObj "Unexpected token") |}
                    eq_refl eq_refl) eq_refl).
Defined.

(* ----------------------------------------------------------------- *)
(** *** src/easy-agegate.js: the include list of the wrapper *)

Section WrapperInclude.
Import Policy EasyAgeGate.

Lemma ensure_loop_incl (base : list jsval) :
  forall out s, In s out -> In s (ensure_loop base out).
Proof.
  induction base as [|v rest IH]; intros out s Hs; cbn [ensure_loop]; [exact Hs|].
  destruct v; try now apply IH.
  destruct (negb (truthy _)); [now apply IH|].
  destruct (negb (includes _ _)); [|now apply IH].
  apply IH. apply in_or_app. now left.
Qed.

Lemma ensure_loop_NoDup (base : list jsval) :
  forall out, NoDup out -> NoDup (ensure_loop base out).
Proof.
  induction base as [|v rest IH]; intros out Hout; cbn [ensure_loop]; [exact Hout|].
  destruct v; try now apply IH.
  destruct (negb (truthy _)); [now apply IH|].
  destruct (includes out (trim s)) eqn:Hin; cbn [negb]; [now apply IH|].
  apply IH. apply NoDup_app; [assumption | repeat constructor; tauto |].
  intros x Hx [<-|[]].
  apply includes_true_iff in Hx. congruence.
Qed.

Lemma truthy_string (t : string) : truthy (JStr t) = true <-> t <> "".
Proof.
  cbn. rewrite negb_true_iff. split.
  - intros H ->. discriminate H.
  - intros H. destruct (t =? "")%string eqn:E; [|reflexivity].
    apply String.eqb_eq in E. contradiction.
Qed.

(** Whatever the loop adds is the trimming of a string entry, not
    empty. *)
Lemma ensure_loop_Forall (Q : string -> Prop) (base : list jsval) :
  (forall str, In (JStr str) base -> trim str <> "" -> Q (trim str)) ->
  forall out, Forall Q out -> Forall Q (ensure_loop base out).
Proof.
  induction base as [|v rest IH]; intros HQ out Hout; cbn [ensure_loop];
    [assumption|].
  assert (HQ' : forall str, In (JStr str) rest -> trim str <> "" -> Q (trim str))
    by (intros str Hin; apply HQ; now right).
  destruct v; try now apply IH.
  destruct (truthy (JStr (trim s))) eqn:Ht; cbn [negb]; [|now apply IH].
  destruct (negb (includes _ _)); [|now apply IH].
  apply IH; [assumption|]. apply Forall_app. split; [assumption|].
  constructor; [|constructor]. apply HQ; [now left|].
  now apply truthy_string.
Qed.

(** And it misses none. *)
Lemma ensure_loop_complete (base : list jsval) (str : string) :
  In (JStr str) base -> trim str <> "" ->
  forall out, In (trim str) (ensure_loop base out).
Proof.
  induction base as [|v rest IH]; intros Hin Hne out; [contradiction|].
  cbn [ensure_loop]. destruct Hin as [->|Hin].
  - apply truthy_string in Hne. rewrite Hne. cbn [negb].
    destruct (includes out (trim str)) eqn:Hi; cbn [negb].
    + apply ensure_loop_incl. now apply includes_true_iff.
    + apply ensure_loop_incl. apply in_or_app. right. now left.
  - destruct v; try now apply IH.
    destruct (negb (truthy _)); [now apply IH|].
    destruct (negb (includes _ _)); now apply IH.
Qed.

Lemma sanitize_loop_incl (lim : limits) (items : list jsval) :
  forall out s, In s out -> In s (sanitize_loop lim items out).
Proof.
  induction items as [|item rest IH]; intros out s Hs; cbn [sanitize_loop];
    [exact Hs|].
  destruct (js_ge _ _); [exact Hs|].
  destruct item; try now apply IH.
  destruct (_ || _); [now apply IH|].
  destruct (negb _); [|now apply IH].
  apply IH. apply in_or_app. now left.
Qed.

Lemma sanitize_loop_grows (lim : limits) (items : list jsval) :
  forall out, (length out <= length (sanitize_loop lim items out))%nat.
Proof.
  induction items as [|item rest IH]; intros out; cbn [sanitize_loop]; [lia|].
  destruct (js_ge _ _); [lia|].
  destruct item; try apply IH.
  destruct (_ || _); [apply IH|].
  destruct (negb _); [|apply IH].
  etransitivity; [|apply IH]. rewrite length_app. cbn [length]. lia.
Qed.

(** An entry within the ceilings is kept, unless the list was full before
    its turn came. *)
Lemma sanitize_loop_keeps (lim : limits) (items : list jsval) (str : string) :
  In (JStr str) items -> trim str <> "" ->
  js_gt (strlen (trim str)) (maxIncludeItemLen lim) = false ->
  forall out,
    In (trim str) (sanitize_loop lim items out)
    \/ js_ge (Z.of_nat (length (sanitize_loop lim items out)))
             (maxIncludeItems lim) = true.
Proof.
  induction items as [|item rest IH]; intros Hin Hne Hlen out; [contradiction|].
  cbn [sanitize_loop].
  destruct (js_ge (Z.of_nat (length out)) (maxIncludeItems lim)) eqn:Hfull.
  { now right. }
  destruct Hin as [->|Hin].
  - replace (strlen (trim str) =? 0) with false
      by (symmetry; apply Z.eqb_neq; intros Hz; now apply Hne, strlen_zero).
    rewrite Hlen. cbn [orb]. left.
    destruct (includes out (trim str)) eqn:Hi; cbn [negb].
    + apply sanitize_loop_incl. now apply includes_true_iff.
    + apply sanitize_loop_incl. apply in_or_app. right. now left.
  - destruct item; try now apply IH.
    destruct (_ || _); [now apply IH|].
    destruct (negb _); now apply IH.
Qed.

End WrapperInclude.

(** X20: the list [ensureSessionInclude] returns has no duplicates and
    always holds [session]; its other entries are the trimmed, non-empty
    string entries of the input, every one of them. *)
Theorem ensureSessionInclude_adds_session (input : jsval) :
  let r := EasyAgeGate.ensureSessionInclude input in
  In "session" r
  /\ NoDup r
  /\ (forall s, In s r ->
        s = "session"
        \/ exists items str,
             input = JArr items /\ In (JStr str) items /\ s = trim str /\ s <> "")
  /\ (forall items str,
        input = JArr items -> In (JStr str) items -> trim str <> "" ->
        In (trim str) r).
Proof.
  cbv zeta. unfold EasyAgeGate.ensureSessionInclude.
  set (base := match input with JArr items => items | _ => [] end).
  assert (Hnd : NoDup (EasyAgeGate.ensure_loop base []))
    by (apply ensure_loop_NoDup; constructor).
  assert (Hall : Forall (fun s => exists items str,
                           input = JArr items /\ In (JStr str) items
                           /\ s = trim str /\ s <> "")
                   (EasyAgeGate.ensure_loop base [])).
  { apply ensure_loop_Forall; [|constructor].
    intros str Hin Hne. subst base.
    destruct input; try contradiction. now exists items, str. }
  rewrite Forall_forall in Hall.
  destruct (includes (EasyAgeGate.ensure_loop base []) "session") eqn:Hs;
    cbn [negb].
  - split; [now apply includes_true_iff|]. split; [exact Hnd|]. split.
    + intros s Hin. right. now apply Hall.
    + intros items str -> Hin Hne. now apply ensure_loop_complete.
  - split; [now left|]. split.
    + constructor; [|exact Hnd]. intros Hin.
      apply includes_true_iff in Hin. congruence.
    + split.
      * intros s [<-|Hin]; [now left | right; now apply Hall].
      * intros items str -> Hin Hne. right. now apply ensure_loop_complete.
Qed.

(** X21: the wrapper's list, sanitised as [launchAgeGate] sanitises what
    it is given, is never dropped; it holds [session], unless eight other
    entries came before it and filled the list. *)
Theorem launched_include_keeps_session (include : jsval) :
  exists r,
    EasyAgeGate.launched_include include = Some r
    /\ (In "session" r \/ length r = 8%nat).
Proof.
  unfold EasyAgeGate.launched_include, Policy.sanitizeInclude.
  cbn [Policy.merge].
  set (items := map JStr (EasyAgeGate.ensureSessionInclude include)).
  assert (Hin : In (JStr "session") items).
  { apply in_map. unfold EasyAgeGate.ensureSessionInclude.
    destruct (includes _ "session") eqn:Hs; cbn [negb].
    - now apply includes_true_iff.
    - now left. }
  pose proof (sanitize_loop_keeps Policy.DEFAULT_LIMITS items "session" Hin) as Hk.
  change (trim "session") with "session" in Hk.
  specialize (Hk ltac:(discriminate) eq_refl []).
  pose proof (sanitize_loop_length Policy.DEFAULT_LIMITS items []) as Hmax.
  change (Policy.maxIncludeItems Policy.DEFAULT_LIMITS)
    with (Num (inject_Z 8)) in Hk, Hmax.
  rewrite js_ge_Z in Hk, Hmax. cbn [length] in Hmax.
  set (r := Policy.sanitize_loop Policy.DEFAULT_LIMITS items []) in *.
  rewrite Z.leb_le in Hk. rewrite Z.leb_gt in Hmax.
  assert (Hpos : 0 < Z.of_nat (length r)).
  { destruct Hk as [Hk|Hk]; [|lia]. destruct r; [contradiction | cbn; lia]. }
  assert (Hpos' := Hpos). apply Z.ltb_lt in Hpos'. rewrite Hpos'.
  exists r. split; [reflexivity|].
  destruct Hk as [Hk|Hk]; [now left | right].
  destruct Hmax as [Hsame|Hroom]; lia.
Qed.

(** In nine entries with [session] last, [session] is lost. *)
Example launched_include_full :
  EasyAgeGate.launched_include
    (JArr (map JStr ["a"; "b"; "c"; "d"; "e"; "f"; "g"; "h"; "session"]))
  = Some ["a"; "b"; "c"; "d"; "e"; "f"; "g"; "h"].
Proof. reflexivity. Qed.

(* ----------------------------------------------------------------- *)
(** *** src/easy-agegate.js: escaping and numbers *)

Section Escaping.
Import EasyAgeGate EscapeSpec.

Lemma string_app_assoc (a b c : string) :
  ((a ++ b) ++ c)%string = (a ++ (b ++ c))%string.
Proof. induction a as [|x a IH]; cbn; [reflexivity | now rewrite IH]. Qed.

Lemma replace_all_app (c : ascii) (by_ a b : string) :
  replace_all c by_ (a ++ b)%string
  = (replace_all c by_ a ++ replace_all c by_ b)%string.
Proof.
  induction a as [|x a IH]; cbn [String.append replace_all]; [reflexivity|].
  rewrite IH. destruct (x =? c)%char; [|reflexivity].
  now rewrite string_app_assoc.
Qed.

Lemma htmlEscape_app (a b : string) :
  htmlEscape (a ++ b)%string = (htmlEscape a ++ htmlEscape b)%string.
Proof. unfold htmlEscape. now rewrite !replace_all_app. Qed.

Lemma htmlEscape_char (c : ascii) : htmlEscape (String c "") = entity c.
Proof. destruct c as [[] [] [] [] [] [] [] []]; reflexivity. Qed.

Lemma entity_no_markup (c : ascii) :
  string_forallb (fun x => negb (markup x)) (entity c) = true.
Proof. destruct c as [[] [] [] [] [] [] [] []]; reflexivity. Qed.

Lemma entity_plain (c : ascii) :
  negb (markup c || (c =? "&")%char) = true -> entity c = String c "".
Proof. destruct c as [[] [] [] [] [] [] [] []]; try reflexivity; discriminate. Qed.

Lemma htmlEscape_escaped (s : string) : htmlEscape s = escaped s.
Proof.
  induction s as [|c r IH]; [reflexivity|].
  change (String c r) with (String c "" ++ r)%string.
  rewrite htmlEscape_app, htmlEscape_char, IH. reflexivity.
Qed.

End Escaping.

(** X22: the five replacements of [htmlEscape], made one after the other,
    come to one pass that writes every [&], [<], [>], double quote and
    apostrophe as its entity and leaves the rest; so the result holds none
    of [<], [>], double quote and apostrophe, and a text without the five
    characters is returned as it is. *)
Theorem htmlEscape_one_pass (value : string) :
  EasyAgeGate.htmlEscape value = EscapeSpec.escaped value
  /\ string_forallb (fun c => negb (EscapeSpec.markup c))
       (EasyAgeGate.htmlEscape value) = true
  /\ (string_forallb (fun c => negb (EscapeSpec.markup c || (c =? "&")%char))
        value = true ->
      EasyAgeGate.htmlEscape value = value).
Proof.
  rewrite htmlEscape_escaped. split; [reflexivity|]. split.
  - induction value as [|c r IH]; [reflexivity|].
    cbn [EscapeSpec.escaped]. now rewrite forallb_string_app, entity_no_markup, IH.
  - induction value as [|c r IH]; [reflexivity|].
    cbn [string_forallb EscapeSpec.escaped]. intros H.
    apply andb_true_iff in H. destruct H as [Hc Hr].
    now rewrite (entity_plain c Hc), (IH Hr).
Qed.

(** X23: [clampNumber] returns a number within [min] and [max], these
    being in order and the fallback between them, whatever it is given;
    and [asPositiveNumber] returns a positive number, the fallback being
    one. Either leaves its own result as it is: the style sheet, which
    normalises again what [normalizeConfig] normalised, changes nothing. *)
Theorem numbers_stay_normalised (value : EasyAgeGate.number)
    (min max fallback : Q) :
  (min <= fallback)%Q -> (fallback <= max)%Q ->
  let r := EasyAgeGate.clampNumber value min max fallback in
  let p := EasyAgeGate.asPositiveNumber value fallback in
  ((min <= r)%Q /\ (r <= max)%Q
   /\ EasyAgeGate.clampNumber (EasyAgeGate.Finite r) min max fallback = r)
  /\ ((0 < fallback)%Q ->
      (0 < p)%Q /\ EasyAgeGate.asPositiveNumber (EasyAgeGate.Finite p) fallback = p).
Proof.
  intros Hlo Hhi. cbv zeta.
  assert (Hle : (min <= max)%Q) by (eapply Qle_trans; eauto).
  assert (Hrefl : forall x y, (x <= y)%Q -> Qle_bool x y = true)
    by (intros x y; apply Qle_bool_iff).
  assert (Hnot : forall x y, Qle_bool x y = false -> (y < x)%Q).
  { intros x y H. apply Qnot_le_lt. intros H1.
    apply Qle_bool_iff in H1. congruence. }
  split.
  - destruct value as [q|]; cbn [EasyAgeGate.clampNumber].
    + destruct (Qle_bool min q) eqn:H1; cbn [negb].
      * destruct (Qle_bool q max) eqn:H2; cbn [negb].
        -- apply Qle_bool_iff in H1, H2. rewrite (Hrefl _ _ H1), (Hrefl _ _ H2).
           auto.
        -- rewrite (Hrefl _ _ Hle), (Hrefl _ _ (Qle_refl max)).
           split; [exact Hle|]. split; [apply Qle_refl | reflexivity].
      * rewrite (Hrefl _ _ (Qle_refl min)). cbn [negb].
        split; [apply Qle_refl|]. split; [exact Hle|].
        now rewrite (Hrefl _ _ Hle).
    + rewrite (Hrefl _ _ Hlo), (Hrefl _ _ Hhi). auto.
  - intros Hpos.
    assert (Hfb : Qle_bool fallback 0 = false).
    { destruct (Qle_bool fallback 0) eqn:H; [|reflexivity].
      apply Qle_bool_iff in H. exfalso. eapply Qlt_not_le; eauto. }
    destruct value as [q|]; cbn [EasyAgeGate.asPositiveNumber].
    + destruct (Qle_bool q 0) eqn:H1.
      * rewrite Hfb. auto.
      * rewrite H1. split; [now apply Hnot | reflexivity].
    + rewrite Hfb. auto.
Qed.

Lemma numbers_stay_normalised_witness :
  (16 <= EasyAgeGate.clampNumber (EasyAgeGate.Finite 500) 16 128 30)%Q
  /\ (EasyAgeGate.clampNumber (EasyAgeGate.Finite 500) 16 128 30 <= 128)%Q.
Proof.
  destruct (numbers_stay_normalised (EasyAgeGate.Finite 500) 16 128 30)
    as [[H1 [H2 _]] _].
  - vm_compute. discriminate.
  - vm_compute. discriminate.
  - split; [exact H1 | exact H2].
Defined.

(* ----------------------------------------------------------------- *)
(** *** The session, from the URL of the popup to the message taken up *)

Section SessionBinding.
Import AgeGate.

Lemma normalizeSession_cases (fresh : exc string) (v : jsval)
    (l : option Policy.partial_limits) :
  Policy.normalizeSession fresh v l = fresh
  \/ exists s, Policy.normalizeSession fresh v l = Ok s
               /\ Policy.isUuid s = true.
Proof.
  unfold Policy.normalizeSession. destruct v; auto.
  destruct (_ || _); auto.
  destruct (Policy.isUuid (trim s)) eqn:Hu; cbn [negb]; eauto.
Qed.

Lemma makeVerifyUrl_session (s : string) (inc : option (list string)) :
  In ("session", s) (makeVerifyUrl s inc).
Proof.
  unfold makeVerifyUrl.
  destruct (Policy.sanitizeInclude _ _) as [l|]; [|now left].
  destruct (0 <? Z.of_nat (length l)); now left.
Qed.

End SessionBinding.

(** X24: when [onSuccess] is called, the execution opened the popup on a
    URL whose [session] parameter is a string [isUuid] accepts, the
    caller's or a fresh one, [randomUuid] returning such strings; and the
    credential was decoded from a message of the issuer's origin that
    named this very session. *)
Theorem success_is_bound_to_the_session `{P : Platform}
    (h : AgeGate.host) (c : AgeGate.config) (evs : list AgeGate.event)
    (jwt : string) (payload : object) (r : jsval) :
  (forall u, AgeGate.randomUuid h = Ok u -> Policy.isUuid u = true) ->
  In (AgeGate.OnSuccess jwt payload r) (snd (AgeGate.execute h c evs)) ->
  exists s url e,
    In (AgeGate.WindowOpen url) (snd (AgeGate.execute h c evs))
    /\ In ("session", s) url
    /\ Policy.isUuid s = true
    /\ In (AgeGate.Message e) evs
    /\ AgeGate.ev_origin e = AgeGate.CHILD_ORIGIN
    /\ prop (AgeGate.ev_data e) "session" = JStr s
    /\ AgeGate.decode_token (prop (AgeGate.ev_data e) "token") = Ok jwt.
Proof.
  intros Hfresh Hin.
  destruct (execute_In h c evs _ Hin) as [Hl|[cl [st [effs [Hlaunch Hrun]]]]].
  { elim (launch_effects h c _ Hl). }
  destruct (launch_running h c cl st effs Hlaunch)
    as [_ [_ [_ [_ [Hnone [_ [_ Hopen]]]]]]].
  destruct (run_success_provenance cl st evs jwt payload r Hnone Hrun)
    as [e [He [[Ho [_ [Hs Hdec]]] _]]].
  pose proof (launch_shape h c) as Hshape. rewrite Hlaunch in Hshape.
  destruct Hshape as [_ [_ [Hnorm _]]].
  exists (AgeGate.agegateway_session cl),
         (AgeGate.makeVerifyUrl (AgeGate.agegateway_session cl) (AgeGate.include cl)),
         e.
  split.
  { unfold AgeGate.execute. rewrite Hlaunch.
    destruct (AgeGate.run AgeGate.step cl st evs) as [st' t]. cbn [snd].
    apply in_or_app. now left. }
  split; [apply makeVerifyUrl_session|].
  split.
  { destruct (normalizeSession_cases (AgeGate.randomUuid h) (AgeGate.session c) None)
      as [Hf|[s [Hs' Hu]]].
    - apply Hfresh. congruence.
    - congruence. }
  auto.
Qed.

Lemma success_is_bound_to_the_session_witness :
  exists s url e,
    In (AgeGate.WindowOpen url)
      (snd (AgeGate.execute (P := Example.platform)
              Example.page Example.callbacks
              [AgeGate.Message (Example.message "H4s2MTJlNjIyZTYz")]))
    /\ In ("session", s) url
    /\ Policy.isUuid s = true
    /\ In (AgeGate.Message e)
         [AgeGate.Message (Example.message "H4s2MTJlNjIyZTYz")]
    /\ AgeGate.ev_origin e = AgeGate.CHILD_ORIGIN
    /\ prop (AgeGate.ev_data e) "session" = JStr s
    /\ AgeGate.decode_token (P := Example.platform)
         (prop (AgeGate.ev_data e) "token") = Ok "a.b.c".
Proof.
  apply (@success_is_bound_to_the_session Example.platform
           Example.page Example.callbacks
           [AgeGate.Message (Example.message "H4s2MTJlNjIyZTYz")]
           "a.b.c"
           [("include", JUndefined);
            ("agegateway_session", JStr Example.session_id);
            ("authenticationResponse", JObj [])]
           JNull).
  - intros u Hu. injection Hu as <-. reflexivity.
  - vm_compute. repeat (first [left; reflexivity | right]).
Defined.
